(** * focode crawler: a shallow embedding of [parser.py] and its properties

    The development follows the layout of the Python module: string
    utilities ([normalize_ws], [parse_date_from_slug]), the DOM walk of
    the extraction pipeline ([strip_unwanted], [extract_blocks]), the
    frontier ([allowed], [enqueue]), sitemap seeding
    ([parse_sitemap_urls]), the static fetch with retries ([fetch]) and
    the crawl loop with its browser session ([crawl_and_export],
    [JSRenderer.close]).

    Python [str] values are modelled by [string]: sequences of characters
    with code points below 256.  On that range [\d] is [0-9], the
    whitespace of [str.strip()]/[str.isspace()] is the set written out in
    [isspace], and case folding of the ASCII letters is the only one the
    regular expressions of the module can observe. *)

From Stdlib Require Import ZArith List String Ascii Bool Lia QArith Qabs Qpower Qround Lqa.
From stdpp Require Import gmap strings.
Import ListNotations.

Local Open Scope string_scope.
Local Open Scope list_scope.

(** ** Python string primitives *)

Module PyStr.

Definition chars (s : string) : list ascii := list_ascii_of_string s.
Definition str (l : list ascii) : string := string_of_list_ascii l.

Definition code (c : ascii) : N := N_of_ascii c.

(** [str.isspace()] on one character (code points below 256). *)
Definition isspace (c : ascii) : bool :=
  let n := code c in
  ((9 <=? n) && (n <=? 13) || (28 <=? n) && (n <=? 32)
   || (n =? 133) || (n =? 160))%N.

(** The character class [[ \t\r\f\v]] of [normalize_ws]. *)
Definition is_hws (c : ascii) : bool :=
  let n := code c in
  ((n =? 32) || (n =? 9) || (n =? 13) || (n =? 12) || (n =? 11))%N.

Definition nl : ascii := ascii_of_N 10.
Definition sp : ascii := ascii_of_N 32.

Definition is_nl (c : ascii) : bool := (code c =? 10)%N.

(** [re.sub(r"[ \t\r\f\v]+", " ", s)]: every maximal run of horizontal
    whitespace is replaced by one space (the space is emitted at the last
    character of the run). *)
Fixpoint sub_hws (l : list ascii) : list ascii :=
  match l with
  | [] => []
  | c :: r =>
      if is_hws c then
        match r with
        | c' :: _ => if is_hws c' then sub_hws r else sp :: sub_hws r
        | [] => [sp]
        end
      else c :: sub_hws r
  end.

(** What a maximal run of [k] newlines becomes under
    [re.sub(r"\n{3,}", "\n\n", s)]. *)
Definition emit_nl (k : nat) : list ascii :=
  repeat nl (if (3 <=? k)%nat then 2 else k).

(** [re.sub(r"\n{3,}", "\n\n", s)], with [k] the number of newlines of the
    current run already read. *)
Fixpoint sub_nl (k : nat) (l : list ascii) : list ascii :=
  match l with
  | [] => emit_nl k
  | c :: r =>
      if is_nl c then sub_nl (S k) r
      else emit_nl k ++ c :: sub_nl 0 r
  end.

Fixpoint lstrip_by (p : ascii -> bool) (l : list ascii) : list ascii :=
  match l with
  | [] => []
  | c :: r => if p c then lstrip_by p r else l
  end.

Fixpoint rstrip_by (p : ascii -> bool) (l : list ascii) : list ascii :=
  match l with
  | [] => []
  | c :: r =>
      match rstrip_by p r with
      | [] => if p c then [] else [c]
      | r' => c :: r'
      end
  end.

(** [s.strip()] and [s.strip(chars)]. *)
Definition strip_by (p : ascii -> bool) (l : list ascii) : list ascii :=
  rstrip_by p (lstrip_by p l).

Definition strip (s : string) : string := str (strip_by isspace (chars s)).

End PyStr.

(** ** [normalize_ws] *)

Definition normalize_chars (l : list ascii) : list ascii :=
  PyStr.strip_by PyStr.isspace (PyStr.sub_nl 0 (PyStr.sub_hws l)).

Definition normalize_ws (s : string) : string :=
  PyStr.str (normalize_chars (PyStr.chars s)).

(** *** Shape of normalized text

    [hws_ok]: every horizontal-whitespace character is a single space that
    is not followed by another one.  [nl_ok k]: no run of newlines, counted
    from [k] already read, reaches three. *)

Section NormalForm.
Import PyStr.

Definition head_not (p : ascii -> bool) (l : list ascii) : bool :=
  match l with
  | [] => true
  | c :: _ => negb (p c)
  end.

Fixpoint hws_ok (l : list ascii) : bool :=
  match l with
  | [] => true
  | c :: r =>
      (if is_hws c then Ascii.eqb c sp && head_not is_hws r else true)
      && hws_ok r
  end.

Fixpoint nl_ok (k : nat) (l : list ascii) : bool :=
  match l with
  | [] => true
  | c :: r => if is_nl c then (k <? 2)%nat && nl_ok (S k) r else nl_ok 0 r
  end.

Lemma is_nl_eq c : is_nl c = true -> c = nl.
Proof.
  unfold is_nl, code, nl. intros H. apply N.eqb_eq in H.
  rewrite <- H. symmetry. apply ascii_N_embedding.
Qed.

Lemma is_nl_not_hws c : is_nl c = true -> is_hws c = false.
Proof. intros H. apply is_nl_eq in H. subst c. reflexivity. Qed.

Lemma is_hws_not_nl c : is_hws c = true -> is_nl c = false.
Proof.
  intros H. destruct (is_nl c) eqn:E; [|reflexivity].
  apply is_nl_not_hws in E. congruence.
Qed.

Lemma head_not_sub_hws l :
  head_not is_hws l = true -> head_not is_hws (sub_hws l) = true.
Proof.
  destruct l as [|c r]; simpl; [reflexivity|].
  intros H. apply negb_true_iff in H. rewrite H. simpl. now rewrite H.
Qed.

Lemma hws_ok_sub_hws l : hws_ok (sub_hws l) = true.
Proof.
  induction l as [|c r IH]; [reflexivity|].
  cbn [sub_hws]. destruct (is_hws c) eqn:Hc.
  - destruct r as [|c' r']; [reflexivity|].
    destruct (is_hws c') eqn:Hc'; [exact IH|].
    cbn [hws_ok]. rewrite IH.
    replace (is_hws sp) with true by reflexivity.
    rewrite head_not_sub_hws by (simpl; now rewrite Hc').
    reflexivity.
  - cbn [hws_ok]. now rewrite Hc, IH.
Qed.

Lemma sub_hws_fixed l : hws_ok l = true -> sub_hws l = l.
Proof.
  induction l as [|c r IH]; [reflexivity|].
  cbn [hws_ok sub_hws]. intros H. apply andb_true_iff in H as [H1 H2].
  rewrite (IH H2). destruct (is_hws c); [|reflexivity].
  apply andb_true_iff in H1 as [He Hh]. apply Ascii.eqb_eq in He. subst c.
  destruct r as [|c' r']; [reflexivity|].
  simpl in Hh. apply negb_true_iff in Hh. now rewrite Hh.
Qed.

Lemma hws_ok_repeat_nl n l : hws_ok (repeat nl n ++ l) = hws_ok l.
Proof. induction n as [|n IH]; [reflexivity|]. simpl. exact IH. Qed.

Lemma head_not_repeat_nl n l :
  head_not is_hws l = true -> head_not is_hws (repeat nl n ++ l) = true.
Proof. destruct n; [trivial|reflexivity]. Qed.

Lemma head_not_sub_nl k l :
  head_not is_hws l = true -> head_not is_hws (sub_nl k l) = true.
Proof.
  revert k. induction l as [|c r IH]; intros k H.
  - simpl. unfold emit_nl. rewrite <- (app_nil_r (repeat _ _)).
    now apply head_not_repeat_nl.
  - cbn [sub_nl]. destruct (is_nl c) eqn:Hc.
    + destruct r as [|c' r'].
      * simpl. unfold emit_nl. destruct k as [|[|[|k]]]; reflexivity.
      * clear IH H. revert k c Hc. generalize c' at 1.
        induction r' as [|d r'' IHr]; intros c0 k c Hc.
        -- cbn [sub_nl]. destruct (is_nl c0);
             unfold emit_nl; simpl.
           ++ destruct k as [|[|k]]; reflexivity.
           ++ destruct k as [|[|k]]; reflexivity.
        -- cbn [sub_nl]. destruct (is_nl c0) eqn:Hc0.
           ++ specialize (IHr d (S k) c0 Hc0). cbn [sub_nl] in IHr. exact IHr.
           ++ unfold emit_nl. destruct k as [|[|k]]; reflexivity.
    + unfold emit_nl. apply head_not_repeat_nl. exact H.
Qed.

Lemma hws_ok_sub_nl k l : hws_ok l = true -> hws_ok (sub_nl k l) = true.
Proof.
  revert k. induction l as [|c r IH]; intros k H.
  - simpl. unfold emit_nl. rewrite <- (app_nil_r (repeat _ _)).
    now rewrite hws_ok_repeat_nl.
  - cbn [hws_ok] in H. apply andb_true_iff in H as [H1 H2].
    cbn [sub_nl]. destruct (is_nl c) eqn:Hc; [now apply IH|].
    unfold emit_nl. rewrite hws_ok_repeat_nl. cbn [hws_ok].
    rewrite (IH 0%nat H2), andb_true_r.
    destruct (is_hws c); [|reflexivity].
    apply andb_true_iff in H1 as [He Hh]. rewrite He. simpl.
    now apply head_not_sub_nl.
Qed.

Lemma nl_ok_repeat j n c l :
  (j + n <= 2)%nat -> is_nl c = false ->
  nl_ok j (repeat nl n ++ c :: l) = nl_ok 0 l.
Proof.
  revert j. induction n as [|n IH]; intros j Hj Hc.
  - simpl. now rewrite Hc.
  - cbn [repeat app nl_ok]. replace (is_nl nl) with true by reflexivity.
    rewrite IH by (trivial; lia).
    destruct (Nat.ltb_spec j 2); [reflexivity|lia].
Qed.

Lemma nl_ok_repeat_nil j n : (j + n <= 2)%nat -> nl_ok j (repeat nl n) = true.
Proof.
  revert j. induction n as [|n IH]; intros j Hj; [reflexivity|].
  cbn [repeat nl_ok]. replace (is_nl nl) with true by reflexivity.
  rewrite IH by lia. destruct (Nat.ltb_spec j 2); [reflexivity|lia].
Qed.

Lemma emit_nl_le k : (length (emit_nl k) <= 2)%nat.
Proof.
  unfold emit_nl. rewrite repeat_length.
  destruct (Nat.leb_spec 3 k); lia.
Qed.

Lemma nl_ok_sub_nl k l : nl_ok 0 (sub_nl k l) = true.
Proof.
  revert k. induction l as [|c r IH]; intros k.
  - simpl. unfold emit_nl. apply nl_ok_repeat_nil.
    destruct (Nat.leb_spec 3 k); lia.
  - cbn [sub_nl]. destruct (is_nl c) eqn:Hc; [apply IH|].
    unfold emit_nl. rewrite nl_ok_repeat; trivial.
    destruct (Nat.leb_spec 3 k); lia.
Qed.

Lemma repeat_snoc_cons (n : nat) (l : list ascii) :
  repeat nl (S n) ++ l = repeat nl n ++ nl :: l.
Proof. induction n as [|n IH]; [reflexivity|]. simpl in *. now rewrite IH. Qed.

Lemma sub_nl_fixed k l :
  (k <= 2)%nat -> nl_ok k l = true -> sub_nl k l = repeat nl k ++ l.
Proof.
  revert k. induction l as [|c r IH]; intros k Hk H.
  - simpl. unfold emit_nl. rewrite app_nil_r.
    destruct (Nat.leb_spec 3 k); [lia|reflexivity].
  - cbn [sub_nl nl_ok] in *. destruct (is_nl c) eqn:Hc.
    + apply andb_true_iff in H as [H1 H2]. apply Nat.ltb_lt in H1.
      rewrite IH by (trivial; lia). apply is_nl_eq in Hc. subst c.
      apply repeat_snoc_cons.
    + rewrite (IH 0%nat) by (trivial; lia). unfold emit_nl.
      destruct (Nat.leb_spec 3 k); [lia|reflexivity].
Qed.

Lemma nl_ok_weaken k k' l : (k' <= k)%nat -> nl_ok k l = true -> nl_ok k' l = true.
Proof.
  revert k k'. induction l as [|c r IH]; intros k k' Hk H; [reflexivity|].
  cbn [nl_ok] in *. destruct (is_nl c); [|exact H].
  apply andb_true_iff in H as [H1 H2]. apply Nat.ltb_lt in H1.
  rewrite (IH (S k) (S k')) by (trivial; lia).
  destruct (Nat.ltb_spec k' 2); [reflexivity|lia].
Qed.

(** Stripping keeps a contiguous part of the text, so both shapes survive. *)

Lemma rstrip_head p l c r :
  rstrip_by p l = c :: r -> exists r', l = c :: r'.
Proof.
  destruct l as [|d l']; [discriminate|]. cbn [rstrip_by].
  destruct (rstrip_by p l'); [destruct (p d)|]; intros H; inversion H; eauto.
Qed.

Lemma head_not_rstrip q p l :
  head_not q l = true -> head_not q (rstrip_by p l) = true.
Proof.
  intros H. destruct (rstrip_by p l) as [|c r] eqn:E; [reflexivity|].
  apply rstrip_head in E as [r' ->]. exact H.
Qed.

Lemma hws_ok_lstrip p l : hws_ok l = true -> hws_ok (lstrip_by p l) = true.
Proof.
  induction l as [|c r IH]; [trivial|]. intros H. cbn [lstrip_by].
  destruct (p c); [|exact H]. apply IH. cbn [hws_ok] in H.
  now apply andb_true_iff in H as [_ H].
Qed.

Lemma hws_ok_rstrip p l : hws_ok l = true -> hws_ok (rstrip_by p l) = true.
Proof.
  induction l as [|c r IH]; [trivial|]. intros H.
  cbn [hws_ok] in H. apply andb_true_iff in H as [H1 H2].
  cbn [rstrip_by]. specialize (IH H2).
  destruct (rstrip_by p r) as [|d r'] eqn:E.
  - destruct (p c); [reflexivity|]. cbn [hws_ok]. rewrite andb_true_r.
    destruct (is_hws c); [|reflexivity].
    apply andb_true_iff in H1 as [-> _]. reflexivity.
  - cbn [hws_ok] in *. rewrite IH, andb_true_r.
    destruct (is_hws c); [|reflexivity].
    apply andb_true_iff in H1 as [-> Hh]. simpl.
    apply rstrip_head in E as [r'' ->]. exact Hh.
Qed.

Lemma nl_ok_lstrip p l : nl_ok 0 l = true -> nl_ok 0 (lstrip_by p l) = true.
Proof.
  induction l as [|c r IH]; [trivial|]. intros H. cbn [lstrip_by].
  destruct (p c); [|exact H]. apply IH. cbn [nl_ok] in H.
  destruct (is_nl c); [|exact H].
  apply andb_true_iff in H as [_ H]. apply (nl_ok_weaken 1 0); [lia|exact H].
Qed.

Lemma nl_ok_rstrip p k l : nl_ok k l = true -> nl_ok k (rstrip_by p l) = true.
Proof.
  revert k. induction l as [|c r IH]; intros k H; [trivial|].
  cbn [rstrip_by]. cbn [nl_ok] in H.
  destruct (rstrip_by p r) as [|d r'] eqn:E.
  - destruct (p c); [reflexivity|]. cbn [nl_ok].
    destruct (is_nl c); [|reflexivity].
    apply andb_true_iff in H as [-> _]. reflexivity.
  - cbn [nl_ok]. destruct (is_nl c).
    + apply andb_true_iff in H as [-> H]. simpl. now apply IH.
    + now apply IH.
Qed.

Lemma rstrip_idem p l : rstrip_by p (rstrip_by p l) = rstrip_by p l.
Proof.
  induction l as [|c r IH]; [reflexivity|]. cbn [rstrip_by].
  destruct (rstrip_by p r) as [|d r'] eqn:E.
  - destruct (p c) eqn:Hc; [reflexivity|]. simpl. now rewrite Hc.
  - cbn [rstrip_by] in *. rewrite IH. reflexivity.
Qed.

Lemma head_not_lstrip p l : head_not p (lstrip_by p l) = true.
Proof.
  induction l as [|c r IH]; [reflexivity|]. cbn [lstrip_by].
  destruct (p c) eqn:Hc; [exact IH|]. simpl. now rewrite Hc.
Qed.

Lemma lstrip_fixed p l : head_not p l = true -> lstrip_by p l = l.
Proof.
  destruct l as [|c r]; [reflexivity|]. simpl. intros H.
  apply negb_true_iff in H. now rewrite H.
Qed.

Lemma strip_by_idem p l : strip_by p (strip_by p l) = strip_by p l.
Proof.
  unfold strip_by.
  rewrite (lstrip_fixed p (rstrip_by p _)).
  - apply rstrip_idem.
  - apply head_not_rstrip, head_not_lstrip.
Qed.

Lemma normalize_chars_shape l :
  hws_ok (normalize_chars l) = true /\ nl_ok 0 (normalize_chars l) = true.
Proof.
  unfold normalize_chars, strip_by. split.
  - apply hws_ok_rstrip, hws_ok_lstrip, hws_ok_sub_nl, hws_ok_sub_hws.
  - apply nl_ok_rstrip, nl_ok_lstrip, nl_ok_sub_nl.
Qed.

Lemma normalize_chars_idem l :
  normalize_chars (normalize_chars l) = normalize_chars l.
Proof.
  destruct (normalize_chars_shape l) as [H1 H2].
  unfold normalize_chars at 1.
  rewrite (sub_hws_fixed _ H1), (sub_nl_fixed 0 _ (Nat.le_0_l 2) H2).
  simpl. unfold normalize_chars. apply strip_by_idem.
Qed.

End NormalForm.

(** C8. Whitespace normalization is idempotent: for every string [s],
    [normalize_ws (normalize_ws s) = normalize_ws s]. *)
Theorem normalize_ws_idempotent (s : string) :
  normalize_ws (normalize_ws s) = normalize_ws s.
Proof.
  unfold normalize_ws, PyStr.chars, PyStr.str.
  rewrite list_ascii_of_string_of_list_ascii.
  now rewrite normalize_chars_idem.
Qed.

(** ** [parse_date_from_slug] *)

Module PyDate.

(** [datetime._is_leap] and [datetime._days_in_month]. *)
Definition is_leap (year : Z) : bool :=
  ((year mod 4 =? 0) && (negb (year mod 100 =? 0) || (year mod 400 =? 0)))%Z.

Definition days_in_month (year month : Z) : Z :=
  if ((month =? 2) && is_leap year)%Z then 29
  else nth (Z.to_nat month) [0; 31; 28; 31; 30; 31; 30; 31; 31; 30; 31; 30; 31]%Z 0%Z.

(** The checks of the [date(year, month, day)] constructor; a failed check
    is the [ValueError] of the source. *)
Definition valid_date (year month day : Z) : bool :=
  ((1 <=? year) && (year <=? 9999) && (1 <=? month) && (month <=? 12)
   && (1 <=? day) && (day <=? days_in_month year month))%Z.

Definition digit_char (d : Z) : ascii := ascii_of_N (48 + Z.to_N (d mod 10)).

(** ["%02d"] and ["%04d"] on the values a valid date has. *)
Definition dec2 (n : Z) : list ascii := [digit_char (n / 10); digit_char n].
Definition dec4 (n : Z) : list ascii :=
  [digit_char (n / 1000); digit_char (n / 100); digit_char (n / 10); digit_char n].

Definition hyphen : ascii := ascii_of_N 45.

(** [date.isoformat()]: ["%04d-%02d-%02d"]. *)
Definition isoformat (year month day : Z) : string :=
  PyStr.str (dec4 year ++ hyphen :: dec2 month ++ hyphen :: dec2 day).

End PyDate.

(** [\d] on code points below 256, and the value [int] gives the digit. *)
Definition is_digit (c : ascii) : bool :=
  ((48 <=? PyStr.code c) && (PyStr.code c <=? 57))%N.

Definition digit_val (c : ascii) : Z := Z.of_N (PyStr.code c) - 48.

Definition int2 (a b : ascii) : Z := 10 * digit_val a + digit_val b.

(** A match of [(\d{2})(\d{2})(\d{2})] anchored at the head of [l], as the
    three groups read by [int]. *)
Definition six_digits (l : list ascii) : option (Z * Z * Z) :=
  match l with
  | a :: b :: c :: d :: e :: f :: _ =>
      if forallb is_digit [a; b; c; d; e; f]
      then Some (int2 a b, int2 c d, int2 e f)
      else None
  | _ => None
  end.

(** [re.search]: the leftmost position with a match. *)
Fixpoint re_search_ddmmyy (l : list ascii) : option (Z * Z * Z) :=
  match six_digits l with
  | Some g => Some g
  | None =>
      match l with
      | [] => None
      | _ :: r => re_search_ddmmyy r
      end
  end.

Definition century_year (yy : Z) : Z :=
  if (yy <? 70)%Z then 2000 + yy else 1900 + yy.

Definition parse_date_from_slug (slug : string) : option string :=
  match re_search_ddmmyy (PyStr.chars slug) with
  | None => None
  | Some (dd, mm, yy) =>
      let year := century_year yy in
      if PyDate.valid_date year mm dd
      then Some (PyDate.isoformat year mm dd)
      else None
  end.

Example parse_date_leap_day :
  parse_date_from_slug "x-290224" = Some "2024-02-29"
  /\ parse_date_from_slug "x-290223" = None.
Proof. split; reflexivity. Qed.

Example parse_date_year_pivot :
  parse_date_from_slug "010169" = Some "2069-01-01"
  /\ parse_date_from_slug "010170" = Some "1970-01-01".
Proof. split; reflexivity. Qed.

(** The leftmost window of six digits is the one that is read. *)
Lemma re_search_leftmost (pre run post : list ascii) (g : Z * Z * Z) :
  six_digits (run ++ post) = Some g ->
  (forall k, (k < length pre)%nat ->
             six_digits (skipn k (pre ++ run ++ post)) = None) ->
  re_search_ddmmyy (pre ++ run ++ post) = Some g.
Proof.
  intros Hrun. induction pre as [|c pre IH]; intros Hpre.
  - simpl. destruct (run ++ post); simpl in *; [discriminate|].
    now rewrite Hrun.
  - pose proof (Hpre 0%nat ltac:(simpl; lia)) as H0. simpl skipn in H0.
    change ((c :: pre) ++ run ++ post) with (c :: (pre ++ run ++ post)) in *.
    cbn [re_search_ddmmyy]. rewrite H0. apply IH.
    intros k Hk. apply (Hpre (S k)). simpl. lia.
Qed.

(** C7. [parse_date_from_slug "article-150324-notes"] is [2024-03-15] and
    [parse_date_from_slug "no-date-here"] is absent.  In general, when the
    leftmost run of six digits of the slug reads DD MM YY, the year is
    [2000+YY] for [YY < 70] and [1900+YY] otherwise, and the result is the
    ISO date when (year, MM, DD) is a calendar date and absent when not. *)
Theorem parse_date_from_slug_spec :
  parse_date_from_slug "article-150324-notes" = Some "2024-03-15"
  /\ parse_date_from_slug "no-date-here" = None
  /\ forall (pre post : list ascii) (d1 d2 m1 m2 y1 y2 : ascii),
      forallb is_digit [d1; d2; m1; m2; y1; y2] = true ->
      (forall k, (k < length pre)%nat ->
         six_digits (skipn k (pre ++ [d1; d2; m1; m2; y1; y2] ++ post)) = None) ->
      let dd := int2 d1 d2 in
      let mm := int2 m1 m2 in
      let yy := int2 y1 y2 in
      let year := if (yy <? 70)%Z then (2000 + yy)%Z else (1900 + yy)%Z in
      parse_date_from_slug (PyStr.str (pre ++ [d1; d2; m1; m2; y1; y2] ++ post))
      = if PyDate.valid_date year mm dd
        then Some (PyDate.isoformat year mm dd)
        else None.
Proof.
  split; [reflexivity|]. split; [reflexivity|].
  intros pre post d1 d2 m1 m2 y1 y2 Hd Hpre dd mm yy year.
  unfold parse_date_from_slug, PyStr.chars, PyStr.str.
  rewrite list_ascii_of_string_of_list_ascii.
  rewrite (re_search_leftmost pre [d1; d2; m1; m2; y1; y2] post (dd, mm, yy)).
  - reflexivity.
  - cbn [app six_digits]. now rewrite Hd.
  - exact Hpre.
Qed.

(** The general clause at a slug whose date is calendar-invalid: day 31 of
    February 1999. *)
Lemma parse_date_from_slug_spec_witness :
  parse_date_from_slug "post-310299-x" = None.
Proof.
  exact (proj2 (proj2 parse_date_from_slug_spec)
           (PyStr.chars "post-") (PyStr.chars "-x")
           "3"%char "1"%char "0"%char "2"%char "9"%char "9"%char
           eq_refl
           (fun k (Hk : (k < 5)%nat) =>
              match k as k0 return
                (k0 < 5)%nat ->
                six_digits (skipn k0 (PyStr.chars "post-310299-x")) = None
              with
              | 0 | 1 | 2 | 3 | 4 => fun _ => eq_refl
              | S (S (S (S (S n)))) => fun H => ltac:(exfalso; lia)
              end%nat Hk)).
Defined.

(** ** More string primitives: case, search, join *)

Module PyText.

Definition is_upper_ascii (c : ascii) : bool :=
  ((65 <=? PyStr.code c) && (PyStr.code c <=? 90))%N.

(** Upper-case letters of code points below 256 that [str.lower()] maps. *)
Definition is_upper (c : ascii) : bool :=
  let n := PyStr.code c in
  (is_upper_ascii c || (192 <=? n) && (n <=? 222) && negb (n =? 215))%N.

Definition shift32 (c : ascii) : ascii := ascii_of_N (PyStr.code c + 32).

Definition lower_char (c : ascii) : ascii := if is_upper c then shift32 c else c.
Definition fold_char (c : ascii) : ascii := if is_upper_ascii c then shift32 c else c.

(** [s.lower()]. *)
Definition lower (s : string) : string := PyStr.str (map lower_char (PyStr.chars s)).

Fixpoint starts (p l : list ascii) : bool :=
  match p, l with
  | [], _ => true
  | _ :: _, [] => false
  | a :: p', b :: l' => Ascii.eqb a b && starts p' l'
  end.

Fixpoint occurs (p l : list ascii) : bool :=
  starts p l || match l with [] => false | _ :: r => occurs p r end.

(** [s.startswith(p)] and [s.endswith(p)]. *)
Definition startswith (s p : string) : bool := starts (PyStr.chars p) (PyStr.chars s).
Definition endswith (s p : string) : bool :=
  starts (rev (PyStr.chars p)) (rev (PyStr.chars s)).

(** [re.compile(kw, re.I).search(s)] for a literal, lower-case [kw]. *)
Definition search_nocase (kw s : string) : bool :=
  occurs (PyStr.chars kw) (map fold_char (PyStr.chars s)).

(** [sep.join(parts)]. *)
Fixpoint join (sep : string) (parts : list string) : string :=
  match parts with
  | [] => ""
  | [x] => x
  | x :: r => x ++ sep ++ join sep r
  end.

Definition nonempty (s : string) : bool := negb (String.eqb s "").

End PyText.

(** ** The parsed document (BeautifulSoup) *)

(** A value of [Tag.attrs]: a string, or a list for the multi-valued
    attributes such as [class]. *)
Inductive attr_value :=
| AttrStr (s : string)
| AttrList (l : list string).

(** A [NavigableString] or a [Tag]. *)
#[warnings="-register-all"]
Inductive node :=
| Text (s : string)
| Tag (name : string) (attrs : list (string * attr_value)) (contents : list node).

Module Soup.

Definition is_tag (n : node) : bool :=
  match n with Tag _ _ _ => true | Text _ => false end.

Definition name_of (n : node) : string :=
  match n with Tag nm _ _ => nm | Text _ => "" end.

Definition contents_of (n : node) : list node :=
  match n with Tag _ _ cs => cs | Text _ => [] end.

Definition attrs_of (n : node) : list (string * attr_value) :=
  match n with Tag _ a _ => a | Text _ => [] end.

(** [Tag.descendants]: document (pre-)order, the element itself excluded. *)
Fixpoint descendants (n : node) : list node :=
  match n with
  | Text _ => []
  | Tag _ _ cs => flat_map (fun c => c :: descendants c) cs
  end.

Definition named (names : list string) (n : node) : bool :=
  is_tag n && existsb (String.eqb (name_of n)) names.

(** [el.find_all(names, recursive=True)] and
    [el.find_all(name, recursive=False)]. *)
Definition find_all (names : list string) (n : node) : list node :=
  List.filter (named names) (descendants n).
Definition find_children (names : list string) (n : node) : list node :=
  List.filter (named names) (contents_of n).

Definition strings_of (n : node) : list string :=
  flat_map (fun d => match d with Text s => [s] | Tag _ _ _ => [] end) (descendants n).

(** [el.get_text(sep, strip=True)]: every string stripped, the empty ones
    dropped; [el.get_text()]: the strings as they are, concatenated. *)
Definition get_text_strip (sep : string) (n : node) : string :=
  PyText.join sep (List.filter PyText.nonempty (map PyStr.strip (strings_of n))).
Definition get_text (n : node) : string := PyText.join "" (strings_of n).

(** [attrs.get(key)]. *)
Fixpoint get (attrs : list (string * attr_value)) (key : string) : option attr_value :=
  match attrs with
  | [] => None
  | (k, v) :: r => if String.eqb k key then Some v else get r key
  end.

(** [Tag.get] of a single-valued attribute ([src], [alt], [id]): bs4 keeps a
    list only for the multi-valued ones. *)
Definition get_str (n : node) (key : string) : option string :=
  match get (attrs_of n) key with
  | Some (AttrStr s) => Some s
  | _ => None
  end.

(** After [t.decompose()] on every descendant that satisfies [p]: those
    elements are gone with their subtrees; the root stays. *)
Fixpoint decompose_all (p : node -> bool) (n : node) : node :=
  match n with
  | Text s => Text s
  | Tag nm a cs =>
      Tag nm a
        ((fix go (l : list node) : list node :=
            match l with
            | [] => []
            | c :: r => if p c then go r else decompose_all p c :: go r
            end) cs)
  end.

End Soup.

(** ** Content blocks and [extract_blocks] *)

Record ContentBlock := {
  type : string;  (* "heading"|"paragraph"|"list"|"quote"|"image"|"code" *)
  text : option string;
  level : option Z;
  items : option (list string);
  src : option string;
  alt : option string
}.

Definition heading_block (lv : Z) (txt : string) : ContentBlock :=
  {| type := "heading"; text := Some txt; level := Some lv; items := None;
     src := None; alt := None |}.
Definition paragraph_block (txt : string) : ContentBlock :=
  {| type := "paragraph"; text := Some txt; level := None; items := None;
     src := None; alt := None |}.
Definition list_block (its : list string) : ContentBlock :=
  {| type := "list"; text := None; level := None; items := Some its;
     src := None; alt := None |}.
Definition quote_block (txt : string) : ContentBlock :=
  {| type := "quote"; text := Some txt; level := None; items := None;
     src := None; alt := None |}.
Definition code_block (txt : string) : ContentBlock :=
  {| type := "code"; text := Some txt; level := None; items := None;
     src := None; alt := None |}.
Definition image_block (s : string) (a : option string) : ContentBlock :=
  {| type := "image"; text := None; level := None; items := None;
     src := Some s; alt := a |}.

(** An entry [{"src": src, "alt": alt}] of the images list. *)
Record ImageEntry := { img_src : string; img_alt : option string }.

(** [a or b] on an optional string: the first one that is present and
    non-empty. *)
Definition py_or (a : option string) (b : option string) : option string :=
  match a with
  | Some s => if PyText.nonempty s then Some s else b
  | None => b
  end.

Section Extraction.

(** [urllib.parse.urljoin(base, url)]. *)
Variable urljoin : string -> string -> string.

Definition absolutize (url base : string) : string := urljoin base url.

Definition extraction : Type := list ContentBlock * list ImageEntry.

Definition append_block (b : ContentBlock) (st : extraction) : extraction :=
  (fst st ++ [b], snd st).

Definition add_image (base_url : string) (img : node) (st : extraction) : extraction :=
  match py_or (Soup.get_str img "src") (py_or (Soup.get_str img "data-src") None) with
  | None => st
  | Some src0 =>
      let src := absolutize src0 base_url in
      let alt := py_or (Soup.get_str img "alt") None in
      (fst st ++ [image_block src alt],
       snd st ++ [{| img_src := src; img_alt := alt |}])
  end.

Definition block_tags : list string :=
  ["h1"; "h2"; "h3"; "h4"; "h5"; "p"; "ul"; "ol"; "blockquote"; "pre"; "img"].

(** [int(name[1])]. *)
Definition level_of (name : string) : Z :=
  match PyStr.chars name with
  | _ :: c :: _ => digit_val c
  | _ => 0
  end.

Definition nl_char (c : ascii) : bool := PyStr.is_nl c.

(** One turn of the loop over [container.find_all([...])]. *)
Definition extract_step (base_url : string) (st : extraction) (el : node) : extraction :=
  let name := PyText.lower (Soup.name_of el) in
  if String.eqb name "img" then add_image base_url el st
  else if PyText.startswith name "h" then
    let txt := normalize_ws (Soup.get_text_strip " " el) in
    if PyText.nonempty txt
    then append_block (heading_block (level_of name) txt) st
    else st
  else if String.eqb name "p" then
    let imgs := Soup.find_all ["img"] el in
    if negb (Nat.eqb (length imgs) 0)
       && String.eqb (normalize_ws (Soup.get_text_strip " " el)) ""
    then fold_left (fun s i => add_image base_url i s) imgs st
    else
      let txt := normalize_ws (Soup.get_text_strip " " el) in
      if PyText.nonempty txt then append_block (paragraph_block txt) st else st
  else if String.eqb name "ul" || String.eqb name "ol" then
    let its :=
      map (fun li => normalize_ws (Soup.get_text_strip " " li))
          (List.filter (fun li => PyText.nonempty (normalize_ws (Soup.get_text li)))
                  (Soup.find_children ["li"] el)) in
    if negb (Nat.eqb (length its) 0) then append_block (list_block its) st else st
  else if String.eqb name "blockquote" then
    let txt := normalize_ws (Soup.get_text_strip " " el) in
    if PyText.nonempty txt then append_block (quote_block txt) st else st
  else if String.eqb name "pre" then
    let txt := PyStr.str (PyStr.strip_by nl_char
                            (PyStr.chars (Soup.get_text_strip (String PyStr.nl "") el))) in
    if PyText.nonempty txt then append_block (code_block txt) st else st
  else st.

Definition extract_blocks (container : node) (base_url : string) : extraction :=
  fold_left (extract_step base_url) (Soup.find_all block_tags container) ([], []).

End Extraction.

(** ** [strip_unwanted] *)

Definition unwanted_tags : list string :=
  ["script"; "style"; "noscript"; "svg"; "form"; "iframe"; "header"; "footer";
   "nav"; "aside"].

(** [noise_kw.search(s)], the alternatives of the pattern tried in turn. *)
Definition noise_kw_search (s : string) : bool :=
  existsb (fun kw => PyText.search_nocase kw s)
    ["share"; "social"; "comment"; "related"; "cookie"; "ads"; "ad"; "promo";
     "newsletter"].

(** The test of the second loop on one element: its class (a list joined by
    spaces, or a plain string) or its id names a noise keyword. *)
Definition is_noise (t : node) : bool :=
  match t with
  | Text _ => false
  | Tag _ attrs _ =>
      let cls :=
        match Soup.get attrs "class" with
        | None => PyText.join " " []
        | Some (AttrList l) => PyText.join " " l
        | Some (AttrStr s) => s
        end in
      let tid := match Soup.get_str t "id" with Some s => s | None => "" end in
      noise_kw_search cls || noise_kw_search tid
  end.

(** The two loops of [strip_unwanted].  Each selector's matches are
    decomposed before the next selector is applied; the noise loop runs
    deepest-first over a snapshot, so an element is decomposed exactly when
    it has not gone with an ancestor and its own class or id matches. *)
Definition strip_unwanted (container : node) : node :=
  let c := fold_left (fun c sel => Soup.decompose_all (Soup.named [sel]) c)
                     unwanted_tags container in
  Soup.decompose_all is_noise c.

(** *** Equations of [extract_step], one per tag of the walk *)

Section ExtractionFacts.

Variable urljoin : string -> string -> string.
Variable base_url : string.

Local Abbreviation step := (extract_step urljoin base_url).
Local Abbreviation element_text el := (normalize_ws (Soup.get_text_strip " " el)).

Definition heading_levels : list (string * Z) :=
  [("h1", 1); ("h2", 2); ("h3", 3); ("h4", 4); ("h5", 5)]%Z.

Lemma extract_step_img st a cs :
  step st (Tag "img" a cs) = add_image urljoin base_url (Tag "img" a cs) st.
Proof. reflexivity. Qed.

Lemma extract_step_heading nm lv st a cs :
  In (nm, lv) heading_levels ->
  step st (Tag nm a cs) =
    if PyText.nonempty (element_text (Tag nm a cs))
    then append_block (heading_block lv (element_text (Tag nm a cs))) st
    else st.
Proof.
  intros H. repeat (destruct H as [H|H]; [inversion H; subst; reflexivity|]).
  destruct H.
Qed.

Lemma extract_step_p st a cs :
  step st (Tag "p" a cs) =
    let el := Tag "p" a cs in
    let imgs := Soup.find_all ["img"] el in
    if negb (Nat.eqb (length imgs) 0) && String.eqb (element_text el) ""
    then fold_left (fun s i => add_image urljoin base_url i s) imgs st
    else if PyText.nonempty (element_text el)
         then append_block (paragraph_block (element_text el)) st
         else st.
Proof. reflexivity. Qed.

Definition list_items (el : node) : list string :=
  map (fun li => element_text li)
      (List.filter (fun li => PyText.nonempty (normalize_ws (Soup.get_text li)))
              (Soup.find_children ["li"] el)).

Lemma extract_step_list nm st a cs :
  nm = "ul" \/ nm = "ol" ->
  step st (Tag nm a cs) =
    if negb (Nat.eqb (length (list_items (Tag nm a cs))) 0)
    then append_block (list_block (list_items (Tag nm a cs))) st
    else st.
Proof. intros [->| ->]; reflexivity. Qed.

Lemma extract_step_blockquote st a cs :
  step st (Tag "blockquote" a cs) =
    if PyText.nonempty (element_text (Tag "blockquote" a cs))
    then append_block (quote_block (element_text (Tag "blockquote" a cs))) st
    else st.
Proof. reflexivity. Qed.

Definition pre_text (el : node) : string :=
  PyStr.str (PyStr.strip_by nl_char
               (PyStr.chars (Soup.get_text_strip (String PyStr.nl "") el))).

Lemma extract_step_pre st a cs :
  step st (Tag "pre" a cs) =
    if PyText.nonempty (pre_text (Tag "pre" a cs))
    then append_block (code_block (pre_text (Tag "pre" a cs))) st
    else st.
Proof. reflexivity. Qed.

(** The elements the walk visits carry one of the eleven names. *)
Lemma named_block_tags el :
  Soup.named block_tags el = true ->
  exists nm a cs, el = Tag nm a cs /\ In nm block_tags.
Proof.
  destruct el as [s|nm a cs]; [discriminate|]. cbn [Soup.named Soup.is_tag andb].
  intros H. apply existsb_exists in H as (x & Hin & Heq).
  apply String.eqb_eq in Heq. cbn [Soup.name_of] in Heq. subst x. eauto.
Qed.

(** **** Image blocks and the images list move together *)

Definition is_type (ty : string) (b : ContentBlock) : bool := String.eqb (type b) ty.

Definition block_payload (b : ContentBlock) : option string * option string :=
  (src b, alt b).
Definition entry_payload (e : ImageEntry) : option string * option string :=
  (Some (img_src e), img_alt e).

Definition images_agree (st : extraction) : Prop :=
  map block_payload (List.filter (is_type "image") (fst st)) = map entry_payload (snd st).

Lemma images_agree_append b st :
  is_type "image" b = false -> images_agree st -> images_agree (append_block b st).
Proof.
  unfold images_agree, append_block. cbn [fst snd]. intros Hb H.
  rewrite List.filter_app. cbn [List.filter]. rewrite Hb, app_nil_r. exact H.
Qed.

Lemma images_agree_add_image img st :
  images_agree st -> images_agree (add_image urljoin base_url img st).
Proof.
  unfold images_agree, add_image. intros H.
  destruct (py_or _ _) as [src0|]; [|exact H]. cbn [fst snd].
  rewrite List.filter_app, !map_app, H. reflexivity.
Qed.

Lemma images_agree_add_images imgs st :
  images_agree st ->
  images_agree (fold_left (fun s i => add_image urljoin base_url i s) imgs st).
Proof.
  revert st. induction imgs as [|i imgs IH]; intros st H; [exact H|].
  cbn [fold_left]. apply IH, images_agree_add_image, H.
Qed.

Lemma images_agree_step st el :
  images_agree st -> images_agree (step st el).
Proof.
  intros H. unfold extract_step.
  repeat match goal with
  | |- images_agree (if ?c then _ else _) => destruct c
  | |- images_agree (let _ := _ in _) => cbv zeta
  end;
  first [ exact H
        | apply images_agree_add_image, H
        | apply images_agree_add_images, H
        | apply images_agree_append; [reflexivity|exact H] ].
Qed.

Lemma images_agree_fold l st :
  images_agree st -> images_agree (fold_left step l st).
Proof.
  revert st. induction l as [|el l IH]; intros st H; [exact H|].
  cbn [fold_left]. apply IH, images_agree_step, H.
Qed.

(** **** Heading blocks *)

Definition lookup_level (nm : string) : option Z :=
  option_map snd (find (fun kv => String.eqb nm (fst kv)) heading_levels).

(** What a heading element contributes, in the words of the data model:
    one [heading] block with the numeral of the tag and the normalized text,
    when that text is not empty. *)
Definition heading_of (el : node) : list ContentBlock :=
  match el with
  | Text _ => []
  | Tag nm _ _ =>
      match lookup_level nm with
      | Some lv =>
          if PyText.nonempty (element_text el)
          then [heading_block lv (element_text el)]
          else []
      | None => []
      end
  end.

Lemma headings_add_image img st :
  List.filter (is_type "heading") (fst (add_image urljoin base_url img st))
  = List.filter (is_type "heading") (fst st).
Proof.
  unfold add_image. destruct (py_or _ _); [|reflexivity]. cbn [fst].
  rewrite List.filter_app. cbn [List.filter]. apply app_nil_r.
Qed.

Lemma headings_add_images imgs st :
  List.filter (is_type "heading")
    (fst (fold_left (fun s i => add_image urljoin base_url i s) imgs st))
  = List.filter (is_type "heading") (fst st).
Proof.
  revert st. induction imgs as [|i imgs IH]; intros st; [reflexivity|].
  cbn [fold_left]. rewrite IH. apply headings_add_image.
Qed.

Lemma headings_append b st :
  List.filter (is_type "heading") (fst (append_block b st))
  = List.filter (is_type "heading") (fst st) ++ (if is_type "heading" b then [b] else []).
Proof.
  unfold append_block. cbn [fst]. rewrite List.filter_app. cbn [List.filter].
  now destruct (is_type "heading" b).
Qed.

Lemma heading_of_level nm lv a cs :
  In (nm, lv) heading_levels ->
  heading_of (Tag nm a cs) =
    if PyText.nonempty (element_text (Tag nm a cs))
    then [heading_block lv (element_text (Tag nm a cs))]
    else [].
Proof.
  intros H. repeat (destruct H as [H|H]; [inversion H; subst; reflexivity|]).
  destruct H.
Qed.

Lemma headings_step_heading nm lv st a cs :
  In (nm, lv) heading_levels ->
  List.filter (is_type "heading") (fst (step st (Tag nm a cs)))
  = List.filter (is_type "heading") (fst st) ++ heading_of (Tag nm a cs).
Proof.
  intros H. rewrite (extract_step_heading nm lv st a cs H).
  rewrite (heading_of_level nm lv a cs H).
  destruct (PyText.nonempty _).
  - now rewrite headings_append.
  - now rewrite app_nil_r.
Qed.

Ltac other_block :=
  match goal with |- context [if ?c then _ else _] => destruct c end;
  [rewrite headings_append|]; cbn; now rewrite app_nil_r.

Lemma headings_step st el :
  Soup.named block_tags el = true ->
  List.filter (is_type "heading") (fst (step st el))
  = List.filter (is_type "heading") (fst st) ++ heading_of el.
Proof.
  intros H. apply named_block_tags in H as (nm & a & cs & -> & Hin).
  unfold block_tags in Hin.
  repeat (destruct Hin as [<-|Hin]).
  - apply (headings_step_heading "h1" 1). simpl. tauto.
  - apply (headings_step_heading "h2" 2). simpl. tauto.
  - apply (headings_step_heading "h3" 3). simpl. tauto.
  - apply (headings_step_heading "h4" 4). simpl. tauto.
  - apply (headings_step_heading "h5" 5). simpl. tauto.
  - rewrite extract_step_p. cbv zeta.
    match goal with |- context [if ?c then _ else _] => destruct c end.
    + rewrite headings_add_images. cbn. now rewrite app_nil_r.
    + other_block.
  - rewrite (extract_step_list "ul") by auto. other_block.
  - rewrite (extract_step_list "ol") by auto. other_block.
  - rewrite extract_step_blockquote. other_block.
  - rewrite extract_step_pre. other_block.
  - rewrite extract_step_img, headings_add_image. cbn. now rewrite app_nil_r.
  - destruct Hin.
Qed.

Lemma headings_fold l st :
  Forall (fun el => Soup.named block_tags el = true) l ->
  List.filter (is_type "heading") (fst (fold_left step l st))
  = List.filter (is_type "heading") (fst st) ++ flat_map heading_of l.
Proof.
  revert st. induction l as [|el l IH]; intros st H.
  - cbn. now rewrite app_nil_r.
  - inversion H; subst. cbn [fold_left flat_map].
    rewrite IH, headings_step, <- app_assoc by assumption. reflexivity.
Qed.

Lemma heading_of_named el :
  Soup.named block_tags el = false -> heading_of el = [].
Proof.
  destruct el as [s|nm a cs]; [reflexivity|].
  cbn [Soup.named Soup.is_tag Soup.name_of andb heading_of].
  unfold block_tags, lookup_level, heading_levels.
  cbn [existsb find fst snd option_map]. intros H.
  repeat (apply orb_false_iff in H as [-> H]). reflexivity.
Qed.

Lemma heading_of_filter l :
  flat_map heading_of (List.filter (Soup.named block_tags) l) = flat_map heading_of l.
Proof.
  induction l as [|el l IH]; [reflexivity|]. cbn [List.filter flat_map].
  destruct (Soup.named block_tags el) eqn:E.
  - cbn [flat_map]. now rewrite IH.
  - now rewrite (heading_of_named el E), IH.
Qed.

End ExtractionFacts.

(** *** Properties of block extraction *)

(** C10. The images list returned by [extract_blocks] is, in order, the
    list of (src, alt) payloads of the image blocks of the returned block
    list, and an [<img>] that has neither [src] nor [data-src] adds nothing
    to either list. *)
Theorem extract_blocks_images_agree
    (urljoin : string -> string -> string) (container : node) (base_url : string) :
  map block_payload
      (List.filter (is_type "image") (fst (extract_blocks urljoin container base_url)))
  = map entry_payload (snd (extract_blocks urljoin container base_url))
  /\ forall (st : extraction) (nm : string) (a : list (string * attr_value))
            (cs : list node),
       Soup.get a "src" = None -> Soup.get a "data-src" = None ->
       add_image urljoin base_url (Tag nm a cs) st = st
       /\ extract_step urljoin base_url st (Tag "img" a cs) = st.
Proof.
  split.
  - apply (images_agree_fold urljoin base_url). reflexivity.
  - intros st nm a cs Hs Hd.
    assert (H : forall n, add_image urljoin base_url (Tag n a cs) st = st).
    { intros n. unfold add_image, Soup.get_str. cbn [Soup.attrs_of].
      now rewrite Hs, Hd. }
    split; [apply H|]. rewrite extract_step_img. apply H.
Qed.

Lemma extract_blocks_images_agree_witness :
  extract_step (fun base url => url) "http://example.org/"
    ([], []) (Tag "img" [("alt", AttrStr "logo")] [])
  = ([], []).
Proof.
  exact (proj2 (proj2 (extract_blocks_images_agree (fun base url => url)
                         (Text "") "http://example.org/")
                  ([], []) "img" [("alt", AttrStr "logo")] [] eq_refl eq_refl)).
Defined.

(** C3, as stated, fails on level 6: the walk of [extract_blocks] asks
    [find_all] for h1..h5 only, so an h6 heading with text emits no block. *)
Lemma heading_h6_not_extracted :
  let container := Tag "div" [] [Tag "h6" [] [Text "Title"]] in
  normalize_ws (Soup.get_text_strip " " (Tag "h6" [] [Text "Title"])) = "Title"
  /\ extract_blocks (fun base url => url) container "http://example.org/" = ([], []).
Proof. split; reflexivity. Qed.

(** C3 (amended). The heading blocks of the result are, in document order,
    exactly the contributions of the container's descendants named h1..h5:
    each such element with non-empty normalized text gives one heading
    block whose level is the numeral of the tag and whose text is that
    normalized text, and each one with empty normalized text gives none. *)
Theorem extract_blocks_headings
    (urljoin : string -> string -> string) (container : node) (base_url : string) :
  List.filter (is_type "heading") (fst (extract_blocks urljoin container base_url))
  = flat_map heading_of (Soup.descendants container)
  /\ forall (nm : string) (lv : Z) (a : list (string * attr_value)) (cs : list node),
       In (nm, lv) heading_levels ->
       In (Tag nm a cs) (Soup.descendants container) ->
       let txt := normalize_ws (Soup.get_text_strip " " (Tag nm a cs)) in
       if PyText.nonempty txt
       then In (heading_block lv txt) (fst (extract_blocks urljoin container base_url))
       else heading_of (Tag nm a cs) = [].
Proof.
  assert (E : List.filter (is_type "heading")
                (fst (extract_blocks urljoin container base_url))
              = flat_map heading_of (Soup.descendants container)).
  { unfold extract_blocks, Soup.find_all.
    rewrite headings_fold.
    - cbn [fst List.filter app]. apply heading_of_filter.
    - apply List.Forall_forall. intros el Hel. now apply List.filter_In in Hel. }
  split; [exact E|].
  intros nm lv a cs Hlv Hin txt.
  pose proof (heading_of_level nm lv a cs Hlv) as Hh. fold txt in Hh.
  destruct (PyText.nonempty txt); [|exact Hh].
  assert (Hf : In (heading_block lv txt)
                 (flat_map heading_of (Soup.descendants container))).
  { apply in_flat_map. exists (Tag nm a cs). split; [exact Hin|].
    rewrite Hh. now left. }
  rewrite <- E in Hf. now apply List.filter_In in Hf.
Qed.

Lemma extract_blocks_headings_witness :
  In (heading_block 2 "Early years")
     (fst (extract_blocks (fun base url => url)
             (Tag "article" []
                [Tag "section" [] [Tag "h2" [] [Text " Early   years "]]])
             "http://example.org/")).
Proof.
  exact (proj2 (extract_blocks_headings (fun base url => url)
                  (Tag "article" []
                     [Tag "section" [] [Tag "h2" [] [Text " Early   years "]]])
                  "http://example.org/")
           "h2" 2%Z [] [Text " Early   years "]
           (or_intror (or_introl eq_refl))
           (or_intror (or_introl eq_refl))).
Defined.

(** *** The fixture page: a title, two paragraphs, a list and a share box *)

Section Fixture.

Variable urljoin : string -> string -> string.
Variable base_url : string.

Definition para (t : string) : node := Tag "p" [] [Text t].
Definition para_text (t : string) : string :=
  normalize_ws (Soup.get_text_strip " " (para t)).

Definition fixture_h1 : node := Tag "h1" [] [Text "Title"].
Definition fixture_ul : node :=
  Tag "ul" [] [Tag "li" [] [Text "A"]; Tag "li" [] [Text "B"]].
Definition social_share (inside : list node) : node :=
  Tag "div" [("class", AttrList ["social-share"])] inside.

Lemma nonempty_true s : s <> "" -> PyText.nonempty s = true.
Proof.
  intros H. unfold PyText.nonempty. apply negb_true_iff.
  now apply String.eqb_neq.
Qed.

Lemma strip_unwanted_fixture cname cattrs t1 t2 inside before after :
  before ++ after = [fixture_h1; para t1; para t2; fixture_ul] ->
  strip_unwanted (Tag cname cattrs (before ++ social_share inside :: after))
  = Tag cname cattrs [fixture_h1; para t1; para t2; fixture_ul].
Proof.
  intros H.
  destruct before as [|x1 [|x2 [|x3 [|x4 [|x5 before]]]]];
    cbn [app] in H; inversion H; subst; reflexivity.
Qed.

Lemma extract_blocks_clean_fixture cname cattrs t1 t2 :
  para_text t1 <> "" -> para_text t2 <> "" ->
  extract_blocks urljoin
    (Tag cname cattrs [fixture_h1; para t1; para t2; fixture_ul]) base_url
  = ([heading_block 1 "Title"; paragraph_block (para_text t1);
      paragraph_block (para_text t2); list_block ["A"; "B"]], []).
Proof.
  intros H1 H2. apply nonempty_true in H1, H2.
  unfold extract_blocks.
  change (Soup.find_all block_tags _)
    with [fixture_h1; para t1; para t2; fixture_ul].
  cbn [fold_left]. unfold fixture_h1, fixture_ul, para.
  rewrite (extract_step_heading urljoin base_url "h1" 1) by (simpl; tauto).
  rewrite !extract_step_p.
  rewrite (extract_step_list urljoin base_url "ul") by auto.
  change (normalize_ws (Soup.get_text_strip " " (Tag "h1" [] [Text "Title"])))
    with "Title".
  change (list_items _) with ["A"; "B"].
  cbv zeta.
  change (Soup.find_all ["img"] (Tag "p" [] [Text t1])) with (@nil node).
  change (Soup.find_all ["img"] (Tag "p" [] [Text t2])) with (@nil node).
  fold (para t1) (para t2). fold (para_text t1) (para_text t2).
  rewrite H1, H2. reflexivity.
Qed.

End Fixture.

(** C4. For a container that holds [<h1>Title</h1>], two paragraphs whose
    normalized text is not empty, [<ul><li>A</li><li>B</li></ul>] in that
    order, and a [<div class="social-share">] subtree at any place among
    them, noise stripping followed by block extraction yields exactly
    [heading(1, "Title"); paragraph; paragraph; list ["A"; "B"]]: the
    share box is removed by [strip_unwanted] and nothing inside it gives a
    block or an image. *)
Theorem fixture_blocks
    (urljoin : string -> string -> string) (base_url : string)
    (cname : string) (cattrs : list (string * attr_value))
    (t1 t2 : string) (inside before after : list node) :
  para_text t1 <> "" -> para_text t2 <> "" ->
  before ++ after = [fixture_h1; para t1; para t2; fixture_ul] ->
  let container := Tag cname cattrs (before ++ social_share inside :: after) in
  strip_unwanted container
    = Tag cname cattrs [fixture_h1; para t1; para t2; fixture_ul]
  /\ extract_blocks urljoin (strip_unwanted container) base_url
     = ([heading_block 1 "Title"; paragraph_block (para_text t1);
         paragraph_block (para_text t2); list_block ["A"; "B"]], []).
Proof.
  intros H1 H2 Hsplit container. subst container.
  rewrite (strip_unwanted_fixture _ _ _ _ _ _ _ Hsplit).
  split; [reflexivity|]. now apply extract_blocks_clean_fixture.
Qed.

Lemma fixture_blocks_witness :
  extract_blocks (fun base url => url)
    (strip_unwanted
       (Tag "article" []
          [fixture_h1; para "First paragraph.";
           social_share [para "Share this"; Tag "img" [("src", AttrStr "s.png")] []];
           para " Second   one. "; fixture_ul]))
    "http://example.org/post"
  = ([heading_block 1 "Title"; paragraph_block "First paragraph.";
      paragraph_block "Second one."; list_block ["A"; "B"]], []).
Proof.
  refine (proj2 (fixture_blocks (fun base url => url) "http://example.org/post"
                   "article" [] "First paragraph." " Second   one. "
                   [para "Share this"; Tag "img" [("src", AttrStr "s.png")] []]
                   [fixture_h1; para "First paragraph."]
                   [para " Second   one. "; fixture_ul] _ _ eq_refl));
    vm_compute; discriminate.
Defined.

(** ** The frontier: [allowed] and [enqueue] *)

(** The result of [urllib.parse.urlparse]. *)
Record ParseResult := {
  scheme : string;
  netloc : string;
  path : string;
  params : string;
  query : string;
  fragment : string
}.

(** The admission checks, in the order [allowed] evaluates them. *)
Inductive check := CkScheme | CkHost | CkPath | CkRobots.

(** A computation that records the checks it evaluates. *)
Definition Checked (A : Type) : Type := A * list check.
Definition ret {A} (a : A) : Checked A := (a, []).
Definition bind {A B} (m : Checked A) (k : A -> Checked B) : Checked B :=
  let r := k (fst m) in (fst r, snd m ++ snd r).
Definition probe (c : check) (b : bool) : Checked bool := (b, [c]).

Notation "'let*' x ':=' m 'in' k" := (bind m (fun x => k))
  (at level 10, x name, m at level 100, k at level 200).

Record Frontier := { queue : list string; seen : gset string }.

Inductive op := Enqueue (u : string) | Popleft.

Section Crawl.

(** The library and the configuration of one crawl. *)
Variable urlparse : string -> ParseResult.
Variable urldefrag : string -> string * string.
Variable allowed_re_match : string -> bool.            (* allowed_re.match *)
Variable rp : option (string -> string -> bool).       (* rp.can_fetch *)
Variable user_agent : string.
Variable start_url : string.

Definition same_site (a b : string) : bool :=
  String.eqb (PyText.lower (netloc (urlparse a))) (PyText.lower (netloc (urlparse b))).

Definition is_http_url (u : string) : bool :=
  existsb (String.eqb (scheme (urlparse u))) ["http"; "https"].

Definition allowed (u : string) : Checked bool :=
  let* b1 := probe CkScheme (is_http_url u) in
  if negb b1 then ret false else
  let* b2 := probe CkHost (same_site u start_url) in
  if negb b2 then ret false else
  let* b3 := probe CkPath (allowed_re_match (path (urlparse u))) in
  if negb b3 then ret false else
  match rp with
  | Some can_fetch =>
      let* b4 := probe CkRobots (can_fetch user_agent u) in
      if negb b4 then ret false else ret true
  | None => ret true
  end.

Definition enqueue (st : Frontier) (u : string) : Frontier :=
  let u := fst (urldefrag u) in
  if PyText.nonempty u && negb (bool_decide (u ∈ seen st)) && fst (allowed u)
  then {| queue := queue st ++ [u]; seen := {[u]} ∪ seen st |}
  else st.

(** [queue.popleft()], called by the loop on a non-empty queue only. *)
Definition popleft (st : Frontier) : Frontier :=
  {| queue := tl (queue st); seen := seen st |}.

Definition apply_op (st : Frontier) (o : op) : Frontier :=
  match o with
  | Enqueue u => enqueue st u
  | Popleft => popleft st
  end.

Definition empty_frontier : Frontier := {| queue := []; seen := ∅ |}.

(** The entries appended to the queue by one operation, and by a whole
    sequence of operations of a crawl. *)
Definition appended (st : Frontier) (o : op) : list string :=
  match o with
  | Enqueue u => skipn (length (queue st)) (queue (enqueue st u))
  | Popleft => []
  end.

Fixpoint entries (ops : list op) (st : Frontier) : list string :=
  match ops with
  | [] => []
  | o :: r => appended st o ++ entries r (apply_op st o)
  end.

(** *** Each defragmented URL enters the queue at most once *)

Definition admissible (d : string) : bool := PyText.nonempty d && fst (allowed d).

Lemma enqueue_seen st u : fst (urldefrag u) ∈ seen st -> enqueue st u = st.
Proof.
  intros H. unfold enqueue. rewrite (bool_decide_eq_true_2 _ H).
  now rewrite andb_false_r.
Qed.

Lemma enqueue_inadmissible st u :
  admissible (fst (urldefrag u)) = false -> enqueue st u = st.
Proof.
  unfold admissible, enqueue. intros H.
  destruct (PyText.nonempty _); cbn in *; [|reflexivity].
  rewrite H. now rewrite andb_false_r.
Qed.

Lemma enqueue_fresh st u :
  let d := fst (urldefrag u) in
  d ∉ seen st -> admissible d = true ->
  enqueue st u = {| queue := queue st ++ [d]; seen := {[d]} ∪ seen st |}.
Proof.
  intros d Hs Ha. unfold enqueue. fold d.
  apply andb_true_iff in Ha as [-> ->].
  now rewrite (bool_decide_eq_false_2 _ Hs).
Qed.

Lemma skipn_length_app {A} (l r : list A) : skipn (length l) (l ++ r) = r.
Proof. induction l as [|x l IH]; [reflexivity|exact IH]. Qed.

Lemma skipn_length_self {A} (l : list A) : skipn (length l) l = [].
Proof. induction l as [|x l IH]; [reflexivity|exact IH]. Qed.

(** What one [enqueue] appends: the defragmented URL when it is new and
    admissible, nothing otherwise. *)
Lemma appended_enqueue st u :
  appended st (Enqueue u) =
    let d := fst (urldefrag u) in
    if admissible d && negb (bool_decide (d ∈ seen st)) then [d] else [].
Proof.
  cbv zeta. cbn [appended].
  destruct (admissible (fst (urldefrag u))) eqn:Ha.
  - destruct (decide (fst (urldefrag u) ∈ seen st)) as [Hs|Hs].
    + rewrite (enqueue_seen st u Hs), (bool_decide_eq_true_2 _ Hs).
      apply skipn_length_self.
    + rewrite (enqueue_fresh st u Hs Ha), (bool_decide_eq_false_2 _ Hs).
      cbn [queue andb negb]. apply skipn_length_app.
  - rewrite (enqueue_inadmissible st u Ha). apply skipn_length_self.
Qed.

(** The seen-set is exactly the set of entries made so far, no entry was
    made twice, and every entry passed the admission checks. *)
Definition frontier_inv (st : Frontier) (hist : list string) : Prop :=
  (forall x, x ∈ seen st <-> In x hist)
  /\ List.NoDup hist
  /\ (forall x, In x hist -> admissible x = true).

Lemma NoDup_snoc (hist : list string) (d : string) :
  List.NoDup hist -> ~ In d hist -> List.NoDup (hist ++ [d]).
Proof.
  induction hist as [|x hist IH]; intros Hnd Hd.
  - constructor; [intros []|constructor].
  - inversion Hnd; subst. cbn [app]. constructor.
    + rewrite in_app_iff. intros [H|[H|[]]]; [tauto|].
      subst. apply Hd. now left.
    + apply IH; [assumption|]. intros H. apply Hd. now right.
Qed.

Lemma frontier_inv_empty : frontier_inv empty_frontier [].
Proof.
  repeat split.
  - intros H. now apply not_elem_of_empty in H.
  - intros [].
  - constructor.
  - intros x [].
Qed.

Lemma frontier_inv_step st hist o :
  frontier_inv st hist -> frontier_inv (apply_op st o) (hist ++ appended st o).
Proof.
  intros (Hs & Hnd & Ha). destruct o as [u|].
  - rewrite appended_enqueue. cbv zeta. cbn [apply_op].
    set (d := fst (urldefrag u)).
    destruct (admissible d) eqn:Had.
    + destruct (decide (d ∈ seen st)) as [Hin|Hin].
      * rewrite (bool_decide_eq_true_2 _ Hin). cbn [andb negb].
        rewrite app_nil_r, (enqueue_seen st u Hin). now repeat split; try apply Hs.
      * rewrite (bool_decide_eq_false_2 _ Hin). cbn [andb negb].
        rewrite (enqueue_fresh st u Hin Had). fold d. repeat split.
        -- cbn [seen]. rewrite elem_of_union, elem_of_singleton, in_app_iff.
           intros [->|H]; [right; now left|left; now apply Hs].
        -- cbn [seen]. rewrite elem_of_union, elem_of_singleton, in_app_iff.
           intros [H|[->|[]]]; [right; now apply Hs|now left].
        -- apply NoDup_snoc; [assumption|]. intros H. apply Hin. now apply Hs.
        -- intros x Hx. apply in_app_iff in Hx as [Hx|[<-|[]]]; auto.
    + cbn [andb]. rewrite app_nil_r, (enqueue_inadmissible st u Had).
      now repeat split; try apply Hs.
  - cbn [appended apply_op]. rewrite app_nil_r. unfold popleft.
    now repeat split; try apply Hs.
Qed.

Lemma frontier_inv_run ops st hist :
  frontier_inv st hist ->
  frontier_inv (fold_left apply_op ops st) (hist ++ entries ops st).
Proof.
  revert st hist. induction ops as [|o ops IH]; intros st hist H.
  - cbn. now rewrite app_nil_r.
  - cbn [fold_left entries]. rewrite app_assoc. apply IH.
    now apply frontier_inv_step.
Qed.

Lemma entries_enqueued ops st hist u :
  frontier_inv st hist -> In (Enqueue u) ops ->
  admissible (fst (urldefrag u)) = true ->
  In (fst (urldefrag u)) (hist ++ entries ops st).
Proof.
  revert st hist. induction ops as [|o ops IH]; intros st hist Hinv Hin Ha.
  - destruct Hin.
  - cbn [entries]. rewrite app_assoc.
    pose proof (frontier_inv_step st hist o Hinv) as Hnext.
    destruct Hin as [->|Hin]; [|now apply IH].
    apply in_app_iff. left. rewrite appended_enqueue. cbv zeta. rewrite Ha.
    destruct (decide (fst (urldefrag u) ∈ seen st)) as [Hs|Hs].
    + rewrite (bool_decide_eq_true_2 _ Hs). cbn. rewrite app_nil_r.
      now apply Hinv.
    + rewrite (bool_decide_eq_false_2 _ Hs). cbn. apply in_app_iff.
      right. now left.
Qed.

End Crawl.

(** *** A reference instance of the library, for evaluating the model

    [urlsplit], [urlparse], [urlunparse] and [urldefrag] as CPython 3.11
    writes them (a scheme starts with a letter), without the clean-up of control characters and the checks
    on the network location that [urlsplit] does first. *)

Module RefUrl.

Fixpoint break (p : ascii -> bool) (l : list ascii) : list ascii * list ascii :=
  match l with
  | [] => ([], [])
  | c :: r => if p c then ([], l) else let (a, b) := break p r in (c :: a, b)
  end.

Definition is_char (s : string) (c : ascii) : bool :=
  existsb (Ascii.eqb c) (PyStr.chars s).

Definition is_alpha (c : ascii) : bool :=
  let n := PyStr.code c in
  ((65 <=? n) && (n <=? 90) || (97 <=? n) && (n <=? 122))%N.

Definition scheme_char (c : ascii) : bool :=
  is_alpha c || is_digit c || is_char "+-." c.

Definition uses_netloc : list string :=
  [""; "ftp"; "http"; "gopher"; "nntp"; "telnet"; "imap"; "wais"; "file"; "mms";
   "https"; "shttp"; "snews"; "prospero"; "rtsp"; "rtspu"; "rsync"; "svn";
   "svn+ssh"; "sftp"; "nfs"; "git"; "git+ssh"; "ws"; "wss"].

Definition uses_params : list string :=
  [""; "ftp"; "hdl"; "prospero"; "http"; "imap"; "https"; "shttp"; "rtsp"; "rtspu";
   "sip"; "sips"; "mms"; "sftp"; "tel"].

Definition split_scheme (l : list ascii) : list ascii * list ascii :=
  match break (is_char ":") l with
  | (c :: pre, _ :: rest) =>
      if is_alpha c && forallb scheme_char (c :: pre)
      then (map PyText.lower_char (c :: pre), rest)
      else ([], l)
  | _ => ([], l)
  end.

Definition split_netloc (l : list ascii) : list ascii * list ascii :=
  match l with
  | c1 :: c2 :: r =>
      if is_char "/" c1 && is_char "/" c2 then break (is_char "/?#") r else ([], l)
  | _ => ([], l)
  end.

(** [_splitparams]: the [;params] of the last segment of the path. *)
Fixpoint split_params (l : list ascii) : list ascii * list ascii :=
  match l with
  | [] => ([], [])
  | c :: r =>
      if existsb (is_char "/") r
      then let (a, b) := split_params r in (c :: a, b)
      else if is_char "/" c
           then let (a, b) := break (is_char ";") r in (c :: a, tl b)
           else let (a, b) := break (is_char ";") l in (a, tl b)
  end.

Definition urlparse (u : string) : ParseResult :=
  let (sch, r1) := split_scheme (PyStr.chars u) in
  let (loc, r2) := split_netloc r1 in
  let (r3, frag) := break (is_char "#") r2 in
  let (pth, qry) := break (is_char "?") r3 in
  let (pth', prm) :=
    if existsb (String.eqb (PyStr.str sch)) uses_params then split_params pth
    else (pth, []) in
  {| scheme := PyStr.str sch; netloc := PyStr.str loc; path := PyStr.str pth';
     params := PyStr.str prm; query := PyStr.str (tl qry);
     fragment := PyStr.str (tl frag) |}.

Definition urlunparse (p : ParseResult) : string :=
  let url :=
    if PyText.nonempty (params p) then (path p ++ ";" ++ params p)%string else path p in
  let url :=
    if PyText.nonempty (netloc p)
       || (PyText.nonempty (scheme p)
           && existsb (String.eqb (scheme p)) uses_netloc
           && negb (PyText.startswith url "//"))
    then ("//" ++ netloc p
          ++ (if PyText.nonempty url && negb (PyText.startswith url "/")
              then "/" ++ url else url))%string
    else url in
  let url := if PyText.nonempty (scheme p) then (scheme p ++ ":" ++ url)%string else url in
  let url := if PyText.nonempty (query p) then (url ++ "?" ++ query p)%string else url in
  if PyText.nonempty (fragment p) then (url ++ "#" ++ fragment p)%string else url.

Definition urldefrag (u : string) : string * string :=
  if existsb (is_char "#") (PyStr.chars u)
  then let p := urlparse u in
       (urlunparse {| scheme := scheme p; netloc := netloc p; path := path p;
                      params := params p; query := query p; fragment := "" |},
        fragment p)
  else (u, "").

End RefUrl.

(** [re.compile(DEFAULT_ALLOWED_PATH_RE).match(path)] for
    [DEFAULT_ALLOWED_PATH_RE = r"^/(focodemag|focode)[^?#]*$"]: one of the
    two prefixes, then no [?] and no [#] up to the end. *)
Definition default_allowed_path_match (p : string) : bool :=
  existsb (fun pre =>
             PyText.startswith p pre
             && forallb (fun c => negb (RefUrl.is_char "?#" c))
                        (skipn (String.length pre) (PyStr.chars p)))
          ["/focodemag"; "/focode"].

Example ref_urlparse_example :
  RefUrl.urlparse "HTTPS://WWW.Focode.org:443/focodemag/x?p=1#top"
  = {| scheme := "https"; netloc := "WWW.Focode.org:443"; path := "/focodemag/x";
       params := ""; query := "p=1"; fragment := "top" |}.
Proof. reflexivity. Qed.

(** *** Properties of the frontier *)

(** C1, as stated, fails on URLs that are not admitted: two URLs on another
    host that agree after defragmentation give no frontier entry at all. *)
Lemma enqueue_both_inadmissible_no_entry :
  let u1 := "https://example.com/focode/a#top" in
  let u2 := "https://example.com/focode/a#bottom" in
  fst (RefUrl.urldefrag u1) = fst (RefUrl.urldefrag u2)
  /\ entries RefUrl.urlparse RefUrl.urldefrag default_allowed_path_match None
       "Mozilla/5.0" "https://www.focode.org/"
       [Enqueue u1; Enqueue u2] empty_frontier = [].
Proof. split; reflexivity. Qed.

(** C1 (amended). Enqueueing a URL whose defragmented form is already in
    the seen-set changes neither the queue nor the seen-set.  Over any
    sequence of enqueue and dequeue operations of a crawl, no URL is entered
    in the queue twice; and when two URLs with the same defragmented form
    [d] are both enqueued at some points of the sequence, [d] is entered
    exactly once if it is non-empty and passes the admission checks, and
    never otherwise. *)
Theorem enqueue_at_most_once
    (urlparse : string -> ParseResult) (urldefrag : string -> string * string)
    (allowed_re_match : string -> bool) (rp : option (string -> string -> bool))
    (user_agent start_url : string) :
  let enqueue := enqueue urlparse urldefrag allowed_re_match rp user_agent start_url in
  let entries := entries urlparse urldefrag allowed_re_match rp user_agent start_url in
  let admissible := admissible urlparse allowed_re_match rp user_agent start_url in
  (forall st u, fst (urldefrag u) ∈ seen st -> enqueue st u = st)
  /\ (forall ops d, (count_occ string_dec (entries ops empty_frontier) d <= 1)%nat)
  /\ (forall ops u1 u2,
        fst (urldefrag u1) = fst (urldefrag u2) ->
        In (Enqueue u1) ops -> In (Enqueue u2) ops ->
        count_occ string_dec (entries ops empty_frontier) (fst (urldefrag u1))
        = if admissible (fst (urldefrag u1)) then 1%nat else 0%nat).
Proof.
  intros enq ents adm. split; [|split].
  - intros st u. apply enqueue_seen.
  - intros ops d.
    pose proof (frontier_inv_run urlparse urldefrag allowed_re_match rp
                  user_agent start_url ops _ _
                  (frontier_inv_empty urlparse allowed_re_match rp user_agent
                     start_url)) as (_ & Hnd & _).
    cbn [app] in Hnd. now apply (proj1 (NoDup_count_occ string_dec _)).
  - intros ops u1 u2 Heq H1 H2.
    pose proof (frontier_inv_empty urlparse allowed_re_match rp user_agent
                  start_url) as H0.
    pose proof (frontier_inv_run urlparse urldefrag allowed_re_match rp
                  user_agent start_url ops _ _ H0) as (_ & Hnd & Hadm).
    cbn [app] in Hnd, Hadm. fold ents in Hnd, Hadm.
    destruct (adm (fst (urldefrag u1))) eqn:Ha.
    + pose proof (entries_enqueued urlparse urldefrag allowed_re_match rp
                    user_agent start_url ops _ _ u1 H0 H1 Ha) as Hin.
      cbn [app] in Hin. fold ents in Hin.
      apply (count_occ_In string_dec) in Hin.
      pose proof (proj1 (NoDup_count_occ string_dec _) Hnd (fst (urldefrag u1))).
      lia.
    + apply count_occ_not_In. intros Hin. apply Hadm in Hin.
      unfold adm in Ha. congruence.
Qed.

Lemma enqueue_at_most_once_witness :
  count_occ string_dec
    (entries RefUrl.urlparse RefUrl.urldefrag default_allowed_path_match None
       "Mozilla/5.0" "https://www.focode.org/"
       [Enqueue "https://www.focode.org/focode/a#top"; Popleft;
        Enqueue "https://www.focode.org/focode/a#bottom"] empty_frontier)
    "https://www.focode.org/focode/a"
  = 1%nat.
Proof.
  exact (proj2 (proj2 (enqueue_at_most_once RefUrl.urlparse RefUrl.urldefrag
                         default_allowed_path_match None "Mozilla/5.0"
                         "https://www.focode.org/"))
           [Enqueue "https://www.focode.org/focode/a#top"; Popleft;
            Enqueue "https://www.focode.org/focode/a#bottom"]
           "https://www.focode.org/focode/a#top"
           "https://www.focode.org/focode/a#bottom"
           eq_refl (or_introl eq_refl) (or_intror (or_intror (or_introl eq_refl)))).
Defined.

Section Admission.

Variable urlparse : string -> ParseResult.
Variable allowed_re_match : string -> bool.
Variable rp : option (string -> string -> bool).
Variable user_agent : string.
Variable start_url : string.

(** The outcome of one admission check on a URL. *)
Definition check_result (u : string) (c : check) : bool :=
  match c with
  | CkScheme => is_http_url urlparse u
  | CkHost => same_site urlparse u start_url
  | CkPath => allowed_re_match (path (urlparse u))
  | CkRobots =>
      match rp with
      | Some can_fetch => can_fetch user_agent u
      | None => true
      end
  end.

(** The checks of the admission policy in their order; the robots check is
    part of it only when a robots policy was loaded. *)
Definition policy : list check :=
  [CkScheme; CkHost; CkPath] ++ match rp with Some _ => [CkRobots] | None => [] end.

(** The checks of [l] up to and including the first one that fails. *)
Fixpoint until_failure (f : check -> bool) (l : list check) : list check :=
  match l with
  | [] => []
  | c :: r => c :: (if f c then until_failure f r else [])
  end.

End Admission.

Lemma allowed_short_circuit
    (urlparse : string -> ParseResult) (allowed_re_match : string -> bool)
    (rp : option (string -> string -> bool)) (user_agent start_url u : string) :
  allowed urlparse allowed_re_match rp user_agent start_url u
  = (forallb (check_result urlparse allowed_re_match rp user_agent start_url u)
       (policy rp),
     until_failure (check_result urlparse allowed_re_match rp user_agent start_url u)
       (policy rp)).
Proof.
  unfold allowed, policy, bind, probe, ret. cbn [fst snd].
  cbn [app forallb until_failure check_result].
  destruct (is_http_url urlparse u); [|reflexivity].
  destruct (same_site urlparse u start_url); [|reflexivity].
  destruct (allowed_re_match (path (urlparse u))); [|reflexivity].
  destruct rp as [can_fetch|]; [|reflexivity].
  cbn [app forallb until_failure check_result fst snd].
  destruct (can_fetch user_agent u); reflexivity.
Qed.

(** C2. A URL whose host, compared case-insensitively, is not the start
    URL's host is never enqueued: [enqueue] leaves the queue and the
    seen-set as they were, whatever the path pattern and the robots policy
    answer (neither is consulted for it), and whatever [enqueue] does add
    to the queue or to the seen-set is on the start URL's host.  The host
    is the [netloc] that [same_site] compares, read from the defragmented
    URL, which is the one [enqueue] checks and stores.  For every URL,
    [allowed] evaluates the checks in the order scheme, same-host, path
    pattern, robots, stops at the first one that fails, and answers yes
    only when none fails. *)
Theorem other_host_never_enqueued
    (urlparse : string -> ParseResult) (urldefrag : string -> string * string)
    (allowed_re_match : string -> bool) (rp : option (string -> string -> bool))
    (user_agent start_url : string) (st : Frontier) (u : string) :
  let allowed := allowed urlparse allowed_re_match rp user_agent start_url in
  let result := check_result urlparse allowed_re_match rp user_agent start_url in
  let enqueue := enqueue urlparse urldefrag allowed_re_match rp user_agent start_url in
  let host v := PyText.lower (netloc (urlparse v)) in
  let d := fst (urldefrag u) in
  (host d <> host start_url ->
     enqueue st u = st
     /\ fst (allowed d) = false
     /\ ~ In CkPath (snd (allowed d)) /\ ~ In CkRobots (snd (allowed d)))
  /\ (forall x, In x (queue (enqueue st u)) ->
        In x (queue st) \/ host x = host start_url)
  /\ (forall x, x ∈ seen (enqueue st u) -> x ∈ seen st \/ host x = host start_url)
  /\ forall v,
       snd (allowed v) = until_failure (result v) (policy rp)
       /\ fst (allowed v) = forallb (result v) (policy rp)
       /\ exists n, policy rp = firstn n [CkScheme; CkHost; CkPath; CkRobots].
Proof.
  intros alw result enq host d.
  assert (Hadd : enq st u = st
                 \/ (enq st u = {| queue := queue st ++ [d]; seen := {[d]} ∪ seen st |}
                     /\ host d = host start_url)).
  { unfold enq, enqueue. fold d. fold alw.
    destruct (PyText.nonempty d && negb (bool_decide (d ∈ seen st))); [|now left].
    cbn [andb]. unfold alw. rewrite allowed_short_circuit. cbn [fst].
    destruct (forallb _ _) eqn:Hall; [|now left]. right. split; [reflexivity|].
    unfold policy in Hall. cbn [app forallb check_result] in Hall.
    apply andb_true_iff in Hall as [_ Hall]. apply andb_true_iff in Hall as [Hs _].
    unfold same_site in Hs. now apply String.eqb_eq in Hs. }
  split; [|split; [|split]].
  - intros Hhost.
    assert (Hsite : same_site urlparse d start_url = false).
    { unfold same_site. now apply String.eqb_neq. }
    assert (Hd : alw d = (false, if is_http_url urlparse d
                                 then [CkScheme; CkHost] else [CkScheme])).
    { unfold alw. rewrite allowed_short_circuit. unfold policy.
      cbn [app forallb until_failure check_result]. rewrite Hsite.
      now destruct (is_http_url urlparse d). }
    split; [|split; [|split]].
    + destruct Hadd as [H|[_ H]]; [exact H|contradiction].
    + now rewrite Hd.
    + rewrite Hd. cbn [snd]. destruct (is_http_url urlparse d); cbn; intuition congruence.
    + rewrite Hd. cbn [snd]. destruct (is_http_url urlparse d); cbn; intuition congruence.
  - intros x Hx. destruct Hadd as [H|[H Hh]]; rewrite H in Hx; [now left|].
    cbn [queue] in Hx. apply in_app_iff in Hx as [Hx|[<-|[]]]; [now left|now right].
  - intros x Hx. destruct Hadd as [H|[H Hh]]; rewrite H in Hx; [now left|].
    cbn [seen] in Hx. apply elem_of_union in Hx as [Hx|Hx]; [|now left].
    apply elem_of_singleton in Hx. subst x. now right.
  - intros v. unfold alw. rewrite allowed_short_circuit. cbn [fst snd].
    split; [reflexivity|]. split; [reflexivity|].
    unfold policy. destruct rp; [now exists 4%nat|now exists 3%nat].
Qed.

Lemma other_host_never_enqueued_witness :
  enqueue RefUrl.urlparse RefUrl.urldefrag (fun _ => true)
    (Some (fun _ _ => true)) "Mozilla/5.0" "https://www.focode.org/"
    empty_frontier "https://WWW.EXAMPLE.com/focode/a#top"
  = empty_frontier.
Proof.
  refine (proj1 (proj1 (other_host_never_enqueued RefUrl.urlparse RefUrl.urldefrag
                          (fun _ => true) (Some (fun _ _ => true)) "Mozilla/5.0"
                          "https://www.focode.org/" empty_frontier
                          "https://WWW.EXAMPLE.com/focode/a#top") _)).
  vm_compute. discriminate.
Defined.

(** [urldefrag] rebuilds a URL that has a fragment, and the URL it returns
    is the one that is checked and stored. *)
Example enqueue_checks_the_defragmented_url :
  let u := "http:////www.focode.org/focode#x" in
  let st := enqueue RefUrl.urlparse RefUrl.urldefrag default_allowed_path_match None
              "Mozilla/5.0" "http://www.focode.org/" empty_frontier u in
  fst (RefUrl.urldefrag u) = "http://www.focode.org/focode"
  /\ queue st = ["http://www.focode.org/focode"].
Proof. split; reflexivity. Qed.

Example same_host_other_case_enqueued :
  queue (enqueue RefUrl.urlparse RefUrl.urldefrag default_allowed_path_match None
           "Mozilla/5.0" "https://www.focode.org/"
           empty_frontier "https://WWW.Focode.ORG/focode/a#top")
  = ["https://WWW.Focode.ORG/focode/a"].
Proof. reflexivity. Qed.

(** ** The static fetch with retries: [fetch] *)

(** One attempt: [session.get], [raise_for_status] and the decoding either
    give the text and the final URL or raise an exception. *)
Inductive Response :=
| Ok (body final_url : string)
| Failed (err : string).

(** What [fetch] does to the outside world. *)
Inductive event :=
| EvGet (url : string)
| EvSleep (seconds : Q).

(** The outcome of [fetch]: the pair it returns; the [RuntimeError] raised
    after the loop, whose message carries [last_err]; or the
    [OverflowError] of [0.8 * (2 ** attempt)], raised in the handler when
    [2 ** attempt] is too large to convert to a float. *)
Inductive FetchResult :=
| Fetched (body final_url : string)
| FetchFailed (url : string) (last_err : option string)
| FetchOverflow.

(** *** The arithmetic of [float] *)

(** The finite values of a [float] (binary64): [m * 2^e] with [m] of at
    most 53 bits. *)
Definition binary64 (x : Q) : Prop :=
  exists m e : Z,
    (Z.abs m < 2 ^ 53)%Z /\ (-1074 <= e <= 971)%Z /\ (x == inject_Z m * 2 ^ e)%Q.

Definition max_binary64 : Q := inject_Z ((2 ^ 53 - 1) * 2 ^ 971).

(** An operation on floats returns the exact result [x] rounded: for [x]
    from 0 to the largest float, a value with no float's value nearer to
    [x]. *)
Definition rounds_to_nearest (fl : Q -> Q) : Prop :=
  forall x f, (0 <= x <= max_binary64)%Q -> binary64 f ->
              (Qabs (fl x - x) <= Qabs (f - x))%Q.

(** The floats that the literals [0.8] and [0.2] denote. *)
Definition b64_0_8 : Q := 3602879701896397 # 4503599627370496.
Definition b64_0_2 : Q := 3602879701896397 # 18014398509481984.

(** [2 ** attempt], an [int]; it converts to a float exactly when it is
    below [2 ** 1024]. *)
Definition pow2 (n : nat) : Q := inject_Z (2 ^ Z.of_nat n).

Section Fetch.

(** The rounding of float arithmetic, the answer of the network to the
    [k]-th attempt, and the [k]-th value of [random.random()]. *)
Variable fl : Q -> Q.
Variable session_get : nat -> Response.
Variable random : nat -> Q.
Variable url : string.
Variable retries : Z.

(** [0.8 * (2 ** attempt) + random.random() * 0.2]: two products and a sum
    of floats, each rounded. *)
Definition backoff_base (attempt : nat) : Q := fl (b64_0_8 * pow2 attempt).
Definition jitter (attempt : nat) : Q := fl (random attempt * b64_0_2).
Definition delay (attempt : nat) : Q := fl (backoff_base attempt + jitter attempt).

(** The [n] turns of [for attempt in range(retries + 1)] that are left,
    starting at [attempt]. *)
Fixpoint fetch_loop (n attempt : nat) (last_err : option string)
  : FetchResult * list event :=
  match n with
  | O => (FetchFailed url last_err, [])
  | S n' =>
      match session_get attempt with
      | Ok body final_url => (Fetched body final_url, [EvGet url])
      | Failed e =>
          if (Z.of_nat attempt <? retries)%Z && negb (attempt <? 1024)%nat
          then (FetchOverflow, [EvGet url])
          else
            let sleep :=
              if (Z.of_nat attempt <? retries)%Z then [EvSleep (delay attempt)] else [] in
            let r := fetch_loop n' (S attempt) (Some e) in
            (fst r, EvGet url :: sleep ++ snd r)
      end
  end.

Definition fetch : FetchResult * list event :=
  fetch_loop (Z.to_nat (retries + 1)) 0 None.

(** [m] attempts from [attempt] on, with one sleep between two attempts. *)
Fixpoint schedule (attempt m : nat) : list event :=
  match m with
  | O => []
  | S O => [EvGet url]
  | S m' => EvGet url :: EvSleep (delay attempt) :: schedule (S attempt) m'
  end.

Definition is_failed (r : Response) : Prop := exists e, r = Failed e.

Lemma fetch_loop_spec n attempt last_err :
  (retries <= 1024)%Z ->
  (1 <= n)%nat -> Z.of_nat (attempt + n) = (retries + 1)%Z ->
  exists m,
    (1 <= m <= n)%nat
    /\ snd (fetch_loop n attempt last_err) = schedule attempt m
    /\ (forall j, (attempt <= j < attempt + m - 1)%nat -> is_failed (session_get j))
    /\ match fst (fetch_loop n attempt last_err) with
       | Fetched body final_url =>
           session_get (attempt + m - 1)%nat = Ok body final_url
       | FetchFailed u e =>
           m = n /\ u = url
           /\ exists err, session_get (attempt + m - 1)%nat = Failed err /\ e = Some err
       | FetchOverflow => False
       end.
Proof.
  intros Hmax. revert attempt last_err.
  induction n as [|n IH]; intros attempt last_err Hn Hr; [lia|].
  cbn [fetch_loop]. destruct (session_get attempt) as [body fu|e] eqn:Hget.
  - exists 1%nat. cbn [fst snd schedule]. repeat split; try lia.
    now replace (attempt + 1 - 1)%nat with attempt by lia.
  - assert (Hov : (Z.of_nat attempt <? retries)%Z && negb (attempt <? 1024)%nat = false).
    { destruct (Z.ltb_spec (Z.of_nat attempt) retries) as [Hlt|Hge]; [|reflexivity].
      destruct (Nat.ltb_spec attempt 1024) as [H|H]; [reflexivity|lia]. }
    rewrite Hov. cbn [fst snd]. destruct n as [|n].
    + exists 1%nat. cbn [fetch_loop fst snd schedule].
      destruct (Z.ltb_spec (Z.of_nat attempt) retries) as [Hlt|Hge]; [lia|].
      cbn [app]. repeat split; try lia.
      exists e. replace (attempt + 1 - 1)%nat with attempt by lia. now split.
    + destruct (IH (S attempt) (Some e)) as (m & Hm & Htr & Hfail & Hres); [lia|lia|].
      exists (S m). rewrite Htr.
      destruct (Z.ltb_spec (Z.of_nat attempt) retries) as [Hlt|Hge]; [|lia].
      repeat split; try lia.
      * destruct m as [|m]; [lia|]. reflexivity.
      * intros j Hj. destruct (Nat.eq_dec j attempt) as [->|Hne].
        -- now exists e.
        -- apply Hfail. lia.
      * replace (attempt + S m - 1)%nat with (S attempt + m - 1)%nat by lia.
        destruct (fst (fetch_loop (S n) (S attempt) (Some e))); [exact Hres| |exact Hres].
        destruct Hres as (-> & -> & err & Herr & ->). repeat split. now exists err.
Qed.

(** Beyond 1024 retries the delay after attempt 1024 cannot be computed. *)
Lemma fetch_loop_overflow n attempt last_err :
  (1024 < retries)%Z -> (attempt <= 1024)%nat ->
  Z.of_nat (attempt + n) = (retries + 1)%Z ->
  (forall j, (j <= 1024)%nat -> is_failed (session_get j)) ->
  fst (fetch_loop n attempt last_err) = FetchOverflow.
Proof.
  intros Hr. revert attempt last_err.
  induction n as [|n IH]; intros attempt last_err Ha Hn Hfail; [lia|].
  cbn [fetch_loop]. destruct (Hfail attempt Ha) as [e ->].
  destruct (Z.ltb_spec (Z.of_nat attempt) retries) as [_|H]; [|lia].
  destruct (Nat.ltb_spec attempt 1024) as [Hlt|Hge]; cbn [andb negb fst]; [|reflexivity].
  apply IH; [lia|lia|exact Hfail].
Qed.

End Fetch.

(** *** What rounding to nearest gives *)

Lemma binary64_0 : binary64 0.
Proof. exists 0%Z, 0%Z. repeat split; try lia. Qed.

Lemma binary64_0_2 : binary64 b64_0_2.
Proof. exists 3602879701896397%Z, (-54)%Z. repeat split; try lia. Qed.

Lemma pow2_Qpower n : (pow2 n == 2 ^ Z.of_nat n)%Q.
Proof. unfold pow2. now rewrite Zpower_Qpower by lia. Qed.

Lemma pow2_succ n : (pow2 (S n) == 2 * pow2 n)%Q.
Proof.
  unfold pow2. rewrite Nat2Z.inj_succ, Z.pow_succ_r by lia.
  now rewrite inject_Z_mult.
Qed.

Lemma pow2_pos n : (1 <= pow2 n)%Q.
Proof.
  unfold pow2. change 1%Q with (inject_Z 1). rewrite <- Zle_Qle.
  assert (0 < 2 ^ Z.of_nat n)%Z by (apply Z.pow_pos_nonneg; lia). lia.
Qed.

Lemma pow2_le n m : (n <= m)%nat -> (pow2 n <= pow2 m)%Q.
Proof.
  intros H. unfold pow2. rewrite <- Zle_Qle. apply Z.pow_le_mono_r; lia.
Qed.

(** [m * 2^k * 2^e] is a float when [m] has at most 53 bits and the
    exponent is in range. *)
Lemma binary64_scaled (m e : Z) (k : nat) :
  (Z.abs m < 2 ^ 53)%Z -> (-1074 <= e + Z.of_nat k <= 971)%Z ->
  binary64 (inject_Z m * 2 ^ e * pow2 k).
Proof.
  intros Hm He. exists m, (e + Z.of_nat k)%Z. split; [exact Hm|]. split; [exact He|].
  rewrite pow2_Qpower, Qpower_plus by discriminate. ring.
Qed.

Lemma binary64_base k : (k < 1024)%nat -> binary64 (b64_0_8 * pow2 k).
Proof.
  intros H.
  destruct (binary64_scaled 3602879701896397 (-52) k) as (m & e & Hm & He & Heq); [lia|lia|].
  exists m, e. split; [exact Hm|]. split; [exact He|]. rewrite <- Heq.
  apply Qmult_comp; [reflexivity|reflexivity].
Qed.

(** [2^k * (1 + 2^-52)], the float next above [2^k]. *)
Definition above_pow2 (k : nat) : Q := (4503599627370497 # 4503599627370496) * pow2 k.

Lemma binary64_above_pow2 k : (k < 1024)%nat -> binary64 (above_pow2 k).
Proof.
  intros H.
  destruct (binary64_scaled 4503599627370497 (-52) k) as (m & e & Hm & He & Heq); [lia|lia|].
  exists m, e. split; [exact Hm|]. split; [exact He|]. rewrite <- Heq.
  apply Qmult_comp; [reflexivity|reflexivity].
Qed.

Lemma pow2_1023_max : (above_pow2 1023 <= max_binary64)%Q.
Proof. unfold above_pow2, pow2, max_binary64. apply Qle_bool_iff. vm_compute. reflexivity. Qed.

Lemma above_pow2_max k : (k < 1024)%nat -> (above_pow2 k <= max_binary64)%Q.
Proof.
  intros H. eapply Qle_trans; [|apply pow2_1023_max].
  unfold above_pow2. pose proof (pow2_le k 1023 ltac:(lia)). lra.
Qed.

Section Rounding.

Variable fl : Q -> Q.
Hypothesis fl_nearest : rounds_to_nearest fl.

Lemma fl_le x f :
  (0 <= x <= max_binary64)%Q -> binary64 f -> (x <= f)%Q -> (fl x <= f)%Q.
Proof.
  intros Hx Hf Hxf. pose proof (fl_nearest x f Hx Hf) as H.
  rewrite (Qabs_pos (f - x)) in H by lra. apply Qabs_Qle_condition in H. lra.
Qed.

Lemma fl_ge x f :
  (0 <= x <= max_binary64)%Q -> binary64 f -> (f <= x)%Q -> (f <= fl x)%Q.
Proof.
  intros Hx Hf Hxf. pose proof (fl_nearest x f Hx Hf) as H.
  rewrite (Qabs_neg (f - x)) in H by lra. apply Qabs_Qle_condition in H. lra.
Qed.

Lemma fl_exact x : (0 <= x <= max_binary64)%Q -> binary64 x -> (fl x == x)%Q.
Proof.
  intros Hx Hf. apply Qle_antisym; [apply fl_le|apply fl_ge]; auto; apply Qle_refl.
Qed.

Variable random : nat -> Q.
Hypothesis random_unit : forall k, (0 <= random k /\ random k < 1)%Q.

Lemma backoff_base_exact k :
  (k < 1024)%nat -> (backoff_base fl k == b64_0_8 * pow2 k)%Q.
Proof.
  intros H. unfold backoff_base. apply fl_exact; [|now apply binary64_base].
  pose proof (pow2_pos k). pose proof (above_pow2_max k H). unfold above_pow2 in *.
  unfold b64_0_8. split; lra.
Qed.

Lemma jitter_bounded k : (0 <= jitter fl random k <= b64_0_2)%Q.
Proof.
  destruct (random_unit k) as [H0 H1]. unfold jitter.
  assert (Hx : (0 <= random k * b64_0_2 <= max_binary64)%Q).
  { pose proof (above_pow2_max 0 ltac:(lia)) as Hm. unfold above_pow2 in Hm.
    pose proof (pow2_pos 0). unfold b64_0_2. split; [nra|]. nra. }
  split.
  - apply fl_ge; [exact Hx|apply binary64_0|apply Hx].
  - apply fl_le; [exact Hx|apply binary64_0_2|]. unfold b64_0_2. nra.
Qed.

Lemma delay_bounded k :
  (k < 1024)%nat ->
  (b64_0_8 * pow2 k <= delay fl random k <= above_pow2 k)%Q.
Proof.
  intros H. pose proof (backoff_base_exact k H) as Hb.
  pose proof (jitter_bounded k) as [Hj0 Hj1].
  pose proof (pow2_pos k) as Hp. pose proof (above_pow2_max k H) as Hm.
  assert (Hx : (0 <= backoff_base fl k + jitter fl random k <= max_binary64)%Q
               /\ (backoff_base fl k + jitter fl random k <= above_pow2 k)%Q).
  { unfold above_pow2, b64_0_8, b64_0_2 in *. repeat split; lra. }
  destruct Hx as [Hx Hu]. unfold delay. split.
  - apply fl_ge; [exact Hx|now apply binary64_base|]. lra.
  - apply fl_le; [exact Hx|now apply binary64_above_pow2|exact Hu].
Qed.

End Rounding.

(** *** Rounding to nearest, ties to even *)


(** The integer nearest to [x], the even one of two that are as near. *)
Definition nearest_even (x : Q) : Z :=
  let f := Qfloor x in
  match (x - inject_Z f ?= 1 # 2)%Q with
  | Lt => f
  | Gt => (f + 1)%Z
  | Eq => if Z.even f then f else (f + 1)%Z
  end.

Lemma nearest_even_spec x j :
  (Qabs (inject_Z (nearest_even x) - x) <= Qabs (inject_Z j - x))%Q.
Proof.
  pose proof (Qfloor_le x) as H0. pose proof (Qlt_floor x) as H1.
  rewrite inject_Z_plus in H1. change (inject_Z 1) with 1%Q in H1.
  assert (Hj : (inject_Z j <= inject_Z (Qfloor x) \/ inject_Z (Qfloor x) + 1 <= inject_Z j)%Q).
  { destruct (Z_le_gt_dec j (Qfloor x)) as [H|H].
    - left. now rewrite <- Zle_Qle.
    - right. change 1%Q with (inject_Z 1). rewrite <- inject_Z_plus, <- Zle_Qle. lia. }
  assert (Hn : (inject_Z (nearest_even x) == inject_Z (Qfloor x)
                /\ x - inject_Z (Qfloor x) <= 1 # 2)%Q
               \/ (inject_Z (nearest_even x) == inject_Z (Qfloor x) + 1
                   /\ 1 # 2 <= x - inject_Z (Qfloor x))%Q).
  { unfold nearest_even.
    destruct (x - inject_Z (Qfloor x) ?= 1 # 2)%Q eqn:E.
    - apply Qeq_alt in E. destruct (Z.even (Qfloor x)).
      + left. split; [reflexivity|lra].
      + right. rewrite inject_Z_plus. change (inject_Z 1) with 1%Q. split; [reflexivity|lra].
    - apply Qlt_alt in E. left. split; [reflexivity|lra].
    - apply Qgt_alt in E. right. rewrite inject_Z_plus. change (inject_Z 1) with 1%Q.
      split; [reflexivity|lra]. }
  apply Qabs_Qle_condition.
  destruct Hn as [[-> Hr]|[-> Hr]]; destruct Hj as [Hj|Hj].
  - rewrite (Qabs_neg (inject_Z j - x)) by lra. split; lra.
  - rewrite (Qabs_pos (inject_Z j - x)) by lra. split; lra.
  - rewrite (Qabs_neg (inject_Z j - x)) by lra. split; lra.
  - rewrite (Qabs_pos (inject_Z j - x)) by lra. split; lra.
Qed.

Lemma two_pow_pos (e : Z) : (0 < 2 ^ e)%Q.
Proof. now apply Qpower_0_lt. Qed.

Lemma two_pow_plus (a b : Z) : (2 ^ (a + b) == 2 ^ a * 2 ^ b)%Q.
Proof. now apply Qpower_plus. Qed.

Lemma two_pow_succ (a : Z) : (2 ^ (a + 1) == 2 * 2 ^ a)%Q.
Proof. rewrite two_pow_plus. change (2 ^ 1)%Q with 2%Q. ring. Qed.

Lemma two_pow_le (a b : Z) : (a <= b)%Z -> (2 ^ a <= 2 ^ b)%Q.
Proof. intros H. apply Qpower_le_compat_l; [exact H|discriminate]. Qed.

Lemma two_pow_log2 (n : Z) :
  (0 < n)%Z -> (2 ^ Z.log2 n <= inject_Z n /\ inject_Z n < 2 * 2 ^ Z.log2 n)%Q.
Proof.
  intros H. destruct (Z.log2_spec n H) as [H0 H1].
  pose proof (Z.log2_nonneg n) as Hl.
  assert (E0 : (2 ^ Z.log2 n == inject_Z (2 ^ Z.log2 n))%Q).
  { rewrite Zpower_Qpower by lia. reflexivity. }
  assert (E1 : (2 * 2 ^ Z.log2 n == inject_Z (2 ^ Z.succ (Z.log2 n)))%Q).
  { rewrite Z.pow_succ_r, inject_Z_mult, Zpower_Qpower by lia. reflexivity. }
  rewrite E1, E0. split; [now rewrite <- Zle_Qle|]. rewrite <- Zlt_Qlt. exact H1.
Qed.

(** The exponent [e] with [2^e <= x < 2^(e+1)], for [x > 0]. *)
Definition floor_log2 (x : Q) : Z :=
  let k := (Z.log2 (Qnum x) - Z.log2 (Zpos (Qden x)))%Z in
  if Qle_bool (2 ^ k) x then k else (k - 1)%Z.

Lemma floor_log2_spec x :
  (0 < x)%Q -> (2 ^ floor_log2 x <= x /\ x < 2 * 2 ^ floor_log2 x)%Q.
Proof.
  intros Hx. destruct x as [n d]. unfold floor_log2. cbn [Qnum Qden].
  assert (Hn : (0 < n)%Z).
  { unfold Qlt in Hx. cbn in Hx. lia. }
  destruct (two_pow_log2 n Hn) as [Hn0 Hn1].
  destruct (two_pow_log2 (Zpos d) ltac:(lia)) as [Hd0 Hd1].
  set (ln := Z.log2 n) in *. set (ld := Z.log2 (Zpos d)) in *.
  pose proof (two_pow_pos ln) as Pn. pose proof (two_pow_pos ld) as Pd.
  assert (Hk : (2 ^ (ln - ld) * 2 ^ ld == 2 ^ ln)%Q).
  { rewrite <- two_pow_plus. now replace (ln - ld + ld)%Z with ln by lia. }
  assert (Hk1 : (2 ^ (ln - ld - 1) * 2 == 2 ^ (ln - ld))%Q).
  { replace (ln - ld)%Z with (ln - ld - 1 + 1)%Z at 2 by lia. rewrite two_pow_succ. ring. }
  pose proof (two_pow_pos (ln - ld)) as Pk. pose proof (two_pow_pos (ln - ld - 1)) as Pk1.
  assert (Hxd : ((n # d) * inject_Z (Zpos d) == inject_Z n)%Q).
  { rewrite (Qmake_Qdiv n d). field. intros E. unfold Qeq in E. cbn in E. lia. }
  set (x := (n # d)) in *. set (D := inject_Z (Zpos d)) in *. set (N := inject_Z n) in *.
  set (A := (2 ^ ln)%Q) in *. set (B := (2 ^ ld)%Q) in *.
  set (K := (2 ^ (ln - ld))%Q) in *. set (K1 := (2 ^ (ln - ld - 1))%Q) in *.
  destruct (Qle_bool K x) eqn:E.
  - apply Qle_bool_iff in E. fold K. split; [exact E|].
    (* x * D = N < 2A = 2 K B <= 2 K D *)
    apply Qnot_le_lt. intros Hc. 
    assert ((2 * K) * D <= x * D)%Q by (apply Qmult_le_compat_r; lra).
    assert (2 * K * B <= 2 * K * D)%Q by (apply Qmult_le_l; lra).
    lra.
  - assert (Hlt : (x < K)%Q).
    { apply Qnot_le_lt. intros Hc. apply Qle_bool_iff in Hc. congruence. }
    fold K1. split; [|lra].
    (* K1 * 2B = A <= N = x D < x * 2B *)
    apply Qnot_lt_le. intros Hc.
    assert (x * D <= x * (2 * B))%Q by (apply Qmult_le_l; lra).
    assert (x * (2 * B) < K1 * (2 * B))%Q by (apply Qmult_lt_compat_r; lra).
    assert (K1 * (2 * B) == A)%Q by (rewrite <- Hk, <- Hk1; ring).
    lra.
Qed.

(** A positive [x] rounded to 53 significant bits (to a multiple of
    [2^-1074] below the normal range), ties to even. *)
Definition round_pos (x : Q) : Q :=
  let ex := Z.max (floor_log2 x - 52) (-1074) in
  inject_Z (nearest_even (x / 2 ^ ex)) * 2 ^ ex.

(** Rounding to nearest, ties to even, without the overflow to infinity. *)
Definition round_b64 (x : Q) : Q :=
  match (0 ?= x)%Q with
  | Lt => round_pos x
  | Eq => 0
  | Gt => - round_pos (- x)
  end.

Lemma round_pos_multiple x (ex j : Z) :
  (Qabs (inject_Z (nearest_even (x / 2 ^ ex)) * 2 ^ ex - x)
   <= Qabs (inject_Z j * 2 ^ ex - x))%Q.
Proof.
  pose proof (two_pow_pos ex) as Hu. set (u := (2 ^ ex)%Q) in *.
  assert (Hx : (x == x / u * u)%Q) by (field; lra).
  assert (E : forall a : Q, (Qabs (a * u - x) == Qabs (a - x / u) * u)%Q).
  { intros a. rewrite (Qabs_wd (a * u - x) ((a - x / u) * u)) by (rewrite Hx at 1; ring).
    rewrite Qabs_Qmult, (Qabs_pos u) by lra. reflexivity. }
  rewrite !E. apply Qmult_le_compat_r; [apply nearest_even_spec|lra].
Qed.

Lemma round_pos_nearest x f :
  (0 < x)%Q -> binary64 f -> (Qabs (round_pos x - x) <= Qabs (f - x))%Q.
Proof.
  intros Hx (m & g & Hm & Hg & Hf). unfold round_pos.
  destruct (floor_log2_spec x Hx) as [He0 He1].
  set (e := floor_log2 x) in *. set (ex := Z.max (e - 52) (-1074)).
  destruct (Z_le_gt_dec ex g) as [Hge|Hlt].
  - (* [f] is a multiple of [2^ex] *)
    assert (E : (f == inject_Z (m * 2 ^ (g - ex)) * 2 ^ ex)%Q).
    { rewrite Hf, inject_Z_mult, Zpower_Qpower by lia.
      change (inject_Z 2) with 2%Q. rewrite <- Qmult_assoc, <- two_pow_plus.
      now replace (g - ex + ex)%Z with g by lia. }
    rewrite (Qabs_wd (f - x) (inject_Z (m * 2 ^ (g - ex)) * 2 ^ ex - x)) by (now rewrite E).
    apply round_pos_multiple.
  - (* [f] is below [2^e] *)
    assert (Hex : ex = (e - 52)%Z) by (unfold ex in *; lia).
    assert (Hf2 : (f <= 2 ^ e)%Q).
    { rewrite Hf. pose proof (two_pow_pos g) as Pg.
      pose proof (two_pow_le g (ex - 1) ltac:(lia)) as Hg1.
      assert (E : (2 ^ e == 9007199254740992 * 2 ^ (ex - 1))%Q).
      { replace e with (53 + (ex - 1))%Z by lia. rewrite two_pow_plus. reflexivity. }
      assert (HM : (inject_Z m <= 9007199254740992)%Q).
      { change 9007199254740992%Q with (inject_Z (2 ^ 53)). rewrite <- Zle_Qle. lia. }
      rewrite E. set (M := inject_Z m) in *. set (G := (2 ^ g)%Q) in *.
      set (H := (2 ^ (ex - 1))%Q) in *.
      destruct (Qlt_le_dec M 0) as [Hneg|Hpos]; [nra|].
      apply Qle_trans with (9007199254740992 * G)%Q; [|nra].
      apply Qmult_le_compat_r; lra. }
    eapply Qle_trans; [apply (round_pos_multiple x ex (2 ^ 52))|].
    assert (E : (inject_Z (2 ^ 52) * 2 ^ ex == 2 ^ e)%Q).
    { replace e with (52 + ex)%Z by lia. rewrite two_pow_plus. reflexivity. }
    rewrite (Qabs_wd _ (2 ^ e - x)) by (now rewrite E).
    rewrite (Qabs_neg (2 ^ e - x)), (Qabs_neg (f - x)) by lra. lra.
Qed.

Lemma round_b64_nearest : rounds_to_nearest round_b64.
Proof.
  intros x f [Hx _] Hf. unfold round_b64.
  destruct (0 ?= x)%Q eqn:E.
  - apply Qeq_alt in E. rewrite (Qabs_wd (0 - x) 0) by (rewrite <- E; ring).
    apply Qabs_nonneg.
  - apply Qlt_alt in E. now apply round_pos_nearest.
  - apply Qgt_alt in E. lra.
Qed.

Example round_b64_examples :
  (round_b64 (1 # 10) == 3602879701896397 # 36028797018963968
   /\ round_b64 (8 # 10) == b64_0_8 /\ round_b64 (2 # 10) == b64_0_2
   /\ round_b64 (b64_0_8 + b64_0_2) == 1
   /\ round_b64 ((9007199254740991 # 9007199254740992) * b64_0_2)
      == 7205759403792793 # 36028797018963968)%Q.
Proof. repeat split; vm_compute; reflexivity. Qed.

(** With more than 1024 retries and a network that keeps failing, [fetch]
    ends at attempt 1024 with the [OverflowError] of the delay. *)
Lemma fetch_overflow fl session_get random url retries :
  (1024 < retries)%Z ->
  (forall j, (j <= 1024)%nat -> is_failed (session_get j)) ->
  fst (fetch fl session_get random url retries) = FetchOverflow.
Proof.
  intros Hr Hfail. unfold fetch. apply fetch_loop_overflow; [exact Hr|lia|lia|exact Hfail].
Qed.

(** With a negative retry bound the loop body never runs. *)
Lemma fetch_negative_retries fl session_get random url retries :
  (retries < 0)%Z ->
  fetch fl session_get random url retries = (FetchFailed url None, []).
Proof.
  intros H. unfold fetch.
  replace (Z.to_nat (retries + 1)) with 0%nat by lia. reflexivity.
Qed.



(** A network that answers at the third attempt. *)
Definition third_time_lucky (k : nat) : Response :=
  if (k <? 2)%nat then Failed "503 Server Error"
  else Ok "<html></html>" "https://www.focode.org/focode/".

Example fetch_third_time_lucky :
  fetch round_b64 third_time_lucky (fun _ => 1 # 2) "https://www.focode.org/focode" 3
  = (Fetched "<html></html>" "https://www.focode.org/focode/",
     [EvGet "https://www.focode.org/focode";
      EvSleep (delay round_b64 (fun _ => 1 # 2) 0);
      EvGet "https://www.focode.org/focode";
      EvSleep (delay round_b64 (fun _ => 1 # 2) 1);
      EvGet "https://www.focode.org/focode"]).
Proof. reflexivity. Qed.

(** With [random()] at its largest value, [1 - 2^-53], the first sleep is
    exactly one second and the second one is the float [1.8]. *)
Example delay_largest_random :
  let random := fun _ : nat => 9007199254740991 # 9007199254740992 in
  (jitter round_b64 random 0 == 7205759403792793 # 36028797018963968
   /\ delay round_b64 random 0 == 1
   /\ delay round_b64 random 1 == 8106479329266893 # 4503599627370496)%Q.
Proof. repeat split; vm_compute; reflexivity. Qed.


(** ** Sitemap seeding: [parse_sitemap_urls] and the seeding loop *)

(** An [xml.etree.ElementTree.Element]: its tag (["{namespace}local"]), its
    text and its children. *)
#[warnings="-register-all"]
Inductive xml :=
| XElem (tag : string) (text : option string) (children : list xml).

Module ET.

Definition tag_of (e : xml) : string := match e with XElem t _ _ => t end.
Definition text_of (e : xml) : option string := match e with XElem _ t _ => t end.
Definition children_of (e : xml) : list xml := match e with XElem _ _ cs => cs end.

Fixpoint descendants (e : xml) : list xml :=
  match e with
  | XElem _ _ cs => flat_map (fun c => c :: descendants c) cs
  end.

Definition sm_ns : string := "http://www.sitemaps.org/schemas/sitemap/0.9".
Definition sm (local : string) : string := "{" ++ sm_ns ++ "}" ++ local.

(** [root.findall(".//sm:<entry>/sm:loc", ns)]. *)
Definition findall_locs (entry : string) (root : xml) : list xml :=
  flat_map (fun e => List.filter (fun c => String.eqb (tag_of c) (sm "loc")) (children_of e))
           (List.filter (fun e => String.eqb (tag_of e) (sm entry)) (descendants root)).

(** [[loc.text.strip() for loc in ... if loc.text]]. *)
Definition loc_texts (entry : string) (root : xml) : list string :=
  flat_map (fun loc =>
              match text_of loc with
              | Some t => if PyText.nonempty t then [PyStr.strip t] else []
              | None => []
              end)
           (findall_locs entry root).

End ET.

Record SeedState := { frontier : Frontier; fetched : list string }.

(** *** When [enqueue] raises *)

(** [enqueue(u)] parses [u]: [urldefrag] when [u] has a [#], and
    [is_http_url] and [same_site] (which also parses the start URL) on the
    defragmented URL when that is not empty.  [urlsplit] raises
    [ValueError] on the URLs it rejects; the exception leaves [enqueue]
    before [seen.add], so the frontier is unchanged.  A URL of the seen-set
    passed [allowed] before, so whether [enqueue(u)] raises does not depend
    on the frontier.  ([rp.can_fetch] is taken not to raise.) *)
Definition enqueue_raises
    (rejects : string -> bool) (urlparse : string -> ParseResult)
    (urldefrag : string -> string * string) (start_url u : string) : bool :=
  (existsb (RefUrl.is_char "#") (PyStr.chars u) && rejects u)
  || (let u := fst (urldefrag u) in
      PyText.nonempty u
      && (rejects u || (is_http_url urlparse u && rejects start_url))).

(** What [urlsplit] rejects among ASCII URLs ("Invalid IPv6 URL"): a
    network location with one square bracket and not the other. *)
Definition urlsplit_rejects (u : string) : bool :=
  let (_, r1) := RefUrl.split_scheme (PyStr.chars u) in
  let (loc, _) := RefUrl.split_netloc r1 in
  xorb (existsb (RefUrl.is_char "[") loc) (existsb (RefUrl.is_char "]") loc).

Section Seeding.

(** [ET.fromstring] ([None]: it raises), the outcome of the static [fetch]
    of a URL ([None]: it raises), the frontier's [enqueue] and the URLs on
    which the call of [enqueue] raises. *)
Variable fromstring : string -> option xml.
Variable fetch_body : string -> option string.
Variable enqueue : Frontier -> string -> Frontier.
Variable enqueue_raises : string -> bool.

Definition parse_sitemap_urls (sitemap_xml : string) : list string :=
  match fromstring sitemap_xml with
  | None => []
  | Some root =>
      if PyText.endswith (ET.tag_of root) "sitemapindex"
      then ET.loc_texts "sitemap" root
      else if PyText.endswith (ET.tag_of root) "urlset"
           then ET.loc_texts "url" root
           else []
  end.

Definition enqueue_all (urls : list string) (st : SeedState) : SeedState :=
  {| frontier := fold_left enqueue urls (frontier st); fetched := fetched st |}.

Definition log_fetch (u : string) (st : SeedState) : SeedState :=
  {| frontier := frontier st; fetched := fetched st ++ [u] |}.

(** [for nu in urls: enqueue(nu)], up to the first call that raises; the
    flag tells whether the loop ran to its end. *)
Fixpoint enqueue_each (urls : list string) (fr : Frontier) : Frontier * bool :=
  match urls with
  | [] => (fr, true)
  | u :: rest =>
      if enqueue_raises u then (fr, false) else enqueue_each rest (enqueue fr u)
  end.

(** The loop [for u in urls] of the seeding; the flag tells whether it ran
    to its end ([false]: a nested fetch or a call of [enqueue] raised, and
    the [except: continue] goes on with the next candidate sitemap). *)
Fixpoint seed_entries (urls : list string) (st : SeedState) : SeedState * bool :=
  match urls with
  | [] => (st, true)
  | u :: rest =>
      if PyText.endswith u ".xml" then        (* Nested sitemap *)
        match fetch_body u with
        | None => (log_fetch u st, false)
        | Some nxml =>
            let r := enqueue_each (parse_sitemap_urls nxml) (frontier st) in
            let st' := {| frontier := fst r; fetched := fetched st ++ [u] |} in
            if snd r then seed_entries rest st' else (st', false)
        end
      else if enqueue_raises u then (st, false)
           else seed_entries rest (enqueue_all [u] st)
  end.

(** One turn of [for sm in discover_sitemaps(...)], with its
    [except: continue]. *)
Definition seed_sitemap (st : SeedState) (sm : string) : SeedState :=
  match fetch_body sm with
  | None => log_fetch sm st
  | Some xml => fst (seed_entries (parse_sitemap_urls xml) (log_fetch sm st))
  end.

Definition seed_sitemaps (sitemaps : list string) : SeedState :=
  fold_left seed_sitemap sitemaps {| frontier := empty_frontier; fetched := [] |}.

(** [if not queue: enqueue(start_url)] raises: the exception leaves
    [crawl_and_export] before its loop. *)
Definition seed_raises (sitemaps : list string) (start_url : string) : bool :=
  match queue (frontier (seed_sitemaps sitemaps)) with
  | [] => enqueue_raises start_url
  | _ => false
  end.

(** Seeding: every candidate sitemap, then the start URL when the queue is
    still empty.  This is the state the loop starts from, when
    [seed_raises] is [false]. *)
Definition seed (sitemaps : list string) (start_url : string) : SeedState :=
  let st := seed_sitemaps sitemaps in
  match queue (frontier st) with
  | [] => enqueue_all [start_url] st
  | _ => st
  end.

(** How the loop treats one entry on which nothing raises: by the suffix of
    its URL. *)
Definition seed_entry (st : SeedState) (u : string) : SeedState :=
  if PyText.endswith u ".xml"
  then match fetch_body u with
       | Some nxml => enqueue_all (parse_sitemap_urls nxml) (log_fetch u st)
       | None => log_fetch u st
       end
  else enqueue_all [u] st.

Definition enqueue_ok (u : string) : bool := negb (enqueue_raises u).

(** Nothing raises on the entry [u]. *)
Definition entry_ok (u : string) : bool :=
  if PyText.endswith u ".xml"
  then match fetch_body u with
       | Some nxml => forallb enqueue_ok (parse_sitemap_urls nxml)
       | None => false
       end
  else enqueue_ok u.

(** What the entry on which something raises leaves behind. *)
Definition seed_entry_raising (st : SeedState) (u : string) : SeedState :=
  if PyText.endswith u ".xml"
  then match fetch_body u with
       | Some nxml =>
           {| frontier := fst (enqueue_each (parse_sitemap_urls nxml) (frontier st));
              fetched := fetched st ++ [u] |}
       | None => log_fetch u st
       end
  else st.

Lemma enqueue_each_ok urls fr :
  forallb enqueue_ok urls = true -> enqueue_each urls fr = (fold_left enqueue urls fr, true).
Proof.
  revert fr. induction urls as [|u rest IH]; intros fr H; [reflexivity|].
  cbn [forallb] in H. apply andb_true_iff in H as [Hu Hrest].
  cbn [enqueue_each fold_left]. unfold enqueue_ok in Hu.
  destruct (enqueue_raises u); [discriminate|]. now apply IH.
Qed.

Lemma enqueue_each_raises pre u post fr :
  forallb enqueue_ok pre = true -> enqueue_raises u = true ->
  enqueue_each (pre ++ u :: post) fr = (fold_left enqueue pre fr, false).
Proof.
  revert fr. induction pre as [|v pre IH]; intros fr H Hu.
  - cbn [app enqueue_each fold_left]. now rewrite Hu.
  - cbn [forallb] in H. apply andb_true_iff in H as [Hv Hpre].
    cbn [app enqueue_each fold_left]. unfold enqueue_ok in Hv.
    destruct (enqueue_raises v); [discriminate|]. now apply IH.
Qed.

Lemma enqueue_each_flag urls fr :
  snd (enqueue_each urls fr) = forallb enqueue_ok urls.
Proof.
  revert fr. induction urls as [|u rest IH]; intros fr; [reflexivity|].
  cbn [enqueue_each forallb]. unfold enqueue_ok at 1.
  destruct (enqueue_raises u); [reflexivity|]. apply IH.
Qed.

Lemma seed_entry_step u st rest :
  entry_ok u = true ->
  seed_entries (u :: rest) st = seed_entries rest (seed_entry st u).
Proof.
  unfold entry_ok, seed_entry. cbn [seed_entries]. intros H.
  destruct (PyText.endswith u ".xml").
  - destruct (fetch_body u) as [nxml|]; [|discriminate].
    rewrite (enqueue_each_ok _ _ H). reflexivity.
  - unfold enqueue_ok in H. now destruct (enqueue_raises u).
Qed.

Lemma seed_entry_stop u st rest :
  entry_ok u = false ->
  seed_entries (u :: rest) st = (seed_entry_raising st u, false).
Proof.
  unfold entry_ok, seed_entry_raising. cbn [seed_entries]. intros H.
  destruct (PyText.endswith u ".xml").
  - destruct (fetch_body u) as [nxml|]; [|reflexivity].
    rewrite enqueue_each_flag, H. reflexivity.
  - unfold enqueue_ok in H. now destruct (enqueue_raises u).
Qed.

Lemma seed_entries_ok urls st :
  forallb entry_ok urls = true ->
  seed_entries urls st = (fold_left seed_entry urls st, true).
Proof.
  revert st. induction urls as [|u rest IH]; intros st H; [reflexivity|].
  cbn [forallb] in H. apply andb_true_iff in H as [Hu Hrest].
  rewrite (seed_entry_step u st rest Hu). cbn [fold_left]. now apply IH.
Qed.

Lemma seed_entries_abort pre u post st :
  forallb entry_ok pre = true -> entry_ok u = false ->
  seed_entries (pre ++ u :: post) st
  = (seed_entry_raising (fold_left seed_entry pre st) u, false).
Proof.
  revert st. induction pre as [|v pre IH]; intros st H Hu.
  - cbn [app fold_left]. now apply seed_entry_stop.
  - cbn [forallb] in H. apply andb_true_iff in H as [Hv Hpre].
    cbn [app]. rewrite (seed_entry_step v st _ Hv). cbn [fold_left]. now apply IH.
Qed.

Lemma fetched_enqueue_all urls st : fetched (enqueue_all urls st) = fetched st.
Proof. reflexivity. Qed.

Lemma fetched_seed_entries_ok urls st :
  fetched (fold_left seed_entry urls st)
  = fetched st ++ List.filter (fun u => PyText.endswith u ".xml") urls.
Proof.
  revert st. induction urls as [|u rest IH]; intros st.
  - cbn. now rewrite app_nil_r.
  - cbn [fold_left List.filter]. rewrite IH. unfold seed_entry.
    destruct (PyText.endswith u ".xml"); [|reflexivity].
    destruct (fetch_body u); cbn [fetched enqueue_all log_fetch];
      now rewrite <- app_assoc.
Qed.

End Seeding.

(** *** A small site, for evaluating the seeding *)

Module Site.

Definition loc (u : string) : xml := XElem (ET.sm "loc") (Some u) [].
Definition sitemapindex (locs : list string) : xml :=
  XElem (ET.sm "sitemapindex") None
        (map (fun u => XElem (ET.sm "sitemap") None [loc u]) locs).
Definition urlset (locs : list string) : xml :=
  XElem (ET.sm "urlset") None (map (fun u => XElem (ET.sm "url") None [loc u]) locs).

Definition start_url : string := "https://www.focode.org/".
Definition index_url : string := "https://www.focode.org/sitemap_index.xml".
Definition set_url : string := "https://www.focode.org/sitemap.xml".
Definition posts_url : string := "https://www.focode.org/focode/sitemap-posts".
Definition feed_url : string := "https://www.focode.org/focode/feed.xml".
Definition pages_url : string := "https://www.focode.org/sitemap-pages.xml".
Definition news_url : string := "https://www.focode.org/sitemap-news.xml".
Definition page_a : string := "https://www.focode.org/focodemag/a".
Definition page_b : string := "https://www.focode.org/focodemag/b".
Definition page_c : string := "https://www.focode.org/focodemag/c".
Definition bad_url : string := "http://[::1/focode".

(** The documents of the site, by body, and the bodies, by URL. *)
Definition fromstring (body : string) : option xml :=
  if String.eqb body "index" then Some (sitemapindex [posts_url; pages_url])
  else if String.eqb body "set" then Some (urlset [feed_url; page_a])
  else if String.eqb body "pages" then Some (urlset [page_a; page_b])
  else if String.eqb body "news" then Some (urlset [page_c; bad_url; page_b])
  else None.

Definition fetch_body (u : string) : option string :=
  if String.eqb u index_url then Some "index"
  else if String.eqb u set_url then Some "set"
  else if String.eqb u pages_url then Some "pages"
  else if String.eqb u news_url then Some "news"
  else if String.eqb u feed_url then Some "<rss/>"
  else None.

Definition enqueue : Frontier -> string -> Frontier :=
  enqueue RefUrl.urlparse RefUrl.urldefrag default_allowed_path_match None
          "Mozilla/5.0" start_url.

Definition enqueue_raises : string -> bool :=
  enqueue_raises urlsplit_rejects RefUrl.urlparse RefUrl.urldefrag start_url.

Definition init : SeedState := {| frontier := empty_frontier; fetched := [] |}.

End Site.

(** C5, as stated, fails in both directions: the seeding loop does not look
    at the shape of the document.  An entry of a sitemap-index whose URL
    does not end in [.xml] is entered in the queue as a page and never
    fetched; an entry of a url-set whose URL ends in [.xml] is fetched as a
    sitemap and not entered in the queue, although it is admissible. *)
Lemma seeding_ignores_document_shape :
  (* the index lists [posts_url] and [pages_url] *)
  parse_sitemap_urls Site.fromstring "index" = [Site.posts_url; Site.pages_url]
  /\ (let st := seed_sitemap Site.fromstring Site.fetch_body Site.enqueue
                  Site.enqueue_raises Site.init Site.index_url in
      fetched st = [Site.index_url; Site.pages_url]
      /\ queue (frontier st) = [Site.posts_url; Site.page_a; Site.page_b])
  (* the url-set lists [feed_url] and [page_a] *)
  /\ parse_sitemap_urls Site.fromstring "set" = [Site.feed_url; Site.page_a]
  /\ (let st := seed_sitemap Site.fromstring Site.fetch_body Site.enqueue
                  Site.enqueue_raises Site.init Site.set_url in
      fetched st = [Site.set_url; Site.feed_url]
      /\ queue (frontier st) = [Site.page_a])
  /\ queue (Site.enqueue empty_frontier Site.feed_url) = [Site.feed_url]
  /\ Site.enqueue_raises Site.feed_url = false.
Proof. repeat split; reflexivity. Qed.

(** C5 (amended). [parse_sitemap_urls] recognizes the shape by the end of
    the root tag and returns the entries of a sitemap-index or of a url-set.
    The seeding loop treats an entry by the suffix of its URL, whatever the
    shape of the document that lists it: an entry that ends in [.xml] is
    fetched and parsed once and the URLs it lists are enqueued directly (one
    level only); any other entry is enqueued directly.  This holds for
    every entry as long as nothing raises.  The first entry on which
    something raises (its nested fetch, or [enqueue] on the entry or on a
    URL it lists) ends the processing of that document: what was enqueued
    before stays, the rest of the document is dropped. *)
Theorem seeding_by_suffix
    (fromstring : string -> option xml) (fetch_body : string -> option string)
    (enqueue : Frontier -> string -> Frontier) (enqueue_raises : string -> bool) :
  let parse := parse_sitemap_urls fromstring in
  let entry := seed_entry fromstring fetch_body enqueue in
  let ok := entry_ok fromstring fetch_body enqueue_raises in
  let seed_sitemap := seed_sitemap fromstring fetch_body enqueue enqueue_raises in
  (forall body root, fromstring body = Some root ->
     parse body =
       if PyText.endswith (ET.tag_of root) "sitemapindex" then ET.loc_texts "sitemap" root
       else if PyText.endswith (ET.tag_of root) "urlset" then ET.loc_texts "url" root
       else [])
  /\ (forall st u, PyText.endswith u ".xml" = false ->
        entry st u = {| frontier := enqueue (frontier st) u; fetched := fetched st |})
  /\ (forall st u nxml, PyText.endswith u ".xml" = true -> fetch_body u = Some nxml ->
        entry st u = {| frontier := fold_left enqueue (parse nxml) (frontier st);
                        fetched := fetched st ++ [u] |})
  /\ (forall st sm xml, fetch_body sm = Some xml ->
        forallb ok (parse xml) = true ->
        seed_sitemap st sm = fold_left entry (parse xml) (log_fetch sm st)
        /\ fetched (seed_sitemap st sm)
           = fetched st ++ sm :: List.filter (fun u => PyText.endswith u ".xml") (parse xml))
  /\ (forall st sm xml pre u post, fetch_body sm = Some xml ->
        parse xml = pre ++ u :: post -> forallb ok pre = true -> ok u = false ->
        let st' := fold_left entry pre (log_fetch sm st) in
        (PyText.endswith u ".xml" = false ->
           enqueue_raises u = true /\ seed_sitemap st sm = st')
        /\ (PyText.endswith u ".xml" = true -> fetch_body u = None ->
              seed_sitemap st sm = log_fetch u st')
        /\ (forall nxml, PyText.endswith u ".xml" = true -> fetch_body u = Some nxml ->
              exists listed v dropped,
                parse nxml = listed ++ v :: dropped
                /\ enqueue_raises v = true
                /\ seed_sitemap st sm
                   = {| frontier := fold_left enqueue listed (frontier st');
                        fetched := fetched st' ++ [u] |})).
Proof.
  intros parse entry ok seed_sm. repeat apply conj.
  - intros body root H. unfold parse, parse_sitemap_urls. now rewrite H.
  - intros st u H. unfold entry, seed_entry. now rewrite H.
  - intros st u nxml H Hf. unfold entry, seed_entry. now rewrite H, Hf.
  - intros st sm xml Hf Hok. unfold seed_sm, seed_sitemap. rewrite Hf.
    fold parse. rewrite (seed_entries_ok fromstring fetch_body enqueue _ _ _ Hok).
    cbn [fst]. split; [reflexivity|].
    rewrite fetched_seed_entries_ok. cbn [fetched log_fetch].
    now rewrite <- app_assoc.
  - intros st sm xml pre u post Hf Hsplit Hok Hu st'.
    assert (E : seed_sm st sm
                = seed_entry_raising fromstring fetch_body enqueue enqueue_raises st' u).
    { unfold seed_sm, seed_sitemap. rewrite Hf. fold parse. rewrite Hsplit.
      now rewrite (seed_entries_abort fromstring fetch_body enqueue _ pre u post _ Hok Hu). }
    rewrite E. unfold seed_entry_raising. unfold ok, entry_ok in Hu. repeat apply conj.
    + intros Hx. rewrite Hx in *. unfold enqueue_ok in Hu.
      split; [now destruct (enqueue_raises u)|reflexivity].
    + intros Hx Hn. now rewrite Hx, Hn.
    + intros nxml Hx Hn. rewrite Hx, Hn in *. fold parse in Hu |- *.
      assert (Hex : exists listed v dropped,
                 parse nxml = listed ++ v :: dropped
                 /\ forallb (enqueue_ok enqueue_raises) listed = true
                 /\ enqueue_raises v = true).
      { clear -Hu. induction (parse nxml) as [|w l IH]; [discriminate|].
        cbn [forallb] in Hu. destruct (enqueue_ok enqueue_raises w) eqn:Ew.
        - destruct (IH Hu) as (listed & v & dropped & -> & Hl & Hv).
          exists (w :: listed), v, dropped. cbn [forallb]. now rewrite Ew.
        - exists [], w, l. unfold enqueue_ok in Ew.
          repeat split. now destruct (enqueue_raises w). }
      destruct Hex as (listed & v & dropped & Hp & Hl & Hv).
      exists listed, v, dropped. split; [exact Hp|]. split; [exact Hv|].
      rewrite Hp, (enqueue_each_raises enqueue enqueue_raises listed v dropped _ Hl Hv).
      reflexivity.
Qed.

Lemma seeding_by_suffix_witness :
  fetched (seed_sitemap Site.fromstring Site.fetch_body Site.enqueue Site.enqueue_raises
             Site.init Site.index_url)
  = [Site.index_url; Site.pages_url].
Proof.
  exact (proj2 (proj1 (proj2 (proj2 (proj2
           (seeding_by_suffix Site.fromstring Site.fetch_body Site.enqueue
              Site.enqueue_raises))))
           Site.init Site.index_url "index" eq_refl eq_refl)).
Defined.

(** A URL that [urlparse] rejects ends the processing of the url-set that
    lists it: the entry before it is in the queue, the one after it is not. *)
Example seeding_stops_at_rejected_url :
  parse_sitemap_urls Site.fromstring "news" = [Site.page_c; Site.bad_url; Site.page_b]
  /\ Site.enqueue_raises Site.bad_url = true
  /\ queue (frontier (seed_sitemap Site.fromstring Site.fetch_body Site.enqueue
                        Site.enqueue_raises Site.init Site.news_url))
     = [Site.page_c].
Proof. repeat split; reflexivity. Qed.

(** ** The crawl loop and the browser session *)

Module Page.

Record PageRecord := {
  source_url : string;
  final_url : string;
  slug : string;
  title : string;
  published_date : option string;
  language : option string;
  text : string;
  blocks : list ContentBlock;
  images : list ImageEntry;
  html : string
}.

End Page.

(** What one turn of the loop does with the URL it dequeued: the resolve
    step raises an [Exception] (a warning, then [continue]); or the page is
    processed, giving the links to enqueue and the record to append; or an
    exception leaves the body of the loop. *)
Inductive PageOutcome :=
| PageSkipped
| PageDone (links : list string) (record : Page.PageRecord)
| PageCrashed (exn : string).

(** How the [while] loop was left, or that an exception left
    [crawl_and_export] before the loop. *)
Inductive LoopExit :=
| QueueEmpty
| BudgetReached
| Raised (exn : string)
| NotEntered.

(** The calls on the browser session: the constructor [JSRenderer(...)],
    the pages resolved, and the three calls of [JSRenderer.close]. *)
Inductive session_event :=
| EvLaunch
| EvResolve (url : string)
| EvCtxClose
| EvBrowserClose
| EvPwStop.

Record LoopResult := {
  loop_exit : LoopExit;
  loop_frontier : Frontier;
  loop_records : list Page.PageRecord;
  loop_visited : list string
}.

Section CrawlLoop.

Variable visit : string -> PageOutcome.
Variable enqueue : Frontier -> string -> Frontier.

(** [while queue and len(records) < max_pages], with [budget] the number of
    records still allowed.  A skipped page only shortens the queue (the
    inner loop); a processed page uses one unit of the budget. *)
Fixpoint crawl_loop (budget : nat) (fr : Frontier) (records : list Page.PageRecord)
    (visited : list string) : LoopResult :=
  match budget with
  | O =>
      {| loop_exit := match queue fr with [] => QueueEmpty | _ => BudgetReached end;
         loop_frontier := fr; loop_records := records; loop_visited := visited |}
  | S budget' =>
      (fix drain (q : list string) (visited : list string) : LoopResult :=
         match q with
         | [] =>
             {| loop_exit := QueueEmpty;
                loop_frontier := {| queue := []; seen := seen fr |};
                loop_records := records; loop_visited := visited |}
         | url :: q' =>
             match visit url with
             | PageSkipped => drain q' (visited ++ [url])
             | PageCrashed exn =>
                 {| loop_exit := Raised exn;
                    loop_frontier := {| queue := q'; seen := seen fr |};
                    loop_records := records; loop_visited := visited ++ [url] |}
             | PageDone links record =>
                 crawl_loop budget'
                   (fold_left enqueue links {| queue := q'; seen := seen fr |})
                   (records ++ [record]) (visited ++ [url])
             end
         end) (queue fr) visited
  end.

(** The outcomes of the three calls of [JSRenderer.close]: [true] when the
    call raises. *)
Variable ctx_close_raises browser_close_raises pw_stop_raises : bool.

(** [JSRenderer.close]: [try: ctx.close(); browser.close()
    finally: pw.stop()]. *)
Definition close : list session_event * bool :=
  (EvCtxClose :: (if ctx_close_raises then [] else [EvBrowserClose]) ++ [EvPwStop],
   ctx_close_raises || browser_close_raises || pw_stop_raises).

Record CrawlRun := {
  run_loop : LoopResult;
  run_trace : list session_event;
  run_raised : bool
}.

(** [try: while ...: ... finally: if renderer: renderer.close()], entered
    with the seeded frontier. *)
Definition crawl (use_js : bool) (max_pages : Z) (fr : Frontier) : CrawlRun :=
  let r := crawl_loop (Z.to_nat max_pages) fr [] [] in
  let closing := if use_js then close else ([], false) in
  {| run_loop := r;
     run_trace := map EvResolve (loop_visited r) ++ fst closing;
     run_raised := snd closing
                   || match loop_exit r with Raised _ => true | _ => false end |}.

Definition is_release (e : session_event) : bool :=
  match e with EvCtxClose | EvBrowserClose | EvPwStop => true | _ => false end.

Definition is_event (e e' : session_event) : bool :=
  match e, e' with
  | EvLaunch, EvLaunch
  | EvCtxClose, EvCtxClose | EvBrowserClose, EvBrowserClose | EvPwStop, EvPwStop => true
  | _, _ => false
  end.

Definition count (e : session_event) (tr : list session_event) : nat :=
  length (List.filter (is_event e) tr).

Lemma count_resolves e urls tr :
  count e (map EvResolve urls ++ tr) = count e tr.
Proof.
  unfold count. induction urls as [|u urls IH]; [reflexivity|].
  cbn [map app List.filter]. destruct e; exact IH.
Qed.

(** The three ways out of the loop. *)
Lemma crawl_loop_exit budget fr records visited :
  let r := crawl_loop budget fr records visited in
  match loop_exit r with
  | QueueEmpty => queue (loop_frontier r) = []
  | BudgetReached =>
      queue (loop_frontier r) <> []
      /\ length (loop_records r) = (length records + budget)%nat
  | Raised exn =>
      exists url, In url (loop_visited r) /\ visit url = PageCrashed exn
  | NotEntered => False
  end.
Proof.
  revert fr records visited. induction budget as [|b IH]; intros fr records visited.
  - cbn. destruct (queue fr); cbn; [reflexivity|]. split; [discriminate|lia].
  - cbn [crawl_loop]. generalize (queue fr) as q. intros q. revert visited.
    induction q as [|url q IHq]; intros visited; [reflexivity|].
    destruct (visit url) as [|links record|exn] eqn:Hv.
    + apply IHq.
    + specialize (IH (fold_left enqueue links {| queue := q; seen := seen fr |})
                     (records ++ [record]) (visited ++ [url])).
      cbv zeta in IH.
      destruct (loop_exit (crawl_loop b _ _ _)); try exact IH.
      destruct IH as [Hq Hl]. split; [exact Hq|].
      rewrite Hl, length_app. cbn. lia.
    + cbn. exists url. split; [|exact Hv]. apply in_app_iff. right. now left.
Qed.

End CrawlLoop.

(** The exception leaves [crawl_and_export] before its [try]: no page was
    resolved and [close] is not called. *)
Definition before_loop (launch : list session_event) (fr : Frontier) : CrawlRun :=
  {| run_loop := {| loop_exit := NotEntered; loop_frontier := fr;
                    loop_records := []; loop_visited := [] |};
     run_trace := launch;
     run_raised := true |}.

(** [discover_sitemaps(start_url, ...)] raises: its last two calls of
    [urljoin] are outside its [try], and [urljoin] parses a base that is
    not empty. *)
Definition discover_raises (rejects : string -> bool) (start_url : string) : bool :=
  PyText.nonempty start_url && rejects start_url.

(** [crawl_and_export] from the construction of the renderer on (l.280):
    with [use_js] the session is launched; [discover_sitemaps] gives the
    candidates ([discovered], [None] when it raises: its last two calls of
    [urljoin] are outside its [try] and parse the start URL); the frontier
    is seeded; then the loop runs under its [try ... finally]. *)
Definition crawl_and_export
    (fromstring : string -> option xml) (fetch_body : string -> option string)
    (visit : string -> PageOutcome) (enqueue : Frontier -> string -> Frontier)
    (enqueue_raises : string -> bool)
    (ctx_close_raises browser_close_raises pw_stop_raises : bool)
    (use_js : bool) (max_pages : Z) (discovered : option (list string))
    (start_url : string)
  : CrawlRun :=
  let launch := if use_js then [EvLaunch] else [] in
  match discovered with
  | None => before_loop launch empty_frontier
  | Some sitemaps =>
      if seed_raises fromstring fetch_body enqueue enqueue_raises sitemaps start_url
      then before_loop launch
             (frontier (seed_sitemaps fromstring fetch_body enqueue enqueue_raises
                          sitemaps))
      else
        let run :=
          crawl visit enqueue ctx_close_raises browser_close_raises pw_stop_raises
                use_js max_pages
                (frontier (seed fromstring fetch_body enqueue enqueue_raises
                             sitemaps start_url)) in
        {| run_loop := run_loop run;
           run_trace := launch ++ run_trace run;
           run_raised := run_raised run |}
  end.

(** Pages for evaluating the loop. *)
Definition sample_record (u : string) : Page.PageRecord :=
  {| Page.source_url := u; Page.final_url := u; Page.slug := "home";
     Page.title := "home"; Page.published_date := None; Page.language := None;
     Page.text := ""; Page.blocks := []; Page.images := []; Page.html := "" |}.

Definition sample_visit (u : string) : PageOutcome :=
  if String.eqb u "https://www.focode.org/focode/broken" then PageCrashed "parser error"
  else if String.eqb u "https://www.focode.org/focode/down" then PageSkipped
  else PageDone ["https://www.focode.org/focode/next"] (sample_record u).

Definition sample_frontier (urls : list string) : Frontier :=
  {| queue := urls; seen := list_to_set urls |}.

(** A crawl of the magazine from [start], with no sitemap that answers. *)
Definition sample_crawl (ctx_close_raises use_js : bool) (start : string) : CrawlRun :=
  crawl_and_export (fun _ => None) (fun _ => None) sample_visit
    (enqueue RefUrl.urlparse RefUrl.urldefrag default_allowed_path_match None
             "Mozilla/5.0" start)
    (enqueue_raises urlsplit_rejects RefUrl.urlparse RefUrl.urldefrag start)
    ctx_close_raises false false use_js 10%Z
    (if discover_raises urlsplit_rejects start then None
     else Some ["https://focode.org/sitemap_index.xml"; "https://focode.org/sitemap.xml"])
    start.




(** The three ways out of the loop, each with the session released. *)
Example crawl_exits :
  let crawl := crawl sample_visit Site.enqueue false false false true in
  let closing := [EvCtxClose; EvBrowserClose; EvPwStop] in
  (let r := crawl 10%Z (sample_frontier ["https://www.focode.org/focode/down"]) in
   loop_exit (run_loop r) = QueueEmpty
   /\ run_trace r = EvResolve "https://www.focode.org/focode/down" :: closing)
  /\ (let r := crawl 1%Z (sample_frontier ["https://www.focode.org/focode/a"]) in
      loop_exit (run_loop r) = BudgetReached
      /\ run_trace r = EvResolve "https://www.focode.org/focode/a" :: closing)
  /\ (let r := crawl 10%Z (sample_frontier ["https://www.focode.org/focode/broken"]) in
      loop_exit (run_loop r) = Raised "parser error"
      /\ run_trace r = EvResolve "https://www.focode.org/focode/broken" :: closing).
Proof. repeat split; reflexivity. Qed.

(** * Further properties of the module *)

(** ** The shape of normalized text *)

Section NormalizedShape.
Import PyStr.

Lemma rstrip_snoc p l c :
  rstrip_by p (l ++ [c]) = if p c then rstrip_by p l else l ++ [c].
Proof.
  induction l as [|d l IH].
  - cbn. now destruct (p c).
  - cbn [app rstrip_by]. rewrite IH. destruct (p c) eqn:Hc; [reflexivity|].
    destruct (l ++ [c]) eqn:E; [|reflexivity].
    now destruct l.
Qed.

Lemma rstrip_length p l : (length (rstrip_by p l) <= length l)%nat.
Proof.
  induction l as [|c l IH]; [cbn; lia|]. cbn [rstrip_by].
  destruct (rstrip_by p l); [destruct (p c)|]; cbn in *; lia.
Qed.

Lemma rstrip_last p l pre c : rstrip_by p l = pre ++ [c] -> p c = false.
Proof.
  intros H. pose proof (rstrip_idem p l) as Hi. rewrite H, rstrip_snoc in Hi.
  destruct (p c); [|reflexivity].
  pose proof (rstrip_length p pre) as Hl. rewrite Hi, length_app in Hl.
  cbn in Hl. lia.
Qed.

Lemma hws_ok_adjacent pre c1 c2 post :
  hws_ok (pre ++ c1 :: c2 :: post) = true -> is_hws c1 = true -> is_hws c2 = false.
Proof.
  induction pre as [|d pre IH]; intros H H1.
  - cbn [app hws_ok] in H. rewrite H1 in H.
    apply andb_true_iff in H as [H _]. apply andb_true_iff in H as [_ H].
    now apply negb_true_iff in H.
  - cbn [app hws_ok] in H. apply andb_true_iff in H as [_ H]. now apply IH.
Qed.

Lemma hws_ok_space l c : hws_ok l = true -> In c l -> is_hws c = true -> c = sp.
Proof.
  induction l as [|d l IH]; intros H Hin Hc; [destruct Hin|].
  cbn [hws_ok] in H. apply andb_true_iff in H as [H1 H2].
  destruct Hin as [->|Hin]; [|now apply IH].
  rewrite Hc in H1. apply andb_true_iff in H1 as [H1 _]. now apply Ascii.eqb_eq.
Qed.

Lemma nl_ok_suffix k pre l : nl_ok k (pre ++ l) = true -> nl_ok 0 l = true.
Proof.
  revert k. induction pre as [|d pre IH]; intros k H.
  - apply (nl_ok_weaken k 0); [lia|exact H].
  - cbn [app nl_ok] in H. destruct (is_nl d).
    + apply andb_true_iff in H as [_ H]. now apply (IH (S k)).
    + now apply (IH 0%nat).
Qed.

Lemma forallb_sub_hws l : forallb isspace (sub_hws l) = forallb isspace l.
Proof.
  induction l as [|c r IH]; [reflexivity|]. cbn [sub_hws forallb].
  destruct (is_hws c) eqn:Hc.
  - assert (Hs : isspace c = true).
    { unfold is_hws in Hc. unfold isspace.
      repeat (apply orb_true_iff in Hc as [Hc|Hc]);
        apply N.eqb_eq in Hc; rewrite Hc; reflexivity. }
    rewrite Hs. cbn [andb]. destruct r as [|c' r']; [reflexivity|].
    destruct (is_hws c'); [exact IH|].
    cbn [forallb]. replace (isspace sp) with true by reflexivity. exact IH.
  - cbn [forallb]. now rewrite IH.
Qed.

Lemma forallb_repeat_nl n l :
  forallb isspace (repeat nl n ++ l) = forallb isspace l.
Proof. induction n as [|n IH]; [reflexivity|]. cbn. exact IH. Qed.

Lemma forallb_sub_nl k l : forallb isspace (sub_nl k l) = forallb isspace l.
Proof.
  revert k. induction l as [|c r IH]; intros k.
  - cbn. unfold emit_nl. rewrite <- (app_nil_r (repeat _ _)).
    now rewrite forallb_repeat_nl.
  - cbn [sub_nl forallb]. destruct (is_nl c) eqn:Hc.
    + apply is_nl_eq in Hc. subst c. rewrite IH. reflexivity.
    + unfold emit_nl. rewrite forallb_repeat_nl. cbn [forallb]. now rewrite IH.
Qed.

Lemma lstrip_nil p l : lstrip_by p l = [] <-> forallb p l = true.
Proof.
  induction l as [|c r IH]; [easy|]. cbn [lstrip_by forallb].
  destruct (p c); cbn; [exact IH|]. split; discriminate.
Qed.

Lemma rstrip_nil p l : rstrip_by p l = [] <-> forallb p l = true.
Proof.
  induction l as [|c r IH]; [easy|]. cbn [rstrip_by forallb].
  destruct (rstrip_by p r) eqn:E.
  - destruct IH as [IH _]. rewrite (IH eq_refl), andb_true_r.
    destruct (p c); split; easy.
  - split; [discriminate|]. intros H. apply andb_true_iff in H as [_ H].
    apply IH in H. discriminate.
Qed.

Lemma forallb_lstrip p l : forallb p (lstrip_by p l) = forallb p l.
Proof.
  induction l as [|c r IH]; [reflexivity|]. cbn [lstrip_by].
  destruct (p c) eqn:Hc; [cbn; now rewrite Hc|reflexivity].
Qed.

Lemma strip_by_nil p l : strip_by p l = [] <-> forallb p l = true.
Proof. unfold strip_by. now rewrite rstrip_nil, forallb_lstrip. Qed.

Lemma normalize_chars_nil l :
  normalize_chars l = [] <-> forallb isspace l = true.
Proof.
  unfold normalize_chars. now rewrite strip_by_nil, forallb_sub_nl, forallb_sub_hws.
Qed.

Lemma str_nil l : str l = "" <-> l = [].
Proof. destruct l; cbn; split; easy. Qed.

End NormalizedShape.

(** X1. The text [normalize_ws] returns has no whitespace at either end; its
    only horizontal whitespace is the space character, never two in a row;
    and it has no three newlines in a row. *)
Theorem normalize_ws_shape (s : string) :
  let r := PyStr.chars (normalize_ws s) in
  (forall c l, r = c :: l -> PyStr.isspace c = false)
  /\ (forall l c, r = l ++ [c] -> PyStr.isspace c = false)
  /\ (forall c, In c r -> PyStr.is_hws c = true -> c = " "%char)
  /\ (forall pre c1 c2 post, r = pre ++ c1 :: c2 :: post ->
        PyStr.is_hws c1 = true -> PyStr.is_hws c2 = false)
  /\ (forall pre post, r <> pre ++ PyStr.nl :: PyStr.nl :: PyStr.nl :: post).
Proof.
  intros r. subst r. unfold normalize_ws, PyStr.chars, PyStr.str.
  rewrite list_ascii_of_string_of_list_ascii.
  destruct (normalize_chars_shape (list_ascii_of_string s)) as [Hh Hn].
  repeat apply conj.
  - intros c l E.
    pose proof (head_not_rstrip PyStr.isspace PyStr.isspace _
                  (head_not_lstrip PyStr.isspace
                     (PyStr.sub_nl 0 (PyStr.sub_hws (list_ascii_of_string s))))) as H.
    fold (PyStr.strip_by PyStr.isspace
            (PyStr.sub_nl 0 (PyStr.sub_hws (list_ascii_of_string s)))) in H.
    fold (normalize_chars (list_ascii_of_string s)) in H. rewrite E in H.
    now apply negb_true_iff in H.
  - intros l c E. unfold normalize_chars, PyStr.strip_by in E.
    now apply rstrip_last in E.
  - intros c Hin Hc. exact (hws_ok_space _ c Hh Hin Hc).
  - intros pre c1 c2 post E H1. rewrite E in Hh.
    exact (hws_ok_adjacent _ _ _ _ Hh H1).
  - intros pre post E. rewrite E in Hn. apply nl_ok_suffix in Hn. discriminate.
Qed.

(** X2. [normalize_ws] returns the empty string exactly for the strings
    that consist of whitespace only (the empty string among them). *)
Theorem normalize_ws_empty_iff (s : string) :
  normalize_ws s = "" <-> forallb PyStr.isspace (PyStr.chars s) = true.
Proof.
  unfold normalize_ws. rewrite str_nil. apply normalize_chars_nil.
Qed.

Lemma normalize_ws_shape_witness :
  PyStr.is_hws "b"%char = false.
Proof.
  exact (proj1 (proj2 (proj2 (proj2 (normalize_ws_shape ("a " ++ String (ascii_of_N 9) " b")))))
           ["a"%char] " "%char "b"%char [] eq_refl eq_refl).
Defined.

(** ** [get_slug] *)

Definition is_slash (c : ascii) : bool := Ascii.eqb c "/"%char.

(** [path.split("/")[-1]]: the part after the last slash, read left to
    right with [cur] the segment begun. *)
Fixpoint last_segment (cur l : list ascii) : list ascii :=
  match l with
  | [] => cur
  | c :: r => if is_slash c then last_segment [] r else last_segment (cur ++ [c]) r
  end.

Section Slug.

Variable urlparse : string -> ParseResult.

Definition get_slug (u : string) : string :=
  let path := PyStr.rstrip_by is_slash (PyStr.chars (path (urlparse u))) in
  match path with
  | [] => "home"
  | _ => PyStr.str (last_segment [] path)
  end.

End Slug.

Lemma last_segment_snoc cur l c :
  is_slash c = false -> last_segment cur (l ++ [c]) = last_segment cur l ++ [c].
Proof.
  intros Hc. revert cur. induction l as [|d l IH]; intros cur.
  - cbn. now rewrite Hc.
  - cbn [app last_segment]. destruct (is_slash d); apply IH.
Qed.

Lemma last_segment_no_slash cur l :
  forallb (fun c => negb (is_slash c)) cur = true ->
  forallb (fun c => negb (is_slash c)) (last_segment cur l) = true.
Proof.
  revert cur. induction l as [|d l IH]; intros cur H; [exact H|].
  cbn [last_segment]. destruct (is_slash d) eqn:Hd; apply IH; [reflexivity|].
  rewrite forallb_app, H. cbn. now rewrite Hd.
Qed.

Lemma list_snoc_cases {A} (l : list A) : l = [] \/ exists l' x, l = l' ++ [x].
Proof.
  induction l as [|a l IH]; [now left|]. right.
  destruct IH as [->|(l' & x & ->)]; [now exists [], a|now exists (a :: l'), x].
Qed.

Lemma get_slug_facts (urlparse : string -> ParseResult) (u : string) :
  get_slug urlparse u <> ""
  /\ forallb (fun c => negb (is_slash c)) (PyStr.chars (get_slug urlparse u)) = true
  /\ (forallb is_slash (PyStr.chars (path (urlparse u))) = true ->
      get_slug urlparse u = "home").
Proof.
  assert (Hiff : forallb is_slash (PyStr.chars (path (urlparse u))) = true <->
                 PyStr.rstrip_by is_slash (PyStr.chars (path (urlparse u))) = []).
  { symmetry. apply rstrip_nil. }
  unfold get_slug.
  destruct (PyStr.rstrip_by is_slash (PyStr.chars (path (urlparse u)))) as [|c p] eqn:E.
  - split; [discriminate|]. split; reflexivity.
  - destruct (list_snoc_cases (c :: p)) as [H|(l' & x & H)]; [discriminate|].
    rewrite H in E. pose proof (rstrip_last _ _ _ _ E) as Hx.
    rewrite H, last_segment_snoc by exact Hx.
    split; [|split].
    + unfold PyStr.str. intros Hs. apply str_nil in Hs. now destruct (last_segment [] l').
    + unfold PyStr.chars, PyStr.str. rewrite list_ascii_of_string_of_list_ascii.
      rewrite <- last_segment_snoc by exact Hx. now apply last_segment_no_slash.
    + intros Hs. apply Hiff in Hs. discriminate.
Qed.

(** X3. The slug is never empty and never contains a slash; it is ["home"]
    when the path of the URL is empty or made of slashes only. *)
Theorem get_slug_segment (urlparse : string -> ParseResult) (u : string) :
  get_slug urlparse u <> ""
  /\ forallb (fun c => negb (is_slash c)) (PyStr.chars (get_slug urlparse u)) = true
  /\ (forallb is_slash (PyStr.chars (path (urlparse u))) = true ->
      get_slug urlparse u = "home").
Proof. apply get_slug_facts. Qed.

Lemma get_slug_segment_witness :
  get_slug RefUrl.urlparse "https://www.focode.org//" = "home".
Proof.
  exact (proj2 (proj2 (get_slug_segment RefUrl.urlparse "https://www.focode.org//"))
           eq_refl).
Defined.

Example get_slug_examples :
  map (get_slug RefUrl.urlparse)
      ["https://www.focode.org/focodemag/article-150324-notes/";
       "https://www.focode.org"; "https://www.focode.org///";
       "https://www.focode.org/a/b?x=1#y"]
  = ["article-150324-notes"; "home"; "home"; "b"].
Proof. reflexivity. Qed.

(** ** The dates [parse_date_from_slug] can return *)

Lemma int2_range a b :
  is_digit a = true -> is_digit b = true -> (0 <= int2 a b <= 99)%Z.
Proof.
  unfold is_digit, int2, digit_val. intros Ha Hb.
  apply andb_true_iff in Ha as [Ha1 Ha2]. apply andb_true_iff in Hb as [Hb1 Hb2].
  apply N.leb_le in Ha1, Ha2, Hb1, Hb2. lia.
Qed.

Lemma six_digits_range l dd mm yy :
  six_digits l = Some (dd, mm, yy) -> (0 <= yy <= 99)%Z.
Proof.
  unfold six_digits. destruct l as [|a [|b [|c [|d [|e [|f l]]]]]]; try discriminate.
  destruct (forallb _ _) eqn:H; [|discriminate]. intros E. inversion E; subst.
  cbn [forallb] in H. repeat (apply andb_true_iff in H as [? H]).
  now apply int2_range.
Qed.

Lemma re_search_range l dd mm yy :
  re_search_ddmmyy l = Some (dd, mm, yy) -> (0 <= yy <= 99)%Z.
Proof.
  induction l as [|c r IH]; cbn [re_search_ddmmyy].
  - destruct (six_digits []) eqn:E; [|discriminate]. discriminate.
  - destruct (six_digits (c :: r)) as [[[d m] y]|] eqn:E; [|exact IH].
    intros H. inversion H; subst. now apply six_digits_range in E.
Qed.

(** X4. A date returned by [parse_date_from_slug] is a calendar date
    written [YYYY-MM-DD] (ten characters) whose year lies in 1970..2069. *)
Theorem parse_date_from_slug_window (slug d : string) :
  parse_date_from_slug slug = Some d ->
  exists year month day,
    d = PyDate.isoformat year month day
    /\ PyDate.valid_date year month day = true
    /\ (1970 <= year <= 2069)%Z
    /\ String.length d = 10%nat.
Proof.
  unfold parse_date_from_slug.
  destruct (re_search_ddmmyy (PyStr.chars slug)) as [[[dd mm] yy]|] eqn:E; [|discriminate].
  apply re_search_range in E.
  destruct (PyDate.valid_date (century_year yy) mm dd) eqn:Hv; [|discriminate].
  intros H. inversion H; subst. exists (century_year yy), mm, dd.
  repeat split; try assumption.
  - unfold century_year. destruct (Z.ltb_spec yy 70); lia.
  - unfold century_year. destruct (Z.ltb_spec yy 70); lia.
Qed.

Lemma parse_date_from_slug_window_witness :
  exists year month day,
    "1999-12-31" = PyDate.isoformat year month day
    /\ PyDate.valid_date year month day = true
    /\ (1970 <= year <= 2069)%Z
    /\ String.length "1999-12-31" = 10%nat.
Proof. exact (parse_date_from_slug_window "wrap-311299" "1999-12-31" eq_refl). Defined.

(** ** What [strip_unwanted] leaves *)

Lemma node_forall_ind (P : node -> Prop) :
  (forall s, P (Text s)) ->
  (forall nm a cs, Forall P cs -> P (Tag nm a cs)) ->
  forall n, P n.
Proof.
  intros HT HG. fix IH 1. intros [s|nm a cs]; [apply HT|].
  apply HG. induction cs as [|c cs IHcs]; constructor; [apply IH|exact IHcs].
Qed.

(** The children [decompose_all] leaves under one element. *)
Definition kept_children (p : node -> bool) (cs : list node) : list node :=
  map (Soup.decompose_all p) (List.filter (fun c => negb (p c)) cs).

Lemma decompose_all_tag p nm a cs :
  Soup.decompose_all p (Tag nm a cs) = Tag nm a (kept_children p cs).
Proof.
  cbn [Soup.decompose_all]. f_equal. unfold kept_children.
  induction cs as [|c cs IH]; [reflexivity|].
  cbn [List.filter]. destruct (p c); cbn [negb map]; now rewrite IH.
Qed.

(** A test that reads the name and the attributes of an element only. *)
Definition shallow (p : node -> bool) : Prop :=
  forall q n, p (Soup.decompose_all q n) = p n.

Lemma shallow_named names : shallow (Soup.named names).
Proof. intros q [s|nm a cs]; [reflexivity|]. now rewrite decompose_all_tag. Qed.

Lemma shallow_is_noise : shallow is_noise.
Proof. intros q [s|nm a cs]; [reflexivity|]. now rewrite decompose_all_tag. Qed.

(** Every element or string left by [decompose_all p] comes from one of the
    original tree that does not satisfy [p]. *)
Lemma descendants_decompose_all p n d' :
  In d' (Soup.descendants (Soup.decompose_all p n)) ->
  exists d, In d (Soup.descendants n) /\ p d = false /\ d' = Soup.decompose_all p d.
Proof.
  revert d'. induction n as [s|nm a cs IH] using node_forall_ind; intros d' H.
  - destruct H.
  - rewrite decompose_all_tag in H. cbn [Soup.descendants] in *.
    apply in_flat_map in H as (c' & Hc' & Hd'). unfold kept_children in Hc'.
    apply in_map_iff in Hc' as (c & <- & Hc). apply List.filter_In in Hc as [Hc Hp].
    apply negb_true_iff in Hp. destruct Hd' as [<-|Hd'].
    + exists c. split; [|now split]. apply in_flat_map. exists c. split; [exact Hc|now left].
    + rewrite List.Forall_forall in IH. destruct (IH c Hc d' Hd') as (d & Hd & Hpd & ->).
      exists d. split; [|now split]. apply in_flat_map. exists c. split; [exact Hc|now right].
Qed.

Lemma decompose_all_clean p n d :
  shallow p -> In d (Soup.descendants (Soup.decompose_all p n)) -> p d = false.
Proof.
  intros Hp H. apply descendants_decompose_all in H as (d0 & _ & H0 & ->).
  now rewrite Hp.
Qed.

Lemma decompose_all_keeps_clean p q n :
  shallow p ->
  (forall d, In d (Soup.descendants n) -> p d = false) ->
  forall d, In d (Soup.descendants (Soup.decompose_all q n)) -> p d = false.
Proof.
  intros Hp Hn d H. apply descendants_decompose_all in H as (d0 & Hd0 & _ & ->).
  rewrite Hp. now apply Hn.
Qed.

Lemma decompose_all_fixed p n :
  (forall d, In d (Soup.descendants n) -> p d = false) -> Soup.decompose_all p n = n.
Proof.
  induction n as [s|nm a cs IH] using node_forall_ind; intros H; [reflexivity|].
  rewrite decompose_all_tag. f_equal. unfold kept_children.
  cbn [Soup.descendants] in H. rewrite List.Forall_forall in IH.
  induction cs as [|c cs IHcs]; [reflexivity|]. cbn [List.filter].
  assert (Hc : p c = false) by (apply H; cbn; now left).
  rewrite Hc. cbn [negb map]. f_equal.
  - apply IH; [now left|]. intros d Hd. apply H. cbn. right.
    apply in_app_iff. now left.
  - apply IHcs.
    + intros x Hx. apply IH. now right.
    + intros d Hd. apply H. cbn. right. apply in_app_iff. now right.
Qed.

Lemma strings_decompose_all p n s :
  In s (Soup.strings_of (Soup.decompose_all p n)) -> In s (Soup.strings_of n).
Proof.
  unfold Soup.strings_of. intros H. apply in_flat_map in H as (d' & Hd' & Hs).
  apply descendants_decompose_all in Hd' as (d & Hd & _ & ->).
  apply in_flat_map. exists d. split; [exact Hd|].
  destruct d as [t|nm a cs]; [exact Hs|]. rewrite decompose_all_tag in Hs. destruct Hs.
Qed.

(** The container after the first loop of [strip_unwanted], for the
    selectors [sels]. *)
Definition strip_tags (sels : list string) (container : node) : node :=
  fold_left (fun c sel => Soup.decompose_all (Soup.named [sel]) c) sels container.

Lemma strip_tags_clean sels container sel :
  In sel sels ->
  forall d, In d (Soup.descendants (strip_tags sels container)) ->
            Soup.named [sel] d = false.
Proof.
  unfold strip_tags.
  induction sels as [|s sels IH] using rev_ind; intros Hsel; [destruct Hsel|].
  rewrite fold_left_app. cbn [fold_left].
  apply in_app_iff in Hsel as [Hsel|[<-|[]]].
  - apply decompose_all_keeps_clean; [apply shallow_named|]. now apply IH.
  - intros d. apply decompose_all_clean, shallow_named.
Qed.

Lemma strip_tags_strings sels container s :
  In s (Soup.strings_of (strip_tags sels container)) -> In s (Soup.strings_of container).
Proof.
  unfold strip_tags. revert container. induction sels as [|x sels IH]; intros c H; [exact H|].
  cbn [fold_left] in H. apply IH in H. now apply strings_decompose_all in H.
Qed.

Lemma strip_tags_fixed sels container :
  (forall d sel, In d (Soup.descendants container) -> In sel sels ->
                 Soup.named [sel] d = false) ->
  strip_tags sels container = container.
Proof.
  unfold strip_tags. induction sels as [|x sels IH]; intros H; [reflexivity|].
  cbn [fold_left]. rewrite decompose_all_fixed.
  - apply IH. intros d sel Hd Hs. apply H; [exact Hd|now right].
  - intros d Hd. apply H; [exact Hd|now left].
Qed.

Lemma named_any names d :
  Soup.named names d = true <-> exists sel, In sel names /\ Soup.named [sel] d = true.
Proof.
  unfold Soup.named. destruct (Soup.is_tag d); cbn [andb].
  - rewrite existsb_exists. split.
    + intros (x & Hx & E). exists x. split; [exact Hx|]. cbn. now rewrite E.
    + intros (x & Hx & E). exists x. split; [exact Hx|]. cbn in E.
      now rewrite orb_false_r in E.
  - split; [discriminate|]. now intros (x & _ & E).
Qed.

Lemma strip_unwanted_clean_desc (container : node) (d : node) :
  In d (Soup.descendants (strip_unwanted container)) ->
  Soup.named unwanted_tags d = false /\ is_noise d = false.
Proof.
  unfold strip_unwanted. fold (strip_tags unwanted_tags container).
  intros Hd. split.
  - destruct (Soup.named unwanted_tags d) eqn:E; [|reflexivity].
    apply named_any in E as (sel & Hsel & E).
    rewrite (decompose_all_keeps_clean (Soup.named [sel]) is_noise
               (strip_tags unwanted_tags container) (shallow_named [sel])) in E;
      [discriminate| |exact Hd].
    now apply strip_tags_clean.
  - revert Hd. apply decompose_all_clean, shallow_is_noise.
Qed.

(** X5. In the container [strip_unwanted] leaves, no element is a script,
    style, noscript, svg, form, iframe, header, footer, nav or aside, and no
    element has a class or id that names a noise keyword.  The container
    element itself stays, and every string left was a string of the
    original container. *)
Theorem strip_unwanted_clean (container : node) :
  (forall d, In d (Soup.descendants (strip_unwanted container)) ->
     Soup.named unwanted_tags d = false /\ is_noise d = false)
  /\ Soup.name_of (strip_unwanted container) = Soup.name_of container
  /\ Soup.attrs_of (strip_unwanted container) = Soup.attrs_of container
  /\ (forall s, In s (Soup.strings_of (strip_unwanted container)) ->
        In s (Soup.strings_of container)).
Proof.
  split; [apply strip_unwanted_clean_desc|].
  unfold strip_unwanted. fold (strip_tags unwanted_tags container).
  split; [|split].
  - assert (H : forall p n, Soup.name_of (Soup.decompose_all p n) = Soup.name_of n).
    { intros p [s|nm a cs]; [reflexivity|now rewrite decompose_all_tag]. }
    rewrite H. unfold strip_tags. generalize unwanted_tags as sels. intros sels.
    revert container. induction sels as [|x sels IH]; intros c; [reflexivity|].
    cbn [fold_left]. now rewrite IH, H.
  - assert (H : forall p n, Soup.attrs_of (Soup.decompose_all p n) = Soup.attrs_of n).
    { intros p [s|nm a cs]; [reflexivity|now rewrite decompose_all_tag]. }
    rewrite H. unfold strip_tags. generalize unwanted_tags as sels. intros sels.
    revert container. induction sels as [|x sels IH]; intros c; [reflexivity|].
    cbn [fold_left]. now rewrite IH, H.
  - intros s Hs. apply strings_decompose_all in Hs. now apply strip_tags_strings in Hs.
Qed.

Lemma strip_unwanted_clean_witness :
  Soup.named unwanted_tags (Tag "p" [] [Text "story"]) = false
  /\ is_noise (Tag "p" [] [Text "story"]) = false.
Proof.
  exact (proj1 (strip_unwanted_clean
                  (Tag "article" []
                     [Tag "nav" [] [Text "menu"]; Tag "p" [] [Text "story"];
                      Tag "div" [("class", AttrList ["social-share"])] [Text "share"]]))
           (Tag "p" [] [Text "story"]) (or_introl eq_refl)).
Defined.

(** X6. [strip_unwanted] is idempotent: cleaning a cleaned container changes
    nothing. *)
Theorem strip_unwanted_idempotent (container : node) :
  strip_unwanted (strip_unwanted container) = strip_unwanted container.
Proof.
  pose proof (strip_unwanted_clean_desc container) as H.
  unfold strip_unwanted at 1. fold (strip_tags unwanted_tags (strip_unwanted container)).
  rewrite strip_tags_fixed.
  - apply decompose_all_fixed. intros d Hd. now apply H.
  - intros d sel Hd Hsel. destruct (H d Hd) as [Hn _].
    destruct (Soup.named [sel] d) eqn:E; [|reflexivity].
    assert (Soup.named unwanted_tags d = true); [|congruence].
    apply named_any. now exists sel.
Qed.

(** ** Visible text *)

(** A string with at least one character that is not whitespace. *)
Definition visible (s : string) : bool := negb (forallb PyStr.isspace (PyStr.chars s)).

Lemma chars_app (a b : string) :
  PyStr.chars (a ++ b)%string = PyStr.chars a ++ PyStr.chars b.
Proof.
  unfold PyStr.chars. induction a as [|c a IH]; [reflexivity|].
  simpl. f_equal. exact IH.
Qed.

Lemma chars_str l : PyStr.chars (PyStr.str l) = l.
Proof. apply list_ascii_of_string_of_list_ascii. Qed.

Lemma str_chars s : PyStr.str (PyStr.chars s) = s.
Proof. apply string_of_list_ascii_of_string. Qed.

Lemma nonempty_iff s : PyText.nonempty s = true <-> s <> "".
Proof.
  unfold PyText.nonempty. rewrite negb_true_iff. apply String.eqb_neq.
Qed.

Lemma visible_nonempty s : visible s = true -> s <> "".
Proof. intros H ->. discriminate. Qed.

Lemma visible_normalize_ws s : visible s = true <-> normalize_ws s <> "".
Proof.
  unfold visible, normalize_ws. rewrite negb_true_iff, str_nil, normalize_chars_nil.
  now destruct (forallb _ _).
Qed.

Lemma normalize_ws_fixed_idem s : normalize_ws (normalize_ws s) = normalize_ws s.
Proof.
  unfold normalize_ws. now rewrite chars_str, normalize_chars_idem.
Qed.

(** Non-empty normalized text is visible. *)
Lemma visible_normalized s : normalize_ws s <> "" -> visible (normalize_ws s) = true.
Proof.
  intros H. apply visible_normalize_ws. now rewrite normalize_ws_fixed_idem.
Qed.

Lemma forallb_lstrip_sub p l :
  (forall c, p c = true -> PyStr.isspace c = true) ->
  forallb PyStr.isspace (PyStr.lstrip_by p l) = forallb PyStr.isspace l.
Proof.
  intros Hp. induction l as [|c r IH]; [reflexivity|]. cbn [PyStr.lstrip_by].
  destruct (p c) eqn:Hc; [|reflexivity]. cbn [forallb]. now rewrite (Hp c Hc), IH.
Qed.

Lemma forallb_rstrip_sub p l :
  (forall c, p c = true -> PyStr.isspace c = true) ->
  forallb PyStr.isspace (PyStr.rstrip_by p l) = forallb PyStr.isspace l.
Proof.
  intros Hp. induction l as [|c r IH]; [reflexivity|]. cbn [PyStr.rstrip_by forallb].
  rewrite <- IH. destruct (PyStr.rstrip_by p r) eqn:E; [|reflexivity].
  cbn [forallb]. rewrite andb_true_r. destruct (p c) eqn:Hc; [|cbn; now rewrite andb_true_r].
  now rewrite (Hp c Hc).
Qed.

Lemma forallb_strip_sub p l :
  (forall c, p c = true -> PyStr.isspace c = true) ->
  forallb PyStr.isspace (PyStr.strip_by p l) = forallb PyStr.isspace l.
Proof.
  intros Hp. unfold PyStr.strip_by. now rewrite forallb_rstrip_sub, forallb_lstrip_sub.
Qed.

(** A stripped string that is not empty is visible. *)
Lemma visible_strip s : PyStr.strip s <> "" -> visible (PyStr.strip s) = true.
Proof.
  unfold PyStr.strip, visible. rewrite chars_str, str_nil. intros H.
  apply negb_true_iff. destruct (forallb _ _) eqn:E; [|reflexivity].
  rewrite forallb_strip_sub in E by auto. apply strip_by_nil in E. contradiction.
Qed.

Lemma join_cons sep x y r :
  PyText.join sep (x :: y :: r) = (x ++ sep ++ PyText.join sep (y :: r))%string.
Proof. reflexivity. Qed.

Lemma visible_join_part sep parts x :
  In x parts -> visible x = true -> visible (PyText.join sep parts) = true.
Proof.
  unfold visible. intros Hin Hx. apply negb_true_iff in Hx. apply negb_true_iff.
  induction parts as [|y parts IH]; [destruct Hin|].
  destruct parts as [|z parts].
  - destruct Hin as [->|[]]. exact Hx.
  - rewrite join_cons, !chars_app, !forallb_app.
    destruct Hin as [->|Hin]; [now rewrite Hx|].
    rewrite (IH Hin). now rewrite !andb_false_r.
Qed.

Lemma join_nil_iff sep parts :
  Forall (fun x => x <> "") parts -> (PyText.join sep parts = "" <-> parts = []).
Proof.
  intros H. destruct parts as [|y parts]; [easy|]. split; [|discriminate].
  inversion H; subst. destruct parts as [|z parts]; [now cbn|].
  rewrite join_cons. intros E. destruct y; [contradiction|discriminate].
Qed.

(** The text [get_text(sep, strip=True)] gives is empty or visible. *)
Lemma get_text_strip_visible sep el :
  Soup.get_text_strip sep el <> "" -> visible (Soup.get_text_strip sep el) = true.
Proof.
  unfold Soup.get_text_strip. intros H.
  set (parts := List.filter PyText.nonempty (map PyStr.strip (Soup.strings_of el))) in *.
  destruct parts as [|x parts'] eqn:E; [contradiction|].
  assert (Hx : In x parts) by (rewrite E; now left).
  apply (visible_join_part sep _ x); [now rewrite <- E|].
  unfold parts in Hx. apply List.filter_In in Hx as [Hx Hne].
  apply in_map_iff in Hx as (s & <- & _). apply visible_strip. now apply nonempty_iff.
Qed.

Lemma chars_join_empty parts :
  PyStr.chars (PyText.join "" parts) = concat (map PyStr.chars parts).
Proof.
  induction parts as [|x parts IH]; [reflexivity|].
  destruct parts as [|y parts].
  - cbn. now rewrite app_nil_r.
  - rewrite join_cons, !chars_app, IH. reflexivity.
Qed.

(** When the raw text of an element is visible, so is its stripped text. *)
Lemma get_text_visible sep el :
  visible (Soup.get_text el) = true -> Soup.get_text_strip sep el <> "".
Proof.
  unfold Soup.get_text, Soup.get_text_strip, visible.
  rewrite chars_join_empty, negb_true_iff. intros H.
  assert (Hex : exists s, In s (Soup.strings_of el) /\ visible s = true).
  { induction (Soup.strings_of el) as [|s l IH]; [discriminate|].
    cbn [map concat] in H. rewrite forallb_app in H.
    destruct (forallb PyStr.isspace (PyStr.chars s)) eqn:Hs.
    - destruct (IH H) as (x & Hx & Hv). exists x. split; [now right|exact Hv].
    - exists s. split; [now left|]. unfold visible. now rewrite Hs. }
  destruct Hex as (s & Hs & Hv).
  assert (Hne : PyStr.strip s <> "").
  { unfold PyStr.strip. rewrite str_nil, strip_by_nil. unfold visible in Hv.
    apply negb_true_iff in Hv. congruence. }
  intros E. apply join_nil_iff in E.
  - assert (Hin : In (PyStr.strip s)
                    (List.filter PyText.nonempty (map PyStr.strip (Soup.strings_of el)))).
    { apply List.filter_In. split; [now apply in_map|now apply nonempty_iff]. }
    rewrite E in Hin. destruct Hin.
  - apply List.Forall_forall. intros x Hx. apply List.filter_In in Hx as [_ Hx].
    now apply nonempty_iff.
Qed.

(** ** The blocks [extract_blocks] can return *)

(** The six variants of a block as [extract_blocks] builds them: the fields
    of one variant only, text that is visible, levels 1..5, lists with at
    least one item. *)
Inductive extracted_block : ContentBlock -> Prop :=
| XHeading lv txt :
    (1 <= lv <= 5)%Z -> visible txt = true -> normalize_ws txt = txt ->
    extracted_block (heading_block lv txt)
| XParagraph txt :
    visible txt = true -> normalize_ws txt = txt ->
    extracted_block (paragraph_block txt)
| XList its :
    its <> [] ->
    Forall (fun i => visible i = true /\ normalize_ws i = i) its ->
    extracted_block (list_block its)
| XQuote txt :
    visible txt = true -> normalize_ws txt = txt -> extracted_block (quote_block txt)
| XCode txt :
    visible txt = true -> extracted_block (code_block txt)
| XImage s a :
    a <> Some "" -> extracted_block (image_block s a).

Section ExtractedBlocks.

Variable urljoin : string -> string -> string.
Variable base_url : string.

Local Abbreviation step := (extract_step urljoin base_url).

Lemma normalized_text_cases s :
  PyText.nonempty (normalize_ws s) = true ->
  visible (normalize_ws s) = true /\ normalize_ws (normalize_ws s) = normalize_ws s.
Proof.
  intros H. apply nonempty_iff in H. split;
    [now apply visible_normalized|apply normalize_ws_fixed_idem].
Qed.

Lemma extracted_append b st :
  extracted_block b -> Forall extracted_block (fst st) ->
  Forall extracted_block (fst (append_block b st)).
Proof.
  intros Hb H. unfold append_block. cbn [fst]. apply Forall_app. split; [exact H|].
  now constructor.
Qed.

Lemma py_or_not_empty a : py_or a None <> Some "".
Proof.
  unfold py_or. destruct a as [s|]; [|discriminate].
  destruct (PyText.nonempty s) eqn:E; [|discriminate].
  apply nonempty_iff in E. congruence.
Qed.

Lemma extracted_add_image img st :
  Forall extracted_block (fst st) ->
  Forall extracted_block (fst (add_image urljoin base_url img st)).
Proof.
  intros H. unfold add_image. destruct (py_or _ _); [|exact H]. cbn [fst].
  apply Forall_app. split; [exact H|]. constructor; [|constructor].
  constructor. apply py_or_not_empty.
Qed.

Lemma extracted_add_images imgs st :
  Forall extracted_block (fst st) ->
  Forall extracted_block
    (fst (fold_left (fun s i => add_image urljoin base_url i s) imgs st)).
Proof.
  revert st. induction imgs as [|i imgs IH]; intros st H; [exact H|].
  cbn [fold_left]. now apply IH, extracted_add_image.
Qed.

Lemma list_items_visible el :
  Forall (fun i => visible i = true /\ normalize_ws i = i) (list_items el).
Proof.
  unfold list_items. apply List.Forall_forall. intros i Hi.
  apply in_map_iff in Hi as (li & <- & Hli). apply List.filter_In in Hli as [_ Hli].
  apply nonempty_iff, visible_normalize_ws in Hli.
  apply normalized_text_cases, nonempty_iff, visible_normalize_ws.
  apply get_text_strip_visible. now apply get_text_visible.
Qed.

Lemma pre_text_visible el :
  PyText.nonempty (pre_text el) = true -> visible (pre_text el) = true.
Proof.
  unfold pre_text. intros H. apply nonempty_iff in H.
  unfold visible. rewrite chars_str, forallb_strip_sub.
  - apply get_text_strip_visible. intros E. apply H. now rewrite E.
  - intros c Hc. unfold nl_char in Hc. apply is_nl_eq in Hc. now subst c.
Qed.

End ExtractedBlocks.

Lemma extracted_step urljoin base_url st el :
  Soup.named block_tags el = true ->
  Forall extracted_block (fst st) ->
  Forall extracted_block (fst (extract_step urljoin base_url st el)).
Proof.
  intros Hn H. apply named_block_tags in Hn as (nm & a & cs & -> & Hin).
  assert (Hhead : forall lv, In (nm, lv) heading_levels -> (1 <= lv <= 5)%Z ->
            Forall extracted_block
              (fst (extract_step urljoin base_url st (Tag nm a cs)))).
  { intros lv Hlv Hr. rewrite (extract_step_heading urljoin base_url nm lv st a cs Hlv).
    destruct (PyText.nonempty _) eqn:E; [|exact H].
    apply extracted_append; [|exact H].
    destruct (normalized_text_cases _ E). now constructor. }
  unfold block_tags in Hin. repeat (destruct Hin as [<-|Hin]).
  - apply (Hhead 1%Z); [simpl; tauto|lia].
  - apply (Hhead 2%Z); [simpl; tauto|lia].
  - apply (Hhead 3%Z); [simpl; tauto|lia].
  - apply (Hhead 4%Z); [simpl; tauto|lia].
  - apply (Hhead 5%Z); [simpl; tauto|lia].
  - rewrite extract_step_p. cbv zeta.
    destruct (_ && _); [now apply extracted_add_images|].
    destruct (PyText.nonempty _) eqn:E; [|exact H].
    apply extracted_append; [|exact H].
    destruct (normalized_text_cases _ E). now constructor.
  - rewrite (extract_step_list urljoin base_url "ul") by auto.
    destruct (negb _) eqn:E; [|exact H]. apply extracted_append; [|exact H].
    constructor; [|apply list_items_visible]. intros E0. now rewrite E0 in E.
  - rewrite (extract_step_list urljoin base_url "ol") by auto.
    destruct (negb _) eqn:E; [|exact H]. apply extracted_append; [|exact H].
    constructor; [|apply list_items_visible]. intros E0. now rewrite E0 in E.
  - rewrite extract_step_blockquote.
    destruct (PyText.nonempty _) eqn:E; [|exact H].
    apply extracted_append; [|exact H].
    destruct (normalized_text_cases _ E). now constructor.
  - rewrite extract_step_pre.
    destruct (PyText.nonempty _) eqn:E; [|exact H].
    apply extracted_append; [|exact H]. constructor. now apply pre_text_visible.
  - rewrite extract_step_img. now apply extracted_add_image.
  - destruct Hin.
Qed.

Lemma extracted_blocks urljoin container base_url :
  Forall extracted_block (fst (extract_blocks urljoin container base_url)).
Proof.
  unfold extract_blocks, Soup.find_all.
  assert (H : Forall extracted_block (fst (([], []) : extraction))) by constructor.
  revert H. generalize (([], []) : extraction) as st.
  assert (Hall : Forall (fun el => Soup.named block_tags el = true)
                   (List.filter (Soup.named block_tags) (Soup.descendants container))).
  { apply List.Forall_forall. intros el Hel. now apply List.filter_In in Hel. }
  induction Hall as [|el l Hel _ IH]; intros st H; [exact H|].
  cbn [fold_left]. apply IH. now apply extracted_step.
Qed.

(** X7. Every block [extract_blocks] returns is one of the six variants with
    the fields of that variant only: a heading has a level from 1 to 5 and
    visible, normalized text; a paragraph and a quote have visible,
    normalized text; a list has at least one item and every item is visible
    and normalized; a code block has visible text; an image has a source
    and an [alt] that is absent or non-empty. *)
Theorem extract_blocks_well_formed
    (urljoin : string -> string -> string) (container : node) (base_url : string)
    (b : ContentBlock) :
  In b (fst (extract_blocks urljoin container base_url)) ->
  (exists lv txt, b = heading_block lv txt /\ (1 <= lv <= 5)%Z
                  /\ visible txt = true /\ normalize_ws txt = txt)
  \/ (exists txt, b = paragraph_block txt /\ visible txt = true /\ normalize_ws txt = txt)
  \/ (exists its, b = list_block its /\ its <> []
                  /\ forall i, In i its -> visible i = true /\ normalize_ws i = i)
  \/ (exists txt, b = quote_block txt /\ visible txt = true /\ normalize_ws txt = txt)
  \/ (exists txt, b = code_block txt /\ visible txt = true)
  \/ (exists s a, b = image_block s a /\ a <> Some "").
Proof.
  intros Hin.
  pose proof (extracted_blocks urljoin container base_url) as H.
  rewrite List.Forall_forall in H. destruct (H b Hin).
  - left. eauto 8.
  - right. left. eauto 8.
  - right. right. left. exists its. repeat split; try assumption;
      now apply (proj1 (List.Forall_forall _ _) H1).
  - right. right. right. left. eauto 8.
  - right. right. right. right. left. eauto.
  - right. right. right. right. right. eauto.
Qed.

Lemma extract_blocks_well_formed_witness :
  (exists lv txt, paragraph_block "Hello world" = heading_block lv txt /\ (1 <= lv <= 5)%Z
                  /\ visible txt = true /\ normalize_ws txt = txt)
  \/ (exists txt, paragraph_block "Hello world" = paragraph_block txt
                  /\ visible txt = true /\ normalize_ws txt = txt)
  \/ (exists its, paragraph_block "Hello world" = list_block its /\ its <> []
                  /\ forall i, In i its -> visible i = true /\ normalize_ws i = i)
  \/ (exists txt, paragraph_block "Hello world" = quote_block txt
                  /\ visible txt = true /\ normalize_ws txt = txt)
  \/ (exists txt, paragraph_block "Hello world" = code_block txt /\ visible txt = true)
  \/ (exists s a, paragraph_block "Hello world" = image_block s a /\ a <> Some "").
Proof.
  exact (extract_blocks_well_formed (fun base url => url)
           (Tag "main" [] [Tag "p" [] [Text " Hello   world "]; Tag "p" [] [Text "  "]])
           "http://example.org/" (paragraph_block "Hello world") (or_introl eq_refl)).
Defined.

(** ** [blocks_to_text] *)

Definition truthy (o : option string) : bool :=
  match o with Some s => PyText.nonempty s | None => false end.

Definition text_or_empty (o : option string) : string :=
  match o with Some s => s | None => "" end.

(** What one block adds to [parts]. *)
Definition text_parts (b : ContentBlock) : list string :=
  if existsb (String.eqb (type b)) ["heading"; "paragraph"; "quote"] && truthy (text b)
  then [text_or_empty (text b)]
  else if String.eqb (type b) "list"
          && match items b with Some (_ :: _) => true | _ => false end
  then map (fun i => "- " ++ i)%string (match items b with Some l => l | None => [] end)
  else if String.eqb (type b) "code" && truthy (text b)
  then [text_or_empty (text b)]
  else [].

Definition blocks_to_text (blocks : list ContentBlock) : string :=
  normalize_ws (PyText.join (String PyStr.nl "") (flat_map text_parts blocks)).

Lemma visible_false_join sep parts :
  visible sep = false ->
  visible (PyText.join sep parts) = false ->
  forall x, In x parts -> visible x = false.
Proof.
  intros Hsep H x Hx. destruct (visible x) eqn:E; [|reflexivity].
  now rewrite (visible_join_part sep parts x Hx E) in H.
Qed.

Lemma text_parts_visible b :
  extracted_block b -> is_type "image" b = false ->
  exists x, In x (text_parts b) /\ visible x = true.
Proof.
  intros H Hi. destruct H as [lv txt _ Hv _|txt Hv _|its Hne Hall|txt Hv _|txt Hv|s a _].
  - exists txt. unfold text_parts. cbn. rewrite (proj2 (nonempty_iff txt)); [|now apply visible_nonempty].
    split; [now left|exact Hv].
  - exists txt. unfold text_parts. cbn. rewrite (proj2 (nonempty_iff txt)); [|now apply visible_nonempty].
    split; [now left|exact Hv].
  - destruct its as [|i its]; [contradiction|].
    exists ("- " ++ i)%string. unfold text_parts. cbn. split; [now left|reflexivity].
  - exists txt. unfold text_parts. cbn. rewrite (proj2 (nonempty_iff txt)); [|now apply visible_nonempty].
    split; [now left|exact Hv].
  - exists txt. unfold text_parts. cbn. rewrite (proj2 (nonempty_iff txt)); [|now apply visible_nonempty].
    split; [now left|exact Hv].
  - discriminate.
Qed.

Lemma text_parts_image b : is_type "image" b = true -> text_parts b = [].
Proof.
  unfold is_type, text_parts. intros H. apply String.eqb_eq in H. now rewrite H.
Qed.

Lemma blocks_to_text_skips_images blocks :
  blocks_to_text (List.filter (fun b => negb (is_type "image" b)) blocks)
  = blocks_to_text blocks.
Proof.
  unfold blocks_to_text. do 2 f_equal.
  induction blocks as [|b blocks IH]; [reflexivity|]. cbn [List.filter flat_map].
  destruct (is_type "image" b) eqn:E; cbn [negb flat_map].
  - now rewrite (text_parts_image b E).
  - now rewrite IH.
Qed.

Lemma blocks_to_text_empty_iff blocks :
  Forall extracted_block blocks ->
  (blocks_to_text blocks = "" <-> forallb (is_type "image") blocks = true).
Proof.
  intros Hwf. unfold blocks_to_text. split.
  - intros H. destruct (forallb (is_type "image") blocks) eqn:E; [reflexivity|].
    exfalso. assert (Hex : exists b, In b blocks /\ is_type "image" b = false).
    { clear -E. induction blocks as [|b l IH]; [discriminate|]. cbn in E.
      destruct (is_type "image" b) eqn:Eb.
      - destruct (IH E) as (x & Hx & Hv). exists x. split; [now right|exact Hv].
      - exists b. split; [now left|exact Eb]. }
    destruct Hex as (b & Hb & Hi). rewrite List.Forall_forall in Hwf.
    destruct (text_parts_visible b (Hwf b Hb) Hi) as (x & Hx & Hv).
    assert (Hj : visible (PyText.join (String PyStr.nl "") (flat_map text_parts blocks)) = true).
    { apply (visible_join_part _ _ x); [|exact Hv]. apply in_flat_map. now exists b. }
    apply visible_normalize_ws in Hj. contradiction.
  - intros H. assert (E : flat_map text_parts blocks = []).
    { clear -H. induction blocks as [|b l IH]; [reflexivity|]. cbn in H.
      apply andb_true_iff in H as [Hb Hl]. cbn [flat_map].
      now rewrite (text_parts_image b Hb), (IH Hl). }
    rewrite E. reflexivity.
Qed.

(** X8. [blocks_to_text] does not read image blocks: leaving them out gives
    the same text.  On the blocks that [extract_blocks] returns, the text
    is empty exactly when every block is an image (or there is none), so a
    page with one heading, paragraph, list, quote or code block never falls
    back to the text of the whole document. *)
Theorem blocks_to_text_images
    (urljoin : string -> string -> string) (container : node) (base_url : string) :
  (forall blocks,
     blocks_to_text (List.filter (fun b => negb (is_type "image" b)) blocks)
     = blocks_to_text blocks)
  /\ let blocks := fst (extract_blocks urljoin container base_url) in
     (blocks_to_text blocks = "" <-> forallb (is_type "image") blocks = true).
Proof.
  split; [apply blocks_to_text_skips_images|].
  apply blocks_to_text_empty_iff, extracted_blocks.
Qed.

(** ** [discover_sitemaps] *)

Module Lines.

(** The line boundaries of [str.splitlines()] below code point 256. *)
Definition is_linebreak (c : ascii) : bool :=
  let n := PyStr.code c in
  ((10 <=? n) && (n <=? 13) || (28 <=? n) && (n <=? 30) || (n =? 133))%N.

Definition is_cr (c : ascii) : bool := (PyStr.code c =? 13)%N.

(** [s.splitlines()]: [cur] is the line begun, [after_cr] tells that the
    last character was a carriage return, whose line feed is skipped. *)
Fixpoint splitlines_from (after_cr : bool) (cur l : list ascii) : list (list ascii) :=
  match l with
  | [] => match cur with [] => [] | _ => [cur] end
  | c :: r =>
      if after_cr && PyStr.is_nl c then splitlines_from false cur r
      else if is_linebreak c then cur :: splitlines_from (is_cr c) [] r
      else splitlines_from false (cur ++ [c]) r
  end.

Definition splitlines (s : string) : list string :=
  map PyStr.str (splitlines_from false [] (PyStr.chars s)).

(** [line.split(":", 1)[1]] for a line that has a colon. *)
Definition after_colon (line : string) : string :=
  PyStr.str (tl (snd (RefUrl.break (RefUrl.is_char ":") (PyStr.chars line)))).

End Lines.

(** [list(dict.fromkeys(l))]: the first occurrence of each value, in order. *)
Definition dedupe (l : list string) : list string :=
  fold_left (fun acc x => if existsb (String.eqb x) acc then acc else acc ++ [x]) l [].

Section Discover.

Variable urljoin : string -> string -> string.

(** The [Sitemap:] lines of a robots.txt body. *)
Definition sitemap_directives (robots_txt : string) : list string :=
  map (fun line => PyStr.strip (Lines.after_colon line))
      (List.filter (fun line => PyText.startswith (PyText.lower line) "sitemap:")
                   (Lines.splitlines robots_txt)).

(** [robots]: the body of [/robots.txt] when the request succeeded with an
    ok status, [None] when it raised or the status was not ok. *)
Definition discover_sitemaps (base : string) (robots : option string) : list string :=
  let sitemaps := match robots with Some txt => sitemap_directives txt | None => [] end in
  dedupe (sitemaps ++ [urljoin base "/sitemap_index.xml"; urljoin base "/sitemap.xml"]).

End Discover.

Lemma existsb_eqb_In (x : string) (l : list string) :
  existsb (String.eqb x) l = true <-> In x l.
Proof.
  rewrite existsb_exists. split.
  - intros (y & Hy & E). apply String.eqb_eq in E. now subst.
  - intros H. exists x. split; [exact H|apply String.eqb_refl].
Qed.

Lemma nodup_snoc (l : list string) (x : string) :
  List.NoDup l -> ~ In x l -> List.NoDup (l ++ [x]).
Proof.
  induction l as [|y l IH]; intros Hnd Hx.
  - constructor; [intros []|constructor].
  - inversion Hnd; subst. cbn [app]. constructor.
    + rewrite in_app_iff. intros [H|[H|[]]]; [tauto|]. subst. apply Hx. now left.
    + apply IH; [assumption|]. intros H. apply Hx. now right.
Qed.

Lemma dedupe_from_spec l acc :
  List.NoDup acc ->
  let r := fold_left (fun acc x => if existsb (String.eqb x) acc then acc else acc ++ [x])
                     l acc in
  List.NoDup r /\ (forall x, In x r <-> In x acc \/ In x l) /\ exists ext, r = acc ++ ext.
Proof.
  revert acc. induction l as [|y l IH]; intros acc Hnd; cbn [fold_left].
  - split; [exact Hnd|]. split; [intros x; cbn; tauto|]. exists []. now rewrite app_nil_r.
  - destruct (existsb (String.eqb y) acc) eqn:E.
    + apply existsb_eqb_In in E. destruct (IH acc Hnd) as (H1 & H2 & H3).
      split; [exact H1|]. split; [|exact H3].
      intros x. rewrite H2. cbn. split; [tauto|]. intros [H|[<-|H]]; tauto.
    + assert (Hy : ~ In y acc).
      { intros H. apply existsb_eqb_In in H. congruence. }
      destruct (IH (acc ++ [y])) as (H1 & H2 & ext & H3).
      { apply nodup_snoc; assumption. }
      split; [exact H1|]. split.
      * intros x. rewrite H2, in_app_iff. cbn. tauto.
      * exists (y :: ext). rewrite H3, <- app_assoc. reflexivity.
Qed.

(** X9. The candidate list of [discover_sitemaps] has no duplicates, always
    holds the two well-known locations, holds every [Sitemap:] value of
    robots.txt and nothing else, and keeps the first value of robots.txt (or
    the first well-known location when there is none) in front.  Without a
    readable robots.txt it holds the well-known locations only. *)
Theorem discover_sitemaps_candidates
    (urljoin : string -> string -> string) (base : string) (robots : option string) :
  let r := discover_sitemaps urljoin base robots in
  let index := urljoin base "/sitemap_index.xml" in
  let plain := urljoin base "/sitemap.xml" in
  let declared := match robots with
                  | Some txt => sitemap_directives txt
                  | None => []
                  end in
  List.NoDup r
  /\ (forall x, In x r <-> In x declared \/ x = index \/ x = plain)
  /\ hd_error r = Some (hd index declared)
  /\ (robots = None -> r = if String.eqb index plain then [index] else [index; plain]).
Proof.
  intros r index plain declared. subst r. unfold discover_sitemaps.
  fold declared index plain. unfold dedupe.
  destruct (dedupe_from_spec (declared ++ [index; plain]) [] (List.NoDup_nil _))
    as (H1 & H2 & _).
  split; [exact H1|]. split; [|split].
  - intros x. rewrite H2, in_app_iff. cbn. intuition congruence.
  - assert (Hhd : forall x l, hd_error (dedupe (x :: l)) = Some x).
    { intros x l. unfold dedupe. cbn [fold_left existsb app].
      destruct (dedupe_from_spec l [x]) as (_ & _ & ext & ->);
        [repeat constructor; intros []|reflexivity]. }
    fold (dedupe (declared ++ [index; plain])).
    destruct declared as [|d ds]; apply Hhd.
  - intros ->. subst declared. cbn. rewrite String.eqb_sym.
    now destruct (String.eqb index plain).
Qed.

Lemma discover_sitemaps_candidates_witness :
  discover_sitemaps (fun base url => (base ++ url)%string) "https://www.focode.org" None
  = ["https://www.focode.org/sitemap_index.xml"; "https://www.focode.org/sitemap.xml"].
Proof.
  exact (proj2 (proj2 (proj2 (discover_sitemaps_candidates
                                (fun base url => (base ++ url)%string)
                                "https://www.focode.org" None))) eq_refl).
Defined.

Example discover_sitemaps_robots :
  discover_sitemaps (fun base url => (base ++ url)%string) "https://www.focode.org"
    (Some (PyText.join (String (ascii_of_N 13) (String PyStr.nl ""))
             ["User-agent: *";
              "SITEMAP:  https://www.focode.org/sitemap.xml ";
              "Sitemap: https://www.focode.org/news.xml";
              "sitemap:https://www.focode.org/news.xml";
              "Disallow: /sitemap:"]))
  = ["https://www.focode.org/sitemap.xml"; "https://www.focode.org/news.xml";
     "https://www.focode.org/sitemap_index.xml"].
Proof. reflexivity. Qed.

(** ** The frontier as a queue *)

Section FrontierOrder.

Variable urlparse : string -> ParseResult.
Variable urldefrag : string -> string * string.
Variable allowed_re_match : string -> bool.
Variable rp : option (string -> string -> bool).
Variable user_agent : string.
Variable start_url : string.

Local Abbreviation enq := (enqueue urlparse urldefrag allowed_re_match rp user_agent start_url).
Local Abbreviation run_op := (apply_op urlparse urldefrag allowed_re_match rp user_agent start_url).
Local Abbreviation all_entries :=
  (entries urlparse urldefrag allowed_re_match rp user_agent start_url).
Local Abbreviation admitted := (admissible urlparse allowed_re_match rp user_agent start_url).

(** The URLs taken from the queue by a sequence of operations, in order. *)
Fixpoint dequeued (ops : list op) (st : Frontier) : list string :=
  match ops with
  | [] => []
  | o :: r =>
      match o with Popleft => firstn 1 (queue st) | Enqueue _ => [] end
      ++ dequeued r (run_op st o)
  end.

(** What [enqueue] does, in two cases. *)
Lemma enqueue_cases st u :
  let d := fst (urldefrag u) in
  (enq st u = st /\ (admitted d = false \/ d ∈ seen st))
  \/ (enq st u = {| queue := queue st ++ [d]; seen := {[d]} ∪ seen st |}
      /\ admitted d = true /\ d ∉ seen st).
Proof.
  intros d. destruct (admitted d) eqn:Ha.
  - destruct (decide (d ∈ seen st)) as [Hs|Hs].
    + left. split; [now apply enqueue_seen|now right].
    + right. split; [now apply enqueue_fresh|now split].
  - left. split; [now apply enqueue_inadmissible|now left].
Qed.

Lemma entries_dequeued ops st :
  queue st ++ all_entries ops st = dequeued ops st ++ queue (fold_left run_op ops st).
Proof.
  revert st. induction ops as [|o ops IH]; intros st.
  - cbn. now rewrite app_nil_r.
  - cbn [entries dequeued fold_left]. rewrite <- app_assoc, <- IH.
    destruct o as [u|].
    + rewrite appended_enqueue. cbv zeta. cbn [apply_op app].
      destruct (enqueue_cases st u) as [[E H]|(E & Ha & Hs)]; rewrite E.
      * destruct H as [H|H].
        -- now rewrite H.
        -- rewrite (bool_decide_eq_true_2 _ H), andb_false_r. reflexivity.
      * rewrite Ha, (bool_decide_eq_false_2 _ Hs). cbn [andb negb queue].
        now rewrite <- app_assoc.
    + cbn [appended apply_op app]. unfold popleft. cbn [queue].
      destruct (queue st); reflexivity.
Qed.

Lemma admissible_checks d :
  admitted d = true ->
  d <> "" /\ is_http_url urlparse d = true /\ same_site urlparse d start_url = true
  /\ allowed_re_match (path (urlparse d)) = true
  /\ (forall can_fetch, rp = Some can_fetch -> can_fetch user_agent d = true).
Proof.
  unfold admissible. intros H. apply andb_true_iff in H as [Hne H].
  apply nonempty_iff in Hne. rewrite allowed_short_circuit in H. cbn [fst] in H.
  unfold policy in H. cbn [app forallb check_result] in H.
  repeat (apply andb_true_iff in H as [? H]). rewrite forallb_forall in H.
  repeat split; try assumption.
  intros can_fetch E. specialize (H CkRobots). rewrite E in H.
  apply H. now left.
Qed.

End FrontierOrder.

(** X10. Over any sequence of enqueue and dequeue operations from the empty
    frontier, the queue is first-in first-out: the entries ever made are the
    URLs already dequeued, in that order, followed by the present queue.
    The seen-set is exactly the set of the entries ever made, so it never
    loses a URL, and the queue holds no URL twice and only URLs of the
    seen-set. *)
Theorem frontier_fifo
    (urlparse : string -> ParseResult) (urldefrag : string -> string * string)
    (allowed_re_match : string -> bool) (rp : option (string -> string -> bool))
    (user_agent start_url : string) (ops : list op) :
  let st := fold_left (apply_op urlparse urldefrag allowed_re_match rp user_agent start_url)
                      ops empty_frontier in
  let made := entries urlparse urldefrag allowed_re_match rp user_agent start_url
                ops empty_frontier in
  made = dequeued urlparse urldefrag allowed_re_match rp user_agent start_url
           ops empty_frontier ++ queue st
  /\ (forall x, x ∈ seen st <-> In x made)
  /\ List.NoDup (queue st)
  /\ (forall x, In x (queue st) -> x ∈ seen st).
Proof.
  intros st made.
  pose proof (entries_dequeued urlparse urldefrag allowed_re_match rp user_agent
                start_url ops empty_frontier) as Hfifo.
  cbn [queue empty_frontier app] in Hfifo. fold st made in Hfifo.
  pose proof (frontier_inv_run urlparse urldefrag allowed_re_match rp user_agent
                start_url ops _ _
                (frontier_inv_empty urlparse allowed_re_match rp user_agent start_url))
    as (Hseen & Hnd & _).
  cbn [app] in Hseen, Hnd. fold st made in Hseen, Hnd.
  split; [exact Hfifo|]. split; [exact Hseen|]. split.
  - rewrite Hfifo in Hnd. now apply NoDup_app_remove_l in Hnd.
  - intros x Hx. apply Hseen. rewrite Hfifo. apply in_app_iff. now right.
Qed.

Lemma frontier_fifo_witness :
  "https://www.focode.org/focode/b"
  ∈ seen (fold_left (apply_op RefUrl.urlparse RefUrl.urldefrag default_allowed_path_match
                       None "Mozilla/5.0" "https://www.focode.org/")
            [Enqueue "https://www.focode.org/focode/a#top";
             Enqueue "https://www.focode.org/focode/b"; Popleft]
            empty_frontier).
Proof.
  exact (proj2 (proj2 (proj2 (frontier_fifo RefUrl.urlparse RefUrl.urldefrag
                                default_allowed_path_match None "Mozilla/5.0"
                                "https://www.focode.org/"
                                [Enqueue "https://www.focode.org/focode/a#top";
                                 Enqueue "https://www.focode.org/focode/b"; Popleft])))
           "https://www.focode.org/focode/b" (or_introl eq_refl)).
Defined.

(** X11. Every URL that is ever entered in the queue or in the seen-set is
    non-empty, has scheme http or https, has the start URL's network
    location up to case, has a path the allow-pattern matches, and is
    granted by the robots policy when there is one. *)
Theorem frontier_admitted_only
    (urlparse : string -> ParseResult) (urldefrag : string -> string * string)
    (allowed_re_match : string -> bool) (rp : option (string -> string -> bool))
    (user_agent start_url : string) (ops : list op) (x : string) :
  let st := fold_left (apply_op urlparse urldefrag allowed_re_match rp user_agent start_url)
                      ops empty_frontier in
  x ∈ seen st \/ In x (queue st) ->
  x <> ""
  /\ (scheme (urlparse x) = "http" \/ scheme (urlparse x) = "https")
  /\ PyText.lower (netloc (urlparse x)) = PyText.lower (netloc (urlparse start_url))
  /\ allowed_re_match (path (urlparse x)) = true
  /\ (forall can_fetch, rp = Some can_fetch -> can_fetch user_agent x = true).
Proof.
  intros st H.
  pose proof (entries_dequeued urlparse urldefrag allowed_re_match rp user_agent
                start_url ops empty_frontier) as Hfifo.
  cbn [queue empty_frontier app] in Hfifo. fold st in Hfifo.
  pose proof (frontier_inv_run urlparse urldefrag allowed_re_match rp user_agent
                start_url ops _ _
                (frontier_inv_empty urlparse allowed_re_match rp user_agent start_url))
    as (Hseen & _ & Hadm).
  cbn [app] in Hseen, Hadm. fold st in Hseen.
  assert (Hin : In x (entries urlparse urldefrag allowed_re_match rp user_agent
                        start_url ops empty_frontier)).
  { destruct H as [H|H]; [now apply Hseen|].
    rewrite Hfifo. apply in_app_iff. now right. }
  apply Hadm, admissible_checks in Hin as (H1 & H2 & H3 & H4 & H5).
  split; [exact H1|]. split; [|split; [|split; assumption]].
  - unfold is_http_url in H2. cbn [existsb] in H2.
    rewrite orb_false_r in H2. apply orb_true_iff in H2 as [E|E];
      apply String.eqb_eq in E; auto.
  - unfold same_site in H3. now apply String.eqb_eq in H3.
Qed.

Lemma frontier_admitted_only_witness :
  scheme (RefUrl.urlparse "https://www.focode.org/focode/a") = "http"
  \/ scheme (RefUrl.urlparse "https://www.focode.org/focode/a") = "https".
Proof.
  exact (proj1 (proj2 (frontier_admitted_only RefUrl.urlparse RefUrl.urldefrag
                         default_allowed_path_match None "Mozilla/5.0"
                         "https://www.focode.org/"
                         [Enqueue "https://www.focode.org/focode/a#top";
                          Enqueue "mailto:info@focode.org"]
                         "https://www.focode.org/focode/a"
                         (or_intror (or_introl eq_refl))))).
Defined.

(** X12. Enqueueing the same URL twice in a row is the same as enqueueing it
    once, and [enqueue] never removes or reorders what the queue holds: the
    old queue is the front of the new one, with at most one URL behind it. *)
Theorem enqueue_idempotent
    (urlparse : string -> ParseResult) (urldefrag : string -> string * string)
    (allowed_re_match : string -> bool) (rp : option (string -> string -> bool))
    (user_agent start_url : string) (st : Frontier) (u : string) :
  let enqueue := enqueue urlparse urldefrag allowed_re_match rp user_agent start_url in
  enqueue (enqueue st u) u = enqueue st u
  /\ (queue (enqueue st u) = queue st
      \/ queue (enqueue st u) = queue st ++ [fst (urldefrag u)])
  /\ seen st ⊆ seen (enqueue st u).
Proof.
  intros enq.
  destruct (enqueue_cases urlparse urldefrag allowed_re_match rp user_agent start_url st u)
    as [[E H]|(E & Ha & Hs)]; unfold enq; rewrite E.
  - split; [exact E|]. split; [now left|reflexivity].
  - split; [|split; [now right|cbn [seen]; set_solver]].
    apply enqueue_seen. cbn [seen]. set_solver.
Qed.

(** ** Seeding and the crawl loop on the real frontier *)

Section CrawlFrontier.

Variable urlparse : string -> ParseResult.
Variable urldefrag : string -> string * string.
Variable allowed_re_match : string -> bool.
Variable rp : option (string -> string -> bool).
Variable user_agent : string.
Variable start_url : string.

Local Abbreviation enq := (enqueue urlparse urldefrag allowed_re_match rp user_agent start_url).
Local Abbreviation admitted := (admissible urlparse allowed_re_match rp user_agent start_url).

(** The URLs handed to the loop so far ([visited]) and the ones waiting are
    all different and all in the seen-set. *)
Definition loop_inv (fr : Frontier) (visited : list string) : Prop :=
  List.NoDup (visited ++ queue fr) /\ forall x, In x (visited ++ queue fr) -> x ∈ seen fr.

Lemma loop_inv_enqueue fr visited u :
  loop_inv fr visited -> loop_inv (enq fr u) visited.
Proof.
  intros [Hnd Hin].
  destruct (enqueue_cases urlparse urldefrag allowed_re_match rp user_agent start_url fr u)
    as [[E _]|(E & _ & Hs)]; rewrite E; [now split|].
  cbn zeta in Hs. split; cbn [queue seen].
  - rewrite app_assoc. apply nodup_snoc; [exact Hnd|]. intros H. apply Hs. now apply Hin.
  - intros x Hx. rewrite app_assoc in Hx. apply in_app_iff in Hx as [Hx|[<-|[]]].
    + apply elem_of_union. right. now apply Hin.
    + apply elem_of_union. left. now apply elem_of_singleton.
Qed.

Lemma loop_inv_enqueue_all links fr visited :
  loop_inv fr visited -> loop_inv (fold_left enq links fr) visited.
Proof.
  revert fr. induction links as [|u links IH]; intros fr H; [exact H|].
  cbn [fold_left]. now apply IH, loop_inv_enqueue.
Qed.

Lemma loop_inv_pop url q s visited :
  loop_inv {| queue := url :: q; seen := s |} visited ->
  loop_inv {| queue := q; seen := s |} (visited ++ [url]).
Proof.
  unfold loop_inv. cbn [queue seen]. now rewrite <- app_assoc.
Qed.

Lemma seen_enqueue_all links fr : seen fr ⊆ seen (fold_left enq links fr).
Proof.
  revert fr. induction links as [|u links IH]; intros fr; [reflexivity|].
  cbn [fold_left]. etransitivity; [|apply IH].
  destruct (enqueue_cases urlparse urldefrag allowed_re_match rp user_agent start_url fr u)
    as [[E _]|(E & _ & _)]; rewrite E; [reflexivity|cbn [seen]; set_solver].
Qed.

(** The records a list of visited URLs gives, in order. *)
Definition records_of (visit : string -> PageOutcome) (visited : list string)
  : list Page.PageRecord :=
  flat_map (fun u => match visit u with PageDone _ r => [r] | _ => [] end) visited.

Lemma crawl_loop_inv visit budget fr records visited :
  loop_inv fr visited ->
  let r := crawl_loop visit enq budget fr records visited in
  loop_inv (loop_frontier r) (loop_visited r)
  /\ seen fr ⊆ seen (loop_frontier r)
  /\ (length (loop_records r) <= length records + budget)%nat
  /\ exists more, loop_visited r = visited ++ more
                  /\ loop_records r = records ++ records_of visit more.
Proof.
  revert fr records visited. induction budget as [|b IH]; intros fr records visited Hinv.
  - cbn. split; [exact Hinv|]. split; [reflexivity|]. split; [lia|].
    exists []. now rewrite !app_nil_r.
  - cbn [crawl_loop]. destruct fr as [q s]. cbn [queue seen] in *.
    revert visited Hinv. induction q as [|url q IHq]; intros visited Hinv.
    + cbn. split; [exact Hinv|]. split; [reflexivity|]. split; [lia|].
      exists []. now rewrite !app_nil_r.
    + apply loop_inv_pop in Hinv.
      destruct (visit url) as [|links record|exn] eqn:Hv.
      * destruct (IHq _ Hinv) as (H1 & H2 & H3 & more & H4 & H5).
        split; [exact H1|]. split; [exact H2|]. split; [exact H3|].
        exists (url :: more). rewrite H4, <- app_assoc. split; [reflexivity|].
        rewrite H5. unfold records_of. cbn [flat_map]. now rewrite Hv.
      * pose proof (loop_inv_enqueue_all links _ _ Hinv) as Hinv'.
        destruct (IH _ (records ++ [record]) _ Hinv') as (H1 & H2 & H3 & more & H4 & H5).
        split; [exact H1|]. split.
        { etransitivity; [|exact H2]. apply (seen_enqueue_all links {| queue := q; seen := s |}). }
        split.
        { rewrite length_app in H3. cbn in H3. lia. }
        exists (url :: more). rewrite H4, <- app_assoc. split; [reflexivity|].
        rewrite H5, <- app_assoc. unfold records_of. cbn [flat_map]. now rewrite Hv.
      * cbn. split; [exact Hinv|]. split; [reflexivity|]. split; [lia|].
        exists [url]. split; [reflexivity|].
        unfold records_of. cbn [flat_map]. rewrite Hv. now rewrite !app_nil_r.
Qed.

(** Frontiers built by [enqueue] alone, as the seeding builds them. *)
Inductive seeded : Frontier -> Prop :=
| seeded_empty : seeded empty_frontier
| seeded_enqueue st u : seeded st -> seeded (enq st u).

Lemma seeded_enqueue_all urls st : seeded st -> seeded (fold_left enq urls st).
Proof.
  revert st. induction urls as [|u urls IH]; intros st H; [exact H|].
  cbn [fold_left]. apply IH. now constructor.
Qed.

Lemma seeded_inv st :
  seeded st -> List.NoDup (queue st) /\ forall x, x ∈ seen st <-> In x (queue st).
Proof.
  induction 1 as [|st u _ [Hnd Hs]].
  - split; [constructor|]. intros x. cbn. split; [|intros []].
    intros H. now apply not_elem_of_empty in H.
  - destruct (enqueue_cases urlparse urldefrag allowed_re_match rp user_agent start_url st u)
      as [[E _]|(E & _ & Hn)]; rewrite E; [now split|].
    cbn zeta in Hn. cbn [queue seen]. split.
    + apply nodup_snoc; [exact Hnd|]. intros H. now apply Hn, Hs.
    + intros x. rewrite elem_of_union, elem_of_singleton, in_app_iff, Hs. cbn. intuition.
Qed.

Variable fromstring : string -> option xml.
Variable fetch_body : string -> option string.
Variable enq_raises : string -> bool.

Lemma seeded_enqueue_each urls fr :
  seeded fr -> seeded (fst (enqueue_each enq enq_raises urls fr)).
Proof.
  revert fr. induction urls as [|u urls IH]; intros fr H; [exact H|].
  cbn [enqueue_each]. destruct (enq_raises u); [exact H|]. apply IH. now constructor.
Qed.

Lemma seeded_seed_entries urls st :
  seeded (frontier st) ->
  seeded (frontier (fst (seed_entries fromstring fetch_body enq enq_raises urls st))).
Proof.
  revert st. induction urls as [|u urls IH]; intros st H; [exact H|].
  cbn [seed_entries]. destruct (PyText.endswith u ".xml").
  - destruct (fetch_body u) as [nxml|]; [|exact H].
    pose proof (seeded_enqueue_each (parse_sitemap_urls fromstring nxml) _ H) as H'.
    destruct (snd (enqueue_each enq enq_raises _ _)); [|exact H'].
    now apply IH.
  - destruct (enq_raises u); [exact H|].
    apply IH. cbn [enqueue_all frontier fold_left]. now constructor.
Qed.

Lemma seeded_sitemaps sitemaps st :
  seeded (frontier st) ->
  seeded (frontier (fold_left (seed_sitemap fromstring fetch_body enq enq_raises)
                      sitemaps st)).
Proof.
  revert st. induction sitemaps as [|sm sitemaps IH]; intros st H; [exact H|].
  cbn [fold_left]. apply IH. unfold seed_sitemap.
  destruct (fetch_body sm); [|exact H]. now apply seeded_seed_entries.
Qed.

Lemma seeded_seed_sitemaps sitemaps :
  seeded (frontier (seed_sitemaps fromstring fetch_body enq enq_raises sitemaps)).
Proof. apply seeded_sitemaps. exact seeded_empty. Qed.

Lemma seeded_seed sitemaps :
  seeded (frontier (seed fromstring fetch_body enq enq_raises sitemaps start_url)).
Proof.
  unfold seed. pose proof (seeded_seed_sitemaps sitemaps) as H.
  destruct (queue (frontier _)); [|exact H].
  cbn [enqueue_all frontier fold_left]. now constructor.
Qed.

End CrawlFrontier.

(** X13. After seeding, the queue holds no URL twice and the seen-set is
    exactly the set of the queued URLs.  When the defragmented start URL is
    non-empty and passes the admission checks, the queue is not empty,
    whatever the sitemaps gave: the start URL is entered when nothing else
    was. *)
Theorem seed_gives_start
    (urlparse : string -> ParseResult) (urldefrag : string -> string * string)
    (allowed_re_match : string -> bool) (rp : option (string -> string -> bool))
    (user_agent start_url : string)
    (fromstring : string -> option xml) (fetch_body : string -> option string)
    (enqueue_raises : string -> bool) (sitemaps : list string) :
  let enqueue := enqueue urlparse urldefrag allowed_re_match rp user_agent start_url in
  let fr := frontier (seed fromstring fetch_body enqueue enqueue_raises sitemaps
                        start_url) in
  List.NoDup (queue fr)
  /\ (forall x, x ∈ seen fr <-> In x (queue fr))
  /\ (admissible urlparse allowed_re_match rp user_agent start_url
        (fst (urldefrag start_url)) = true -> queue fr <> []).
Proof.
  intros enq fr.
  destruct (seeded_inv urlparse urldefrag allowed_re_match rp user_agent start_url fr
              (seeded_seed urlparse urldefrag allowed_re_match rp user_agent start_url
                 fromstring fetch_body enqueue_raises sitemaps)) as [Hnd Hs].
  split; [exact Hnd|]. split; [exact Hs|]. intros Ha. subst fr. unfold seed.
  set (st := seed_sitemaps _ _ _ _ sitemaps).
  destruct (seeded_inv urlparse urldefrag allowed_re_match rp user_agent start_url
              (frontier st)
              (seeded_seed_sitemaps urlparse urldefrag allowed_re_match rp user_agent
                 start_url fromstring fetch_body enqueue_raises sitemaps))
    as [_ Hs0].
  destruct (queue (frontier st)) eqn:Eq; [|now rewrite Eq].
  cbn [enqueue_all frontier fold_left]. unfold enq.
  rewrite enqueue_fresh; [cbn [queue]; rewrite Eq; discriminate| |exact Ha].
  intros H. apply Hs0 in H. destruct H.
Qed.

Lemma seed_gives_start_witness :
  queue (frontier (seed (fun _ => None) (fun _ => None)
                     (enqueue RefUrl.urlparse RefUrl.urldefrag default_allowed_path_match
                              None "Mozilla/5.0" "https://focode.org/focodemag")
                     (enqueue_raises urlsplit_rejects RefUrl.urlparse RefUrl.urldefrag
                                     "https://focode.org/focodemag")
                     ["https://focode.org/sitemap.xml"] "https://focode.org/focodemag"))
  <> [].
Proof.
  exact (proj2 (proj2 (seed_gives_start RefUrl.urlparse RefUrl.urldefrag
                         default_allowed_path_match None "Mozilla/5.0"
                         "https://focode.org/focodemag" (fun _ => None) (fun _ => None)
                         (enqueue_raises urlsplit_rejects RefUrl.urlparse RefUrl.urldefrag
                                         "https://focode.org/focodemag")
                         ["https://focode.org/sitemap.xml"])) eq_refl).
Defined.

(** What every run of [crawl_and_export] keeps, also one that an exception
    leaves before the loop. *)
Lemma crawl_run_inv
    (urlparse : string -> ParseResult) (urldefrag : string -> string * string)
    (allowed_re_match : string -> bool) (rp : option (string -> string -> bool))
    (user_agent start_url : string)
    (fromstring : string -> option xml) (fetch_body : string -> option string)
    (enqueue_raises : string -> bool) (visit : string -> PageOutcome)
    (ctx_close_raises browser_close_raises pw_stop_raises use_js : bool)
    (max_pages : Z) (discovered : option (list string)) :
  let enqueue := enqueue urlparse urldefrag allowed_re_match rp user_agent start_url in
  let r := run_loop (crawl_and_export fromstring fetch_body visit enqueue enqueue_raises
                       ctx_close_raises browser_close_raises pw_stop_raises
                       use_js max_pages discovered start_url) in
  loop_inv (loop_frontier r) (loop_visited r)
  /\ (length (loop_records r) <= Z.to_nat max_pages)%nat
  /\ loop_records r = records_of visit (loop_visited r).
Proof.
  intros enq r. subst r enq. unfold crawl_and_export.
  assert (Hseeded : forall fr,
            seeded urlparse urldefrag allowed_re_match rp user_agent start_url fr ->
            loop_inv fr []).
  { intros fr H.
    destruct (seeded_inv urlparse urldefrag allowed_re_match rp user_agent start_url fr H)
      as [Hnd Hs].
    split; [exact Hnd|]. intros x Hx. now apply Hs. }
  destruct discovered as [sitemaps|].
  - destruct (seed_raises _ _ _ _ sitemaps start_url).
    + cbn [before_loop run_loop loop_frontier loop_visited loop_records length].
      split; [|split; [lia|reflexivity]].
      apply Hseeded, seeded_seed_sitemaps.
    + unfold crawl. cbn [run_loop].
      set (fr := frontier (seed fromstring fetch_body _ _ sitemaps start_url)).
      assert (Hinv : loop_inv fr []) by apply Hseeded, seeded_seed.
      destruct (crawl_loop_inv urlparse urldefrag allowed_re_match rp user_agent start_url
                  visit (Z.to_nat max_pages) fr [] [] Hinv)
        as (H1 & _ & H3 & more & H4 & H5).
      split; [exact H1|]. split; [exact H3|].
      cbn [app] in H4, H5. now rewrite H5, H4.
  - cbn [before_loop run_loop loop_frontier loop_visited loop_records length].
    split; [|split; [lia|reflexivity]].
    apply Hseeded, seeded_empty.
Qed.

(** X14. In a whole crawl (seeding, then the loop) no URL is resolved twice,
    a URL still waiting at the end was never resolved, and every URL
    resolved is in the seen-set.  The loop appends at most [max_pages]
    records, and the records are those of the pages that were processed, in
    the order the URLs were dequeued. *)
Theorem crawl_visits_once
    (urlparse : string -> ParseResult) (urldefrag : string -> string * string)
    (allowed_re_match : string -> bool) (rp : option (string -> string -> bool))
    (user_agent start_url : string)
    (fromstring : string -> option xml) (fetch_body : string -> option string)
    (enqueue_raises : string -> bool) (visit : string -> PageOutcome)
    (ctx_close_raises browser_close_raises pw_stop_raises use_js : bool)
    (max_pages : Z) (discovered : option (list string)) :
  let enqueue := enqueue urlparse urldefrag allowed_re_match rp user_agent start_url in
  let r := run_loop (crawl_and_export fromstring fetch_body visit enqueue enqueue_raises
                       ctx_close_raises browser_close_raises pw_stop_raises
                       use_js max_pages discovered start_url) in
  List.NoDup (loop_visited r ++ queue (loop_frontier r))
  /\ (forall x, In x (loop_visited r) -> x ∈ seen (loop_frontier r))
  /\ (length (loop_records r) <= Z.to_nat max_pages)%nat
  /\ loop_records r = records_of visit (loop_visited r).
Proof.
  intros enq r.
  destruct (crawl_run_inv urlparse urldefrag allowed_re_match rp user_agent start_url
              fromstring fetch_body enqueue_raises visit
              ctx_close_raises browser_close_raises pw_stop_raises use_js
              max_pages discovered) as ([H1 H2] & H3 & H4).
  fold enq in H1, H2, H3, H4. fold r in H1, H2, H3, H4.
  split; [exact H1|]. split; [|split; [exact H3|exact H4]].
  intros x Hx. apply H2. apply in_app_iff. now left.
Qed.

Lemma crawl_visits_once_witness :
  "https://focode.org/focodemag"
  ∈ seen (loop_frontier
            (run_loop (sample_crawl false false "https://focode.org/focodemag"))).
Proof.
  exact (proj1 (proj2 (crawl_visits_once RefUrl.urlparse RefUrl.urldefrag
                         default_allowed_path_match None "Mozilla/5.0"
                         "https://focode.org/focodemag" (fun _ => None) (fun _ => None)
                         (enqueue_raises urlsplit_rejects RefUrl.urlparse RefUrl.urldefrag
                                         "https://focode.org/focodemag")
                         sample_visit false false false false 10%Z
                         (Some ["https://focode.org/sitemap_index.xml";
                                "https://focode.org/sitemap.xml"])))
           "https://focode.org/focodemag" (or_introl eq_refl)).
Defined.

(** ** The time [fetch] sleeps *)

Fixpoint total_sleep (tr : list event) : Q :=
  match tr with
  | [] => 0
  | EvSleep q :: r => q + total_sleep r
  | EvGet _ :: r => total_sleep r
  end.

(** The sum of [c * 2^k] over the attempts [a .. a+n-1]. *)
Fixpoint geometric (c : Q) (a n : nat) : Q :=
  match n with
  | O => 0
  | S n' => c * pow2 a + geometric c (S a) n'
  end.

Lemma geometric_closed c a n : (geometric c a n == c * pow2 a * (pow2 n - 1))%Q.
Proof.
  revert a. induction n as [|n IH]; intros a.
  - cbn [geometric]. change (pow2 0) with 1%Q. ring.
  - cbn [geometric]. rewrite IH, !pow2_succ. ring.
Qed.

Lemma geometric_mono c a n m :
  (0 <= c)%Q -> (n <= m)%nat -> (geometric c a n <= geometric c a m)%Q.
Proof.
  intros Hc. revert a m. induction n as [|n IH]; intros a m H.
  - clear H. revert a. induction m as [|m IHm]; intros a; [apply Qle_refl|].
    cbn [geometric]. pose proof (pow2_pos a). specialize (IHm (S a)).
    cbn [geometric] in IHm. nra.
  - destruct m as [|m]; [lia|]. cbn [geometric].
    specialize (IH (S a) m ltac:(lia)). lra.
Qed.

Lemma total_sleep_schedule fl random url a n :
  rounds_to_nearest fl ->
  (forall k, 0 <= random k /\ random k < 1)%Q ->
  (a + n <= 1024)%nat ->
  (geometric b64_0_8 a n <= total_sleep (schedule fl random url a (S n))
   /\ total_sleep (schedule fl random url a (S n))
      <= geometric (4503599627370497 # 4503599627370496) a n)%Q.
Proof.
  intros Hfl Hr. revert a. induction n as [|n IH]; intros a Ha.
  - cbn. split; apply Qle_refl.
  - change (schedule fl random url a (S (S n)))
      with (EvGet url :: EvSleep (delay fl random a) :: schedule fl random url (S a) (S n)).
    cbn [total_sleep geometric]. destruct (IH (S a)) as [H0 H1]; [lia|].
    destruct (delay_bounded fl Hfl random Hr a) as [Hd0 Hd1]; [lia|].
    unfold above_pow2 in Hd1. split; lra.
Qed.



(** ** Places in the document *)

(** The container that [pick_content_container] returns is an element of
    the parsed document, and [strip_unwanted] changes it in place: what is
    read from the document afterwards sees the cleaned container.  A place
    is the list of child indices that leads from the root to an element. *)
Module Place.

Fixpoint subtree (place : list nat) (n : node) : option node :=
  match place with
  | [] => Some n
  | i :: rest =>
      match nth_error (Soup.contents_of n) i with
      | Some c => subtree rest c
      | None => None
      end
  end.

Fixpoint replace_nth (i : nat) (f : node -> node) (l : list node) : list node :=
  match l, i with
  | [], _ => []
  | c :: r, O => f c :: r
  | c :: r, S i' => c :: replace_nth i' f r
  end.

(** The document with the element at [place] replaced by [new]. *)
Fixpoint replace_at (place : list nat) (new : node) (n : node) : node :=
  match place with
  | [] => new
  | i :: rest =>
      match n with
      | Text s => Text s
      | Tag nm a cs => Tag nm a (replace_nth i (replace_at rest new) cs)
      end
  end.

(** The descendants with their places, in document order. *)
Fixpoint located (n : node) : list (list nat * node) :=
  match n with
  | Text _ => []
  | Tag _ _ cs =>
      (fix go (i : nat) (l : list node) : list (list nat * node) :=
         match l with
         | [] => []
         | c :: r =>
             ([i], c) :: map (fun pn => (i :: fst pn, snd pn)) (located c) ++ go (S i) r
         end) 0%nat cs
  end.

(** [soup.find(...)] and [soup.select_one(...)] for a test on one element:
    the place of the first descendant that passes. *)
Definition first_place (p : node -> bool) (n : node) : option (list nat) :=
  option_map fst (List.find (fun pn => p (snd pn)) (located n)).

Definition first_node (p : node -> bool) (n : node) : option node :=
  List.find p (Soup.descendants n).

End Place.

Section Located.
Import Place.

Definition located_children (i : nat) (l : list node) : list (list nat * node) :=
  (fix go (i : nat) (l : list node) : list (list nat * node) :=
     match l with
     | [] => []
     | c :: r =>
         ([i], c) :: map (fun pn => (i :: fst pn, snd pn)) (located c) ++ go (S i) r
     end) i l.

Lemma located_tag nm a cs : located (Tag nm a cs) = located_children 0 cs.
Proof. reflexivity. Qed.

Lemma located_children_cons i c r :
  located_children i (c :: r)
  = ([i], c) :: map (fun pn => (i :: fst pn, snd pn)) (located c)
    ++ located_children (S i) r.
Proof. reflexivity. Qed.

Lemma located_children_nodes i l :
  (forall c, In c l -> map snd (located c) = Soup.descendants c) ->
  map snd (located_children i l) = flat_map (fun c => c :: Soup.descendants c) l.
Proof.
  revert i. induction l as [|c r IH]; intros i H; [reflexivity|].
  rewrite located_children_cons. cbn [map flat_map app].
  rewrite map_app, map_map. cbn [snd]. rewrite map_ext with (g := snd) by reflexivity.
  rewrite H by now left. f_equal. f_equal. apply IH. intros x Hx. apply H. now right.
Qed.

(** The located descendants are the descendants. *)
Lemma located_nodes n : map snd (located n) = Soup.descendants n.
Proof.
  induction n as [s|nm a cs IH] using node_forall_ind; [reflexivity|].
  rewrite located_tag. cbn [Soup.descendants]. apply located_children_nodes.
  now apply List.Forall_forall.
Qed.

Lemma located_children_subtree i l p d :
  (forall c, In c l -> forall p d, In (p, d) (located c) -> subtree p c = Some d) ->
  In (p, d) (located_children i l) ->
  exists j rest c, p = (i + j)%nat :: rest /\ nth_error l j = Some c
                   /\ subtree rest c = Some d.
Proof.
  revert i. induction l as [|c r IH]; intros i H Hin; [destruct Hin|].
  rewrite located_children_cons in Hin. destruct Hin as [E|Hin].
  - inversion E; subst. exists 0%nat, [], d. rewrite Nat.add_0_r. now repeat split.
  - apply in_app_iff in Hin as [Hin|Hin].
    + apply in_map_iff in Hin as ([p' d'] & E & Hin). cbn in E. inversion E; subst.
      exists 0%nat, p', c. rewrite Nat.add_0_r. repeat split. apply H; [now left|exact Hin].
    + destruct (IH (S i)) as (j & rest & c' & -> & Hn & Hs); [|exact Hin|].
      { intros x Hx. apply H. now right. }
      exists (S j), rest, c'. repeat split; [f_equal; lia|exact Hn|exact Hs].
Qed.

(** An element is found at its place. *)
Lemma located_subtree n p d : In (p, d) (located n) -> subtree p n = Some d.
Proof.
  revert p d. induction n as [s|nm a cs IH] using node_forall_ind; intros p d H.
  - destruct H.
  - rewrite located_tag in H. rewrite List.Forall_forall in IH.
    destruct (located_children_subtree 0 cs p d IH H) as (j & rest & c & -> & Hn & Hs).
    cbn [subtree Soup.contents_of Nat.add]. now rewrite Hn.
Qed.

Lemma first_place_spec p n place :
  first_place p n = Some place ->
  exists d, subtree place n = Some d /\ p d = true /\ In d (Soup.descendants n)
            /\ first_node p n = Some d.
Proof.
  unfold first_place, first_node. rewrite <- located_nodes.
  destruct (List.find _ (located n)) as [[q d]|] eqn:E; [|discriminate].
  cbn. intros H. inversion H; subst. exists d.
  pose proof (find_some _ _ E) as [Hin Hp]. cbn in Hp.
  split; [now apply located_subtree|]. split; [exact Hp|].
  split; [apply in_map_iff; now exists (place, d)|].
  clear Hin Hp. induction (located n) as [|[q' d'] l IH]; [discriminate|].
  cbn [List.find map snd] in *. destruct (p d'); [now inversion E|now apply IH].
Qed.

End Located.

(** ** [pick_content_container] *)

(** The class tokens of an element, as a CSS class selector reads them. *)
Definition css_space (c : ascii) : bool :=
  let n := PyStr.code c in
  ((n =? 32) || (n =? 9) || (n =? 13) || (n =? 10) || (n =? 12))%N.

Fixpoint tokens_from (cur l : list ascii) : list (list ascii) :=
  match l with
  | [] => match cur with [] => [] | _ => [cur] end
  | c :: r =>
      if css_space c
      then match cur with [] => tokens_from [] r | _ => cur :: tokens_from [] r end
      else tokens_from (cur ++ [c]) r
  end.

Definition class_tokens (n : node) : list string :=
  match Soup.get (Soup.attrs_of n) "class" with
  | Some (AttrList l) => l
  | Some (AttrStr s) => map PyStr.str (tokens_from [] (PyStr.chars s))
  | None => []
  end.

(** The selectors [tag] and [tag.class]. *)
Definition matches_tag (tag : string) (n : node) : bool := Soup.named [tag] n.
Definition matches_tag_class (tag cls : string) (n : node) : bool :=
  Soup.named [tag] n && existsb (String.eqb cls) (class_tokens n).

Definition container_selectors : list (node -> bool) :=
  [matches_tag "article"; matches_tag "main"; matches_tag_class "div" "entry-content";
   matches_tag_class "div" "post-content"; matches_tag_class "div" "post-body"].

Fixpoint first_hit (sels : list (node -> bool)) (soup : node) : option (list nat) :=
  match sels with
  | [] => None
  | sel :: r =>
      match Place.first_place sel soup with
      | Some p => Some p
      | None => first_hit r soup
      end
  end.

Section Container.

(** [soup.select_one(css)] for the configured selector: the place of the
    hit, if any. *)
Variable select_one_css : string -> node -> option (list nat).

Definition css_hit (soup : node) (content_css : option string) : option (list nat) :=
  match content_css with
  | Some css =>
      if PyText.nonempty css then
        match select_one_css css soup with
        | Some p =>
            match Place.subtree p soup with
            | Some (Tag _ _ _) => Some p       (* isinstance(hit, Tag) *)
            | _ => None
            end
        | None => None
        end
      else None
  | None => None
  end.

(** The place of the container; the empty place is the document itself. *)
Definition pick_content_container (soup : node) (content_css : option string) : list nat :=
  match css_hit soup content_css with
  | Some p => p
  | None =>
      match first_hit container_selectors soup with
      | Some p => p
      | None =>
          match Place.first_place (matches_tag "body") soup with
          | Some p => p
          | None => []
          end
      end
  end.

End Container.

Lemma first_hit_spec sels soup place :
  first_hit sels soup = Some place ->
  exists sel d, In sel sels /\ Place.subtree place soup = Some d /\ sel d = true
                /\ Place.first_node sel soup = Some d.
Proof.
  induction sels as [|sel sels IH]; [discriminate|]. cbn [first_hit].
  destruct (Place.first_place sel soup) as [p|] eqn:E.
  - intros H. inversion H; subst.
    apply first_place_spec in E as (d & H1 & H2 & _ & H4).
    exists sel, d. split; [now left|]. now repeat split.
  - intros H. destruct (IH H) as (s & d & Hs & Hd). exists s, d. split; [now right|exact Hd].
Qed.

Lemma first_place_none p n :
  Place.first_place p n = None -> Place.first_node p n = None.
Proof.
  unfold Place.first_place, Place.first_node. rewrite <- located_nodes.
  induction (Place.located n) as [|[q d] l IH]; [reflexivity|].
  cbn [List.find map snd]. destruct (p d); [discriminate|exact IH].
Qed.

Lemma matches_is_tag sel d :
  In sel container_selectors \/ sel = matches_tag "body" -> sel d = true ->
  Soup.is_tag d = true.
Proof.
  intros H Hd. assert (Hn : exists tag, Soup.named [tag] d = true).
  { destruct H as [H| ->]; [|now exists "body"].
    unfold container_selectors in H.
    repeat (destruct H as [<-|H]).
    - now exists "article".
    - now exists "main".
    - exists "div". unfold matches_tag_class in Hd. now apply andb_true_iff in Hd as [Hd _].
    - exists "div". unfold matches_tag_class in Hd. now apply andb_true_iff in Hd as [Hd _].
    - exists "div". unfold matches_tag_class in Hd. now apply andb_true_iff in Hd as [Hd _].
    - contradiction. }
  destruct Hn as (tag & Hn). unfold Soup.named in Hn. now apply andb_true_iff in Hn as [Hn _].
Qed.

(** X16. The place [pick_content_container] returns always leads to an
    element of the document, never to a string and never outside it, so the
    caller's branches for a container that is not a [Tag] are never taken.
    Without a selector override (or when it has no hit), the container is
    the first [article] of the document if there is one, whatever [main],
    [div] or [body] elements come before it. *)
Theorem pick_content_container_element
    (select_one_css : string -> node -> option (list nat))
    (nm : string) (a : list (string * attr_value)) (cs : list node)
    (content_css : option string) :
  let soup := Tag nm a cs in
  let place := pick_content_container select_one_css soup content_css in
  (exists c, Place.subtree place soup = Some c /\ Soup.is_tag c = true)
  /\ (css_hit select_one_css soup content_css = None ->
      forall art, Place.first_node (matches_tag "article") soup = Some art ->
                  Place.subtree place soup = Some art).
Proof.
  intros soup place. subst place. unfold pick_content_container.
  destruct (css_hit select_one_css soup content_css) as [p|] eqn:Ecss.
  - split; [|discriminate]. unfold css_hit in Ecss.
    destruct content_css as [css|]; [|discriminate].
    destruct (PyText.nonempty css); [|discriminate].
    destruct (select_one_css css soup) as [q|]; [|discriminate].
    destruct (Place.subtree q soup) as [[s|nm' a' cs']|] eqn:Es; try discriminate.
    inversion Ecss; subst. exists (Tag nm' a' cs'). now split.
  - destruct (first_hit container_selectors soup) as [p|] eqn:Ehit.
    + apply first_hit_spec in Ehit as Hspec. destruct Hspec as (sel & d & Hsel & Hd & Hp & Hf).
      split.
      * exists d. split; [exact Hd|]. apply (matches_is_tag sel); auto.
      * intros _ art Hart. cbn [container_selectors first_hit] in Ehit.
        destruct (Place.first_place (matches_tag "article") soup) as [q|] eqn:Eq.
        -- inversion Ehit; subst. apply first_place_spec in Eq as (d' & H1 & _ & _ & H4).
           congruence.
        -- apply first_place_none in Eq. congruence.
    + split.
      * destruct (Place.first_place (matches_tag "body") soup) as [p|] eqn:Eb.
        -- apply first_place_spec in Eb as (d & H1 & H2 & H3 & _). exists d.
           split; [exact H1|]. apply (matches_is_tag (matches_tag "body")); auto.
        -- exists soup. now split.
      * intros _ art Hart. cbn [container_selectors first_hit] in Ehit.
        destruct (Place.first_place (matches_tag "article") soup) as [q|] eqn:Eq;
          [discriminate|].
        apply first_place_none in Eq. congruence.
Qed.

Lemma pick_content_container_element_witness :
  Place.subtree
    (pick_content_container (fun _ _ => None)
       (Tag "[document]" []
          [Tag "html" []
             [Tag "body" []
                [Tag "main" [] [Text "menu"]; Tag "article" [] [Text "story"]]]])
       None)
    (Tag "[document]" []
       [Tag "html" []
          [Tag "body" []
             [Tag "main" [] [Text "menu"]; Tag "article" [] [Text "story"]]]])
  = Some (Tag "article" [] [Text "story"]).
Proof.
  exact (proj2 (pick_content_container_element (fun _ _ => None) "[document]" []
                  [Tag "html" []
                     [Tag "body" []
                        [Tag "main" [] [Text "menu"]; Tag "article" [] [Text "story"]]]]
                  None)
           eq_refl (Tag "article" [] [Text "story"]) eq_refl).
Defined.

(** ** Title, language and date of a page *)

(** [soup.find(name, attrs={key: value})]: how bs4 compares an attribute
    with a string. *)
Definition attr_is (key value : string) (n : node) : bool :=
  match Soup.get (Soup.attrs_of n) key with
  | Some (AttrStr x) => String.eqb x value
  | Some (AttrList l) => existsb (String.eqb value) l || String.eqb (PyText.join " " l) value
  | None => false
  end.

Definition find_meta (key value : string) (soup : node) : option node :=
  Place.first_node (fun n => Soup.named ["meta"] n && attr_is key value n) soup.

(** [tag.get(key)] when it is a non-empty string, as [if tag.get(key)]
    reads it.  The parser gives a list only for the multi-valued attributes
    ([class], [rel], [headers] and the like); [content], [lang] and
    [datetime] are strings, and a list is read here as no value. *)
Definition get_truthy (n : node) (key : string) : option string :=
  py_or (Soup.get_str n key) None.

(** [Tag.string]: the single string of an element, if it has one. *)
Fixpoint string_of (n : node) : option string :=
  match n with
  | Text s => Some s
  | Tag _ _ [c] => string_of c
  | Tag _ _ _ => None
  end.

(** [tag = soup.find("meta", {key: value})] and its [content], when
    [tag and tag.get("content")] holds. *)
Definition meta_content (key value : string) (soup : node) : option string :=
  match find_meta key value soup with
  | Some tag => get_truthy tag "content"
  | None => None
  end.

(** [extract_title]; [None] is the [TypeError] that [normalize_ws(None)]
    raises when the [title] element has no single string. *)
Definition extract_title (soup : node) : option string :=
  match meta_content "property" "og:title" soup with
  | Some c => Some (normalize_ws c)
  | None =>
      match meta_content "name" "twitter:title" soup with
      | Some c => Some (normalize_ws c)
      | None =>
          match Place.first_node (Soup.named ["h1"]) soup with
          | Some h1 => Some (normalize_ws (Soup.get_text_strip " " h1))
          | None =>
              match Place.first_node (Soup.named ["title"]) soup with
              | Some title => option_map normalize_ws (string_of title)
              | None => Some ""
              end
          end
      end
  end.

Definition extract_lang (soup : node) : option string :=
  match Place.first_node (Soup.named ["html"]) soup with
  | Some html => get_truthy html "lang"
  | None => None
  end.

(** [s.replace("Z", "+00:00")]. *)
Definition replace_z (s : string) : string :=
  PyStr.str (flat_map (fun c => if Ascii.eqb c "Z"%char then PyStr.chars "+00:00" else [c])
                      (PyStr.chars s)).

Section PublishedDate.

(** [datetime.fromisoformat(s).date().isoformat()]; [None] when it raises. *)
Variable fromisoformat_date : string -> option string.

Definition iso_date (value : string) : option string :=
  fromisoformat_date (replace_z (PyStr.strip value)).

Definition date_metas : list (string * string) :=
  [("property", "article:published_time"); ("name", "article:published_time");
   ("name", "date"); ("itemprop", "datePublished")].

Fixpoint first_meta_date (soup : node) (metas : list (string * string)) : option string :=
  match metas with
  | [] => None
  | (key, value) :: r =>
      match
        match find_meta key value soup with
        | Some t => match get_truthy t "content" with
                    | Some c => iso_date c
                    | None => None
                    end
        | None => None
        end
      with
      | Some d => Some d
      | None => first_meta_date soup r
      end
  end.

Definition extract_published_date (soup : node) (slug : string) : option string :=
  match first_meta_date soup date_metas with
  | Some d => Some d
  | None =>
      match
        match Place.first_node (Soup.named ["time"]) soup with
        | Some tm => match get_truthy tm "datetime" with
                     | Some c => iso_date c
                     | None => None
                     end
        | None => None
        end
      with
      | Some d => Some d
      | None => parse_date_from_slug slug
      end
  end.

End PublishedDate.

Lemma get_truthy_nonempty n key s : get_truthy n key = Some s -> s <> "".
Proof.
  unfold get_truthy, py_or. destruct (Soup.get_str n key) as [x|]; [|discriminate].
  destruct (PyText.nonempty x) eqn:E; [|discriminate].
  intros H. inversion H; subst. now apply nonempty_iff.
Qed.

Ltac title_found :=
  repeat split; intros;
  repeat match goal with
         | H : _ /\ _ |- _ => destruct H
         | H : exists _, _ |- _ => destruct H
         | H : Some _ = Some _ |- _ => inversion H; clear H; subst
         end;
  try discriminate; try congruence; try apply normalize_ws_fixed_idem; try reflexivity.

(** X17. A title that [extract_title] returns has normalized whitespace.
    The content of the [og:title] meta wins, then that of the
    [twitter:title] meta, then the text of the first [h1].
    [extract_title] returns whenever the document has an [h1] or has no
    [title] element; it raises exactly when the two title metas and the
    [h1] gave nothing and the [title] element has no single string (it is
    empty, or has several children). *)
Theorem extract_title_normalized (soup : node) :
  (forall t, extract_title soup = Some t -> normalize_ws t = t)
  /\ (Place.first_node (Soup.named ["h1"]) soup <> None -> extract_title soup <> None)
  /\ (Place.first_node (Soup.named ["title"]) soup = None -> extract_title soup <> None)
  /\ (extract_title soup = None <->
      meta_content "property" "og:title" soup = None
      /\ meta_content "name" "twitter:title" soup = None
      /\ Place.first_node (Soup.named ["h1"]) soup = None
      /\ exists title, Place.first_node (Soup.named ["title"]) soup = Some title
                       /\ string_of title = None)
  /\ (forall c, meta_content "property" "og:title" soup = Some c ->
        extract_title soup = Some (normalize_ws c))
  /\ (forall c, meta_content "property" "og:title" soup = None ->
        meta_content "name" "twitter:title" soup = Some c ->
        extract_title soup = Some (normalize_ws c))
  /\ (forall h1, meta_content "property" "og:title" soup = None ->
        meta_content "name" "twitter:title" soup = None ->
        Place.first_node (Soup.named ["h1"]) soup = Some h1 ->
        extract_title soup = Some (normalize_ws (Soup.get_text_strip " " h1))).
Proof.
  unfold extract_title.
  destruct (meta_content "property" "og:title" soup) as [c1|]; [title_found|].
  destruct (meta_content "name" "twitter:title" soup) as [c2|]; [title_found|].
  destruct (Place.first_node (Soup.named ["h1"]) soup) as [h1|]; [title_found|].
  destruct (Place.first_node (Soup.named ["title"]) soup) as [title|].
  - destruct (string_of title) as [s|] eqn:Es; cbn [option_map]; [title_found|].
    repeat split; try discriminate; try congruence. now exists title.
  - title_found.
Qed.

Lemma extract_title_normalized_witness :
  normalize_ws "Mag: Issue 3" = "Mag: Issue 3".
Proof.
  exact (proj1 (extract_title_normalized
                  (Tag "[document]" []
                     [Tag "html" []
                        [Tag "head" [] [Tag "title" [] [Text "ignored"]];
                         Tag "body" [] [Tag "h1" [] [Text " Mag:  Issue 3 "]]]]))
           "Mag: Issue 3" eq_refl).
Defined.

Example extract_title_empty_title_raises :
  extract_title (Tag "[document]" []
                   [Tag "html" [] [Tag "head" [] [Tag "title" [] []]; Tag "body" [] []]])
  = None.
Proof. reflexivity. Qed.

(** ** [extract_published_date] *)

Definition no_z (s : string) : bool :=
  forallb (fun c => negb (Ascii.eqb c "Z"%char)) (PyStr.chars s).

Lemma replace_z_no_z s : no_z (replace_z s) = true.
Proof.
  unfold no_z, replace_z. rewrite chars_str.
  induction (PyStr.chars s) as [|c l IH]; [reflexivity|]. cbn [flat_map].
  rewrite forallb_app, IH, andb_true_r.
  destruct (Ascii.eqb c "Z"%char) eqn:E; [reflexivity|]. cbn [forallb]. now rewrite E.
Qed.

(** The values [extract_published_date] tries, in order: the content of
    the first meta of each of the four kinds, then the [datetime] of the
    first [time] element; each only when it is a non-empty string. *)
Definition date_candidates (soup : node) : list string :=
  flat_map (fun kv => match meta_content (fst kv) (snd kv) soup with
                      | Some c => [c]
                      | None => []
                      end)
           date_metas
  ++ match Place.first_node (Soup.named ["time"]) soup with
     | Some tm => match get_truthy tm "datetime" with
                  | Some c => [c]
                  | None => []
                  end
     | None => []
     end.

(** The first value that [f] accepts. *)
Fixpoint first_some {A B : Type} (f : A -> option B) (l : list A) : option B :=
  match l with
  | [] => None
  | x :: r => match f x with Some y => Some y | None => first_some f r end
  end.

Lemma first_some_app {A B : Type} (f : A -> option B) l1 l2 :
  first_some f (l1 ++ l2)
  = match first_some f l1 with Some y => Some y | None => first_some f l2 end.
Proof.
  induction l1 as [|x l1 IH]; [reflexivity|]. cbn [app first_some].
  now destruct (f x).
Qed.

Lemma first_some_found {A B : Type} (f : A -> option B) l y :
  first_some f l = Some y ->
  exists pre x post, l = pre ++ x :: post /\ f x = Some y
                     /\ forall b, In b pre -> f b = None.
Proof.
  induction l as [|x l IH]; [discriminate|]. cbn [first_some].
  destruct (f x) as [y'|] eqn:E.
  - intros H. inversion H; subst. exists [], x, l. repeat split; [exact E|intros b []].
  - intros H. destruct (IH H) as (pre & c & post & -> & Hc & Hpre).
    exists (x :: pre), c, post. repeat split; [exact Hc|].
    intros b [<-|Hb]; [exact E|now apply Hpre].
Qed.

Lemma first_some_none {A B : Type} (f : A -> option B) l :
  first_some f l = None <-> forall b, In b l -> f b = None.
Proof.
  induction l as [|x l IH]; cbn [first_some]; [now split|].
  destruct (f x) as [y|] eqn:E.
  - split; [discriminate|]. intros H. rewrite <- E. apply H. now left.
  - rewrite IH. split.
    + intros H b [<-|Hb]; [exact E|now apply H].
    + intros H b Hb. apply H. now right.
Qed.

Lemma first_some_at {A B : Type} (f : A -> option B) pre x post y :
  (forall b, In b pre -> f b = None) -> f x = Some y ->
  first_some f (pre ++ x :: post) = Some y.
Proof.
  intros Hpre Hx. rewrite first_some_app.
  apply first_some_none in Hpre. rewrite Hpre. cbn [first_some]. now rewrite Hx.
Qed.

Lemma first_meta_date_candidates fromisoformat_date soup metas :
  first_meta_date fromisoformat_date soup metas
  = first_some (iso_date fromisoformat_date)
      (flat_map (fun kv => match meta_content (fst kv) (snd kv) soup with
                           | Some c => [c]
                           | None => []
                           end) metas).
Proof.
  induction metas as [|[key value] r IH]; [reflexivity|].
  cbn [first_meta_date flat_map fst snd]. rewrite first_some_app, <- IH.
  unfold meta_content. destruct (find_meta key value soup) as [t|]; [|reflexivity].
  destruct (get_truthy t "content") as [c|]; [|reflexivity].
  cbn [first_some]. now destruct (iso_date fromisoformat_date c).
Qed.

(** [extract_published_date] is the first candidate that parses, else the
    date of the slug. *)
Lemma extract_published_date_candidates fromisoformat_date soup slug :
  extract_published_date fromisoformat_date soup slug
  = match first_some (iso_date fromisoformat_date) (date_candidates soup) with
    | Some d => Some d
    | None => parse_date_from_slug slug
    end.
Proof.
  unfold extract_published_date, date_candidates.
  rewrite first_some_app, <- first_meta_date_candidates.
  destruct (first_meta_date fromisoformat_date soup date_metas); [reflexivity|].
  destruct (Place.first_node (Soup.named ["time"]) soup) as [tm|]; [|reflexivity].
  destruct (get_truthy tm "datetime") as [c|]; [|reflexivity].
  cbn [first_some]. now destruct (iso_date fromisoformat_date c).
Qed.

Lemma date_candidates_nonempty soup c : In c (date_candidates soup) -> c <> "".
Proof.
  unfold date_candidates. rewrite in_app_iff, in_flat_map. intros [((k, v) & _ & H)|H].
  - cbn [fst snd] in H. unfold meta_content in H.
    destruct (find_meta k v soup) as [t|]; [|destruct H].
    destruct (get_truthy t "content") as [x|] eqn:E; [|destruct H].
    destruct H as [<-|[]]. now apply get_truthy_nonempty in E.
  - destruct (Place.first_node (Soup.named ["time"]) soup) as [tm|]; [|destruct H].
    destruct (get_truthy tm "datetime") as [x|] eqn:E; [|destruct H].
    destruct H as [<-|[]]. now apply get_truthy_nonempty in E.
Qed.

(** X18. The published date is the date of the first value of the document
    that parses, among the values [extract_published_date] tries in order
    (the non-empty contents of the four date metas, then the [datetime] of
    the first [time] element), each stripped and with every [Z] replaced
    before the ISO parser sees it; the date of the slug is the last resort.
    So a page gets no date only if no value of the document parses and its
    slug carries none, and it gets the date of the slug whenever no value
    of the document parses. *)
Theorem extract_published_date_origin
    (fromisoformat_date : string -> option string) (soup : node) (slug : string) :
  let parsed c := fromisoformat_date (replace_z (PyStr.strip c)) in
  let date := extract_published_date fromisoformat_date soup slug in
  (forall d, date = Some d ->
     (exists pre c post, date_candidates soup = pre ++ c :: post
                         /\ parsed c = Some d
                         /\ forall b, In b pre -> parsed b = None)
     \/ ((forall c, In c (date_candidates soup) -> parsed c = None)
         /\ parse_date_from_slug slug = Some d))
  /\ (forall pre c post d, date_candidates soup = pre ++ c :: post ->
        (forall b, In b pre -> parsed b = None) -> parsed c = Some d ->
        date = Some d)
  /\ ((forall c, In c (date_candidates soup) -> parsed c = None) ->
      date = parse_date_from_slug slug)
  /\ (date = None ->
      (forall c, In c (date_candidates soup) -> parsed c = None)
      /\ parse_date_from_slug slug = None)
  /\ (forall c, In c (date_candidates soup) ->
        c <> "" /\ no_z (replace_z (PyStr.strip c)) = true).
Proof.
  intros parsed date. subst date.
  rewrite extract_published_date_candidates.
  change (iso_date fromisoformat_date) with parsed.
  repeat apply conj.
  - intros d H. destruct (first_some parsed (date_candidates soup)) as [d'|] eqn:E.
    + inversion H; subst. left. apply first_some_found in E.
      destruct E as (pre & c & post & E & Hc & Hpre). now exists pre, c, post.
    + right. split; [now apply first_some_none|exact H].
  - intros pre c post d E Hpre Hc. rewrite E.
    now rewrite (first_some_at parsed pre c post d Hpre Hc).
  - intros H. apply first_some_none in H. now rewrite H.
  - intros H. destruct (first_some parsed (date_candidates soup)) eqn:E; [discriminate|].
    split; [now apply first_some_none|exact H].
  - intros c H. split; [now apply (date_candidates_nonempty soup)|apply replace_z_no_z].
Qed.

Definition sample_fromisoformat (s : string) : option string :=
  if String.eqb s "2024-03-15T10:00:00+00:00" then Some "2024-03-15" else None.

Lemma extract_published_date_origin_witness :
  extract_published_date sample_fromisoformat
    (Tag "[document]" []
       [Tag "html" []
          [Tag "head" []
             [Tag "meta" [("name", AttrStr "date"); ("content", AttrStr "yesterday")] []];
           Tag "body" []
             [Tag "time" [("datetime", AttrStr " 2024-03-15T10:00:00Z ")] []]]])
    "issue-010170"
  = Some "2024-03-15".
Proof.
  refine (proj1 (proj2 (extract_published_date_origin sample_fromisoformat
                  (Tag "[document]" []
                     [Tag "html" []
                        [Tag "head" []
                           [Tag "meta" [("name", AttrStr "date");
                                        ("content", AttrStr "yesterday")] []];
                         Tag "body" []
                           [Tag "time" [("datetime", AttrStr " 2024-03-15T10:00:00Z ")]
                              []]]])
                  "issue-010170"))
           ["yesterday"] " 2024-03-15T10:00:00Z " [] "2024-03-15" eq_refl _ eq_refl).
  intros b [<-|[]]. reflexivity.
Defined.

(** ** One turn of the crawl loop: links and record of a page *)

Definition skipped_schemes : list string := ["mailto:"; "tel:"; "javascript:"].

(** The stripped [href] values the loop follows: those of the [a] elements
    that have an [href], not empty and not a mail, phone or script link. *)
Definition followed_hrefs (soup : node) : list string :=
  List.filter
    (fun href => PyText.nonempty href
                 && negb (existsb (PyText.startswith href) skipped_schemes))
    (flat_map (fun a => match Soup.get_str a "href" with
                        | Some h => [PyStr.strip h]
                        | None => []
                        end)
              (Soup.find_all ["a"] soup)).

(** [a.get("href", "").strip()] needs a string: a list-valued [href] (the
    parser gives lists only for [class], [rel] and the like) raises
    [AttributeError]. *)
Definition hrefs_are_strings (soup : node) : bool :=
  forallb (fun a => match Soup.get (Soup.attrs_of a) "href" with
                    | Some (AttrList _) => false
                    | _ => true
                    end)
          (Soup.find_all ["a"] soup).

Section PageProcessing.

Variable urlparse : string -> ParseResult.
Variable urljoin : string -> string -> string.
Variable select_one_css : string -> node -> option (list nat).
Variable fromisoformat_date : string -> option string.
Variable serialize : node -> string.                    (* str(container) *)
Variable content_css : option string.

(** The body of the loop after the page was resolved, on the parsed
    document [soup]: the links it enqueues and the record it appends, or
    the exception that leaves the loop. *)
Definition process_page (url final_url : string) (soup : node) : PageOutcome :=
  let original := soup in
  let links := map (fun href => absolutize urljoin href final_url) (followed_hrefs soup) in
  let slug := get_slug urlparse final_url in
  let place := pick_content_container select_one_css soup content_css in
  let container := match Place.subtree place soup with Some c => c | None => soup end in
  let is_tag := Soup.is_tag container in
  let cleaned := if is_tag then strip_unwanted container else container in
  let soup := Place.replace_at place cleaned soup in
  let extracted := if is_tag then extract_blocks urljoin cleaned final_url else ([], []) in
  let text :=
    let t := blocks_to_text (fst extracted) in
    if PyText.nonempty t then t else normalize_ws (Soup.get_text_strip (String PyStr.nl "") soup) in
  if negb (hrefs_are_strings original) then PageCrashed "AttributeError" else
  match extract_title soup with
  | None => PageCrashed "TypeError"
  | Some t =>
      PageDone links
        {| Page.source_url := url;
           Page.final_url := final_url;
           Page.slug := slug;
           Page.title := if PyText.nonempty t then t else slug;
           Page.published_date := extract_published_date fromisoformat_date soup slug;
           Page.language := extract_lang soup;
           Page.text := text;
           Page.blocks := fst extracted;
           Page.images := snd extracted;
           Page.html := if is_tag then serialize cleaned else "" |}
  end.

End PageProcessing.

Lemma followed_hrefs_spec soup href :
  In href (followed_hrefs soup) ->
  href <> "" /\ PyStr.strip href = href
  /\ forall pre, In pre skipped_schemes -> PyText.startswith href pre = false.
Proof.
  unfold followed_hrefs. intros H. apply List.filter_In in H as [Hin H].
  apply andb_true_iff in H as [Hne Hs]. split; [now apply nonempty_iff|]. split.
  - apply in_flat_map in Hin as (a & _ & Ha).
    destruct (Soup.get_str a "href") as [h|]; [|destruct Ha]. destruct Ha as [<-|[]].
    unfold PyStr.strip. rewrite chars_str. now rewrite strip_by_idem.
  - intros pre Hpre. apply negb_true_iff in Hs.
    destruct (PyText.startswith href pre) eqn:E; [|reflexivity].
    assert (existsb (PyText.startswith href) skipped_schemes = true); [|congruence].
    apply existsb_exists. now exists pre.
Qed.

(** X19. A record that the loop appends for a page has the dequeued URL as
    its source, the resolved URL as its final URL and that URL's slug; its
    title is never empty (it is the slug when the document gives none); its
    language is absent or non-empty; its blocks and images are those of the
    cleaned container, every image block matching an images entry in
    order; and its text is the text of the blocks whenever one block is not
    an image.  The links it follows are the non-empty, stripped [href]
    values that are not mail, phone or script links, resolved against the
    final URL. *)
Theorem process_page_record
    (urlparse : string -> ParseResult) (urljoin : string -> string -> string)
    (select_one_css : string -> node -> option (list nat))
    (fromisoformat_date : string -> option string) (serialize : node -> string)
    (content_css : option string) (url final_url : string) (soup : node)
    (links : list string) (rec : Page.PageRecord) :
  process_page urlparse urljoin select_one_css fromisoformat_date serialize content_css
    url final_url soup = PageDone links rec ->
  Page.source_url rec = url /\ Page.final_url rec = final_url
  /\ Page.slug rec = get_slug urlparse final_url
  /\ Page.title rec <> ""
  /\ Page.language rec <> Some ""
  /\ map block_payload (List.filter (is_type "image") (Page.blocks rec))
     = map entry_payload (Page.images rec)
  /\ Forall extracted_block (Page.blocks rec)
  /\ (forallb (is_type "image") (Page.blocks rec) = false ->
      Page.text rec = blocks_to_text (Page.blocks rec) /\ Page.text rec <> "")
  /\ links = map (urljoin final_url) (followed_hrefs soup)
  /\ (forall href, In href (followed_hrefs soup) ->
        href <> "" /\ PyStr.strip href = href
        /\ forall pre, In pre skipped_schemes -> PyText.startswith href pre = false).
Proof.
  unfold process_page. cbv zeta.
  set (place := pick_content_container select_one_css soup content_css).
  set (container := match Place.subtree place soup with Some c => c | None => soup end).
  set (cleaned := if Soup.is_tag container then strip_unwanted container else container).
  set (soup' := Place.replace_at place cleaned soup).
  destruct (hrefs_are_strings soup); [|discriminate]. cbn [negb].
  destruct (extract_title soup') as [t|]; [|discriminate].
  intros H. inversion H; subst links rec; clear H.
  cbn [Page.source_url Page.final_url Page.slug Page.title Page.language Page.text
       Page.blocks Page.images].
  assert (Hwf : Forall extracted_block
                  (fst (if Soup.is_tag container
                        then extract_blocks urljoin cleaned final_url else ([], [])))).
  { destruct (Soup.is_tag container); [apply extracted_blocks|constructor]. }
  repeat apply conj; try reflexivity.
  - destruct (PyText.nonempty t) eqn:E; [now apply nonempty_iff|].
    apply get_slug_facts.
  - unfold extract_lang. destruct (Place.first_node _ soup') as [html|]; [|discriminate].
    intros E. now apply get_truthy_nonempty in E.
  - destruct (Soup.is_tag container); [|reflexivity].
    apply (images_agree_fold urljoin final_url). reflexivity.
  - exact Hwf.
  - intros Himg.
    assert (Hne : blocks_to_text
                    (fst (if Soup.is_tag container
                          then extract_blocks urljoin cleaned final_url else ([], []))) <> "").
    { destruct (Soup.is_tag container); [|discriminate].
      intros E. apply blocks_to_text_empty_iff in E; [congruence|apply extracted_blocks]. }
    match goal with |- context [if ?b then _ else _] => destruct b eqn:Hb end.
    + split; [reflexivity|exact Hne].
    + exfalso. apply Hne. destruct (blocks_to_text _); [reflexivity|discriminate Hb].
  - apply followed_hrefs_spec.
Qed.

Definition sample_page : node :=
  Tag "[document]" []
    [Tag "html" [("lang", AttrStr "en")]
       [Tag "head" [] [Tag "title" [] [Text "Issue 3"]];
        Tag "body" []
          [Tag "nav" [] [Tag "a" [("href", AttrStr " /about ")] [Text "About"]];
           Tag "article" []
             [Tag "h1" [] [Text "Issue  3"];
              Tag "p" [] [Text "Write to ";
                          Tag "a" [("href", AttrStr "mailto:ed@example.org")] [Text "us"]];
              Tag "img" [("src", AttrStr "/cover.png")] []]]]].

Lemma process_page_record_witness :
  exists links rec,
    process_page RefUrl.urlparse (fun base url => (base ++ url)%string) (fun _ _ => None)
      (fun _ => None) (fun _ => "") None
      "http://example.org/n/issue-3" "http://example.org/n/issue-3/" sample_page
    = PageDone links rec
    /\ Page.slug rec = "issue-3"
    /\ Page.text rec = blocks_to_text (Page.blocks rec)
    /\ links = ["http://example.org/n/issue-3//about"].
Proof.
  destruct (process_page RefUrl.urlparse (fun base url => (base ++ url)%string)
              (fun _ _ => None) (fun _ => None) (fun _ => "") None
              "http://example.org/n/issue-3" "http://example.org/n/issue-3/" sample_page)
    as [|links rec|exn] eqn:E; [discriminate E| |discriminate E].
  exists links, rec. split; [reflexivity|].
  destruct (process_page_record _ _ _ _ _ _ _ _ _ _ _ E)
    as (_ & _ & Hslug & _ & _ & _ & _ & Htext & Hlinks & _).
  split; [rewrite Hslug; reflexivity|]. split.
  - apply Htext. vm_compute in E. inversion E. reflexivity.
  - rewrite Hlinks. reflexivity.
Defined.

(** ** The records of a whole crawl *)

(** One turn of the loop on a dequeued URL.  [resolve] is [renderer.get] or
    [fetch], [None] when it raises (the loop prints a warning and goes on);
    [parse] is [BeautifulSoup(html, "lxml")]. *)
Definition visit_page
    (urlparse : string -> ParseResult) (urljoin : string -> string -> string)
    (select_one_css : string -> node -> option (list nat))
    (fromisoformat_date : string -> option string) (serialize : node -> string)
    (content_css : option string)
    (resolve : string -> option (string * string)) (parse : string -> node)
    (url : string) : PageOutcome :=
  match resolve url with
  | None => PageSkipped
  | Some (html, final_url) =>
      process_page urlparse urljoin select_one_css fromisoformat_date serialize
        content_css url final_url (parse html)
  end.

Lemma records_of_sources (visit : string -> PageOutcome) (visited : list string) :
  (forall u links rec, visit u = PageDone links rec -> Page.source_url rec = u) ->
  List.NoDup visited ->
  List.NoDup (map Page.source_url (records_of visit visited))
  /\ forall rec, In rec (records_of visit visited) ->
       In (Page.source_url rec) visited
       /\ exists links, visit (Page.source_url rec) = PageDone links rec.
Proof.
  intros Hsrc. induction visited as [|u l IH]; intros Hnd.
  - split; [constructor|intros rec []].
  - inversion Hnd as [|? ? Hu Hl]; subst. destruct (IH Hl) as [IH1 IH2].
    unfold records_of in *. cbn [flat_map].
    destruct (visit u) as [|links rec|exn] eqn:Ev; cbn [app map].
    + split; [exact IH1|]. intros rec H. destruct (IH2 rec H) as [H1 H2].
      split; [now right|exact H2].
    + pose proof (Hsrc u links rec Ev) as Hs. split.
      * constructor; [|exact IH1]. rewrite Hs. intros H. apply in_map_iff in H.
        destruct H as (rec' & Hrec' & Hin). destruct (IH2 rec' Hin) as [H1 _].
        rewrite Hrec' in H1. contradiction.
      * intros rec' [<-|H].
        -- rewrite Hs. split; [now left|]. now exists links.
        -- destruct (IH2 rec' H) as [H1 H2]. split; [now right|exact H2].
    + split; [exact IH1|]. intros rec H. destruct (IH2 rec H) as [H1 H2].
      split; [now right|exact H2].
Qed.

(** X20. The records of a whole crawl (seeding, then the loop over pages
    that are resolved, parsed and processed): no two records have the same
    source URL; each record belongs to a URL that was dequeued and resolved
    without an exception, and carries the final URL of that resolution, its
    slug and a title that is not empty. *)
Theorem crawl_records_distinct
    (urlparse : string -> ParseResult) (urldefrag : string -> string * string)
    (urljoin : string -> string -> string)
    (allowed_re_match : string -> bool) (rp : option (string -> string -> bool))
    (user_agent start_url : string)
    (fromstring : string -> option xml) (fetch_body : string -> option string)
    (enqueue_raises : string -> bool)
    (select_one_css : string -> node -> option (list nat))
    (fromisoformat_date : string -> option string) (serialize : node -> string)
    (content_css : option string)
    (resolve : string -> option (string * string)) (parse : string -> node)
    (ctx_close_raises browser_close_raises pw_stop_raises use_js : bool)
    (max_pages : Z) (discovered : option (list string)) :
  let enqueue := enqueue urlparse urldefrag allowed_re_match rp user_agent start_url in
  let visit := visit_page urlparse urljoin select_one_css fromisoformat_date serialize
                 content_css resolve parse in
  let r := run_loop (crawl_and_export fromstring fetch_body visit enqueue enqueue_raises
                       ctx_close_raises browser_close_raises pw_stop_raises
                       use_js max_pages discovered start_url) in
  List.NoDup (map Page.source_url (loop_records r))
  /\ forall rec, In rec (loop_records r) ->
       In (Page.source_url rec) (loop_visited r)
       /\ (exists html, resolve (Page.source_url rec) = Some (html, Page.final_url rec))
       /\ Page.slug rec = get_slug urlparse (Page.final_url rec)
       /\ Page.title rec <> "".
Proof.
  intros enq visit r.
  assert (Hpage : forall u links rec, visit u = PageDone links rec ->
            Page.source_url rec = u
            /\ (exists html, resolve u = Some (html, Page.final_url rec))
            /\ Page.slug rec = get_slug urlparse (Page.final_url rec)
            /\ Page.title rec <> "").
  { intros u links rec. unfold visit, visit_page.
    destruct (resolve u) as [[html final_url]|]; [|discriminate]. intros H.
    unfold process_page in H. cbv zeta in H.
    destruct (negb (hrefs_are_strings (parse html))); [discriminate|].
    destruct (extract_title _) as [t|]; [|discriminate].
    inversion H; subst links rec; clear H.
    cbn [Page.source_url Page.final_url Page.slug Page.title].
    split; [reflexivity|]. split; [now exists html|]. split; [reflexivity|].
    destruct (PyText.nonempty t) eqn:E; [now apply nonempty_iff|apply get_slug_facts]. }
  destruct (crawl_run_inv urlparse urldefrag allowed_re_match rp user_agent start_url
              fromstring fetch_body enqueue_raises visit
              ctx_close_raises browser_close_raises pw_stop_raises use_js
              max_pages discovered) as ([H1 _] & _ & H4).
  fold enq in H1, H4. fold r in H1, H4. rewrite H4.
  apply NoDup_app_remove_r in H1.
  destruct (records_of_sources visit (loop_visited r)
              (fun u l rc H => proj1 (Hpage u l rc H)) H1) as [Hd Hr].
  split; [exact Hd|]. intros rec Hin. destruct (Hr rec Hin) as [Hv [links Hvis]].
  destruct (Hpage _ _ _ Hvis) as (_ & Hres & Hslug & Ht). auto.
Qed.

Lemma crawl_records_distinct_witness :
  exists rec,
    In rec (loop_records
              (run_loop
                 (crawl_and_export (fun _ => None) (fun _ => None)
                    (visit_page RefUrl.urlparse (fun base url => url) (fun _ _ => None)
                       (fun _ => None) (fun _ => "") None
                       (fun u => Some ("", u)) (fun _ => sample_page))
                    (enqueue RefUrl.urlparse RefUrl.urldefrag default_allowed_path_match
                       None "Mozilla/5.0" "https://focode.org/focodemag")
                    (enqueue_raises urlsplit_rejects RefUrl.urlparse RefUrl.urldefrag
                       "https://focode.org/focodemag")
                    false false false false 5%Z (Some [])
                    "https://focode.org/focodemag")))
    /\ Page.source_url rec = "https://focode.org/focodemag"
    /\ Page.title rec <> "".
Proof.
  pose proof (proj2 (crawl_records_distinct RefUrl.urlparse RefUrl.urldefrag
                       (fun base url => url) default_allowed_path_match None "Mozilla/5.0"
                       "https://focode.org/focodemag" (fun _ => None) (fun _ => None)
                       (enqueue_raises urlsplit_rejects RefUrl.urlparse RefUrl.urldefrag
                          "https://focode.org/focodemag")
                       (fun _ _ => None) (fun _ => None) (fun _ => "") None
                       (fun u => Some ("", u)) (fun _ => sample_page)
                       false false false false 5%Z (Some []))) as H.
  cbv zeta in H.
  destruct (loop_records _) as [|rec l] eqn:E; [discriminate E|].
  exists rec. split; [now left|]. split.
  - vm_compute in E. inversion E. reflexivity.
  - apply (H rec). now left.
Defined.
